(** * Image editor backend: operation model, IEv1 binary protocol and
    revision service.

  Shallow embedding of
    - [backend/src/operations/Operation.ts]   (module [Op]),
    - [backend/src/protocol/IEv1.ts]          (modules [JS], [Buf], [IEv1]),
    - [backend/src/database/PostgresClient.ts],
      [backend/src/storage/CloudStorage.ts],
      [backend/src/cache/RedisClient.ts] and
      [backend/src/services/RevisionService.ts] (module [Svc]),
    - the further functions of these three and of
      [backend/src/services/ImageService.ts] (modules [PostgresClient],
      [CloudStorage], [RevisionService], [ImageService]).

  A parameter of an operation is a JavaScript value: [undefined], [null],
  a boolean or a number, where a number is a rational (every finite double
  is one), NaN or an infinity.  Strings and objects, which the declared
  types of the constructors ([number], [boolean]) exclude, are not
  modelled, and [-0] is not told from [0].  The integers the protocol
  computes with (lengths, bytes, checksums) are in [Z]; a [Buffer] is a
  list of bytes; a thrown [Error] is the [Err] case of [result].

  Rows are found by the spelling of their id.  PostgreSQL's conversion of
  a query parameter to [uuid] is modelled where [applyOp] first hands the
  image id to the database, in the lock query of [withImageLock]. *)

From Stdlib Require Import ZArith List Bool Lia String Ascii QArith Qcanon.
From Stdlib Require Import Strings.Byte.
Import ListNotations.
Local Open Scope Z_scope.

Set Implicit Arguments.

(* ------------------------------------------------------------------ *)
(** ** JavaScript values and operators                                *)
(* ------------------------------------------------------------------ *)

Module JS.
Local Open Scope string_scope.

(** A number: a rational in lowest terms, NaN, or [Infinity] with a
    sign. *)
Inductive number : Type :=
| Finite (q : Qc)
| NaN
| Infinity (negative : bool).

(** The number of an integer. *)
Definition int (z : Z) : number := Finite (Q2Qc (inject_Z z)).

Inductive value : Type :=
| Undefined
| Null
| Bool (b : bool)
| Number (n : number).

Definition typeof (v : value) : string :=
  match v with
  | Undefined => "undefined"
  | Null => "object"
  | Bool _ => "boolean"
  | Number _ => "number"
  end.

(** [ToBoolean]: [undefined], [null], [false], [0] and [NaN] are falsy. *)
Definition ToBoolean (v : value) : bool :=
  match v with
  | Undefined => false
  | Null => false
  | Bool b => b
  | Number (Finite q) => negb (Qeq_bool q 0)
  | Number NaN => false
  | Number (Infinity _) => true
  end.

(** [ToNumber], which is also unary [+]. *)
Definition ToNumber (v : value) : number :=
  match v with
  | Undefined => NaN
  | Null => int 0
  | Bool b => if b then int 1 else int 0
  | Number n => n
  end.

(** [a < b] on numbers: false when either is NaN. *)
Definition number_lt (a b : number) : bool :=
  match a, b with
  | Finite p, Finite q => negb (Qle_bool q p)
  | Finite _, Infinity negative => negb negative
  | Infinity negative, Finite _ => negative
  | Infinity n1, Infinity n2 => n1 && negb n2
  | NaN, _ => false
  | _, NaN => false
  end.

Definition is_NaN (a : number) : bool :=
  match a with NaN => true | _ => false end.

(** The relational operators on values that are not strings: both sides
    go through [ToNumber]; [a <= b] is "not [b < a]" unless a side is
    NaN. *)
Definition lt (a b : value) : bool := number_lt (ToNumber a) (ToNumber b).
Definition gt (a b : value) : bool := number_lt (ToNumber b) (ToNumber a).
Definition le (a b : value) : bool :=
  negb (is_NaN (ToNumber a)) && negb (is_NaN (ToNumber b)) &&
  negb (number_lt (ToNumber b) (ToNumber a)).
Definition ge (a b : value) : bool :=
  negb (is_NaN (ToNumber a)) && negb (is_NaN (ToNumber b)) &&
  negb (number_lt (ToNumber a) (ToNumber b)).

(** [SameValueZero], the comparison of [Array.prototype.includes]. *)
Definition SameValueZero (x y : value) : bool :=
  match x, y with
  | Undefined, Undefined => true
  | Null, Null => true
  | Bool a, Bool b => Bool.eqb a b
  | Number (Finite p), Number (Finite q) => Qeq_bool p q
  | Number NaN, Number NaN => true
  | Number (Infinity a), Number (Infinity b) => Bool.eqb a b
  | _, _ => false
  end.

Definition includes (array : list value) (searchElement : value) : bool :=
  existsb (fun element => SameValueZero element searchElement) array.

(** [a || b] *)
Definition or_else (a b : value) : value := if ToBoolean a then a else b.

(** The integral part of a number, towards zero; 0 for NaN and the
    infinities, as in [ToUint8] and [ToUint32]. *)
Definition truncate (n : number) : Z :=
  match n with
  | Finite q => Z.quot (Qnum q) (Zpos (Qden q))
  | NaN => 0
  | Infinity _ => 0
  end.

(** ECMAScript [ToInt32] and [ToUint32] on an integral number. *)
Definition ToInt32 (x : Z) : Z := (x + 2 ^ 31) mod 2 ^ 32 - 2 ^ 31.
Definition ToUint32 (x : Z) : Z := x mod 2 ^ 32.

(** [a ^ b], [a & b] and [a | b]: both operands go through [ToInt32]; the bitwise
    combination of two int32 values (two's complement) is an int32. *)
Definition xor (a b : Z) : Z := Z.lxor (ToInt32 a) (ToInt32 b).
Definition and (a b : Z) : Z := Z.land (ToInt32 a) (ToInt32 b).
Definition or (a b : Z) : Z := Z.lor (ToInt32 a) (ToInt32 b).

(** [a >>> n]: [ToUint32 a] shifted right by [n & 31], zero filled. *)
Definition ushr (a n : Z) : Z := Z.shiftr (ToUint32 a) (n mod 32).

End JS.

(* ------------------------------------------------------------------ *)
(** ** Errors thrown by the code, and the result type               *)
(* ------------------------------------------------------------------ *)

Inductive error : Type :=
(* IEv1Protocol *)
| TooShort                        (* 'Invalid IEv1 data: too short' *)
| UnsupportedVersion (v : Z)      (* 'Unsupported protocol version: v' *)
| PayloadTruncated                (* 'Invalid IEv1 data: payload truncated' *)
| ChecksumMismatch                (* 'IEv1 checksum mismatch' *)
| InvalidPayload (opType : Z)     (* 'Invalid rotate/flip/resize/compress payload' *)
| UnknownOpType (opType : Z)      (* 'Unknown operation type: t' *)
(* Node's Buffer *)
| OutOfRange (v : JS.number)      (* RangeError ERR_OUT_OF_RANGE *)
(* RevisionService *)
| InvalidOperation                (* 'Invalid operation parameters' *)
| ImageNotFound                   (* 'Image not found' *)
| NoRevisions                     (* 'No revisions to undo' *)
| CannotUndoOriginal              (* 'Cannot undo original image' *)
| ParentNotFound                  (* 'Parent revision not found' *)
(* collaborators *)
| InvalidTextRepresentation       (* PostgreSQL 22P02: invalid input syntax for type uuid *)
| StorageError                    (* object store / file system call rejected *)
| CodecError                      (* sharp rejected the input *)
| CacheError.                     (* Redis call rejected *)

Inductive result (A : Type) : Type :=
| Ok (a : A)
| Err (e : error).
Arguments Ok {A} a.
Arguments Err {A} e.

Definition is_ok {A} (r : result A) : bool :=
match r with Ok _ => true | Err _ => false end.

Definition is_err {A} (r : result A) : bool := negb (is_ok r).

Definition rbind {A B} (r : result A) (k : A -> result B) : result B :=
match r with Ok a => k a | Err e => Err e end.

Declare Scope result_scope.
Delimit Scope result_scope with result.
Notation "x <- r ;; k" := (rbind r (fun x => k))
(at level 61, r at next level, right associativity) : result_scope.

(* ------------------------------------------------------------------ *)
(** ** Operation.ts                                                   *)
(* ------------------------------------------------------------------ *)

Module Op.
Import JS.
Local Open Scope string_scope.

(** [enum OpType { ROTATE = 1, FLIP = 2, RESIZE = 3, COMPRESS = 4 }] *)
Definition ROTATE : Z := 1.
Definition FLIP : Z := 2.
Definition RESIZE : Z := 3.
Definition COMPRESS : Z := 4.

(** The four subclasses of [Operation] with their [params].  The
    constructors store what they are given: the declared types
    ([number], [boolean], [width?: number]) are not checked at run time,
    and the routes pass the fields of the request body on. *)
Inductive Operation : Type :=
| RotateOp (degrees : value)
| FlipOp (horizontal vertical : value)
| ResizeOp (width height : value)
| CompressOp (quality : value).

Definition type (op : Operation) : Z :=
  match op with
  | RotateOp _ => ROTATE
  | FlipOp _ _ => FLIP
  | ResizeOp _ _ => RESIZE
  | CompressOp _ => COMPRESS
  end.

Definition validate (op : Operation) : bool :=
  match op with
  | RotateOp degrees =>
      includes [Number (int 90); Number (int 180); Number (int 270)] degrees
  | FlipOp horizontal vertical =>
      (typeof horizontal =? "boolean") && (typeof vertical =? "boolean")
  | ResizeOp width height =>
      if negb (ToBoolean width) && negb (ToBoolean height) then false
      else if ToBoolean width &&
              (lt width (Number (int 200)) || gt width (Number (int 4000)))
      then false
      else if ToBoolean height &&
              (lt height (Number (int 200)) || gt height (Number (int 4000)))
      then false
      else true
  | CompressOp quality =>
      ge quality (Number (int 10)) && le quality (Number (int 100))
  end.

(** *** The parameter constraints as the data model words them *)

(** A number from [lo] to [hi]. *)
Definition between (lo hi : Z) (n : number) : Prop :=
  exists q : Qc,
    n = Finite q /\ (inject_Z lo <= q)%Q /\ (q <= inject_Z hi)%Q.

Definition is_boolean (x : value) : Prop := x = Bool false \/ x = Bool true.

Definition present (x : value) : Prop := x <> Undefined.

Definition in_range (lo hi : Z) (x : value) : Prop :=
  x = Undefined \/ exists n, x = Number n /\ between lo hi n.

(** Constraints of the data model: ROTATE degrees in {90,180,270}; FLIP
    both flags in {false, true}; RESIZE at least one dimension present and
    each present one in [200, 4000]; COMPRESS quality in [10, 100]. *)
Definition constraints (op : Operation) : Prop :=
  match op with
  | RotateOp d =>
      d = Number (int 90) \/ d = Number (int 180) \/ d = Number (int 270)
  | FlipOp h v => is_boolean h /\ is_boolean v
  | ResizeOp w h =>
      (present w \/ present h) /\ in_range 200 4000 w /\ in_range 200 4000 h
  | CompressOp q => exists n, q = Number n /\ between 10 100 n
  end.

(** The same constraints when a falsy dimension ([undefined], [null],
    [false], [0], [NaN]) counts as absent, which is how [validate] reads
    [width] and [height]. *)
Definition falsy (x : value) : Prop :=
  x = Undefined \/ x = Null \/ x = Bool false \/ x = Number (int 0) \/
  x = Number NaN.

Definition given (x : value) : Prop := ~ falsy x.

Definition in_range_nz (lo hi : Z) (x : value) : Prop :=
  falsy x \/ exists n, x = Number n /\ between lo hi n.

Definition constraints_nz (op : Operation) : Prop :=
  match op with
  | RotateOp d =>
      d = Number (int 90) \/ d = Number (int 180) \/ d = Number (int 270)
  | FlipOp h v => is_boolean h /\ is_boolean v
  | ResizeOp w h =>
      (given w \/ given h) /\
      in_range_nz 200 4000 w /\ in_range_nz 200 4000 h
  | CompressOp q => exists n, q = Number n /\ between 10 100 n
  end.

End Op.

(* ------------------------------------------------------------------ *)
(** ** Node's Buffer: the calls IEv1.ts makes                         *)
(* ------------------------------------------------------------------ *)

Module Buf.

Definition Buffer : Type := list byte.

Definition u8 (b : byte) : Z := Z.of_N (Byte.to_N b).

(** [buf[offset] = z] for an integer [z]: the byte [z] modulo 256. *)
Definition byte_of_Z (z : Z) : byte :=
  match Byte.of_N (Z.to_N (z mod 256)) with
  | Some b => b
  | None => x00
  end.

Definition length (data : Buffer) : Z := Z.of_nat (List.length data).

(** [buf.writeUIntN(value, ...)] takes [+value], throws ERR_OUT_OF_RANGE
    when [value > max || value < min], and otherwise stores the bytes,
    least significant first; a store keeps the integral part of the number
    modulo 256 (0 for NaN).  The functions return the bytes written. *)
Definition checkInt (value : JS.number) (min max : Z) : result unit :=
  if JS.number_lt (JS.int max) value || JS.number_lt value (JS.int min)
  then Err (OutOfRange value)
  else Ok tt.

Definition writeUInt8 (value : JS.value) : result Buffer :=
  let value := JS.ToNumber value in
  (_ <- checkInt value 0 0xFF ;;
   Ok [byte_of_Z (JS.truncate value)])%result.

Definition writeUInt16LE (value : JS.value) : result Buffer :=
  let value := JS.ToNumber value in
  (_ <- checkInt value 0 0xFFFF ;;
   Ok [byte_of_Z (JS.truncate value);
       byte_of_Z (JS.ushr (JS.truncate value) 8)])%result.

Definition writeUInt32LE (value : JS.value) : result Buffer :=
  let value := JS.ToNumber value in
  (_ <- checkInt value 0 0xFFFFFFFF ;;
   let b0 := JS.truncate value in
   let b1 := JS.ushr b0 8 in
   let b2 := JS.ushr b1 8 in
   let b3 := JS.ushr b2 8 in
   Ok [byte_of_Z b0; byte_of_Z b1; byte_of_Z b2; byte_of_Z b3])%result.

(** [buf.readUIntN(offset)] throws ERR_OUT_OF_RANGE when the bytes are
    not all inside the buffer; what it returns is an integer. *)
Definition readUInt8 (data : Buffer) (offset : nat) : result Z :=
  match nth_error data offset with
  | Some b => Ok (u8 b)
  | None => Err (OutOfRange (JS.int (Z.of_nat offset)))
  end.

Definition readUInt16LE (data : Buffer) (offset : nat) : result Z :=
  (b0 <- readUInt8 data offset ;;
   b1 <- readUInt8 data (offset + 1) ;;
   Ok (b0 + b1 * 2 ^ 8))%result.

Definition readUInt32LE (data : Buffer) (offset : nat) : result Z :=
  (b0 <- readUInt8 data offset ;;
   b1 <- readUInt8 data (offset + 1) ;;
   b2 <- readUInt8 data (offset + 2) ;;
   b3 <- readUInt8 data (offset + 3) ;;
   Ok (b0 + b1 * 2 ^ 8 + b2 * 2 ^ 16 + b3 * 2 ^ 24))%result.

(** [buf.subarray(start, end)] for [0 <= start <= end]; both ends are
    clamped to the buffer. *)
Definition subarray (data : Buffer) (start stop : Z) : Buffer :=
  firstn (Z.to_nat (stop - start)) (skipn (Z.to_nat start) data).

End Buf.

(* ------------------------------------------------------------------ *)
(** ** IEv1.ts                                                        *)
(* ------------------------------------------------------------------ *)

Module IEv1.
Import JS Op Buf.

Definition PROTOCOL_VERSION : Z := 1.
Definition HEADER_SIZE : Z := 12.

(** One round of the inner loop:
    [crc = (crc >>> 1) ^ (0xEDB88320 & -(crc & 1))]. *)
Definition crcBit (crc : Z) : Z :=
  JS.xor (JS.ushr crc 1) (JS.and 0xEDB88320 (- (JS.and crc 1))).

(** [for (let j = 0; j < 8; j++)] *)
Fixpoint crcBits (j : nat) (crc : Z) : Z :=
  match j with
  | O => crc
  | S j' => crcBits j' (crcBit crc)
  end.

(** Body of the outer loop: [crc ^= data[i]] followed by the inner loop. *)
Definition crcByte (crc : Z) (b : byte) : Z :=
  crcBits 8 (JS.xor crc (u8 b)).

Definition calculateCRC32 (data : Buffer) : Z :=
  JS.ushr (JS.xor (fold_left crcByte data 0xFFFFFFFF) 0xFFFFFFFF) 0.

Definition encodePayload (operation : Operation) : result Buffer :=
  match operation with
  | RotateOp degrees => writeUInt8 degrees
  | FlipOp horizontal vertical =>
      let flags :=
        JS.or (if ToBoolean horizontal then 1 else 0)
              (if ToBoolean vertical then 2 else 0) in
      writeUInt8 (Number (int flags))
  | ResizeOp width height =>
      (w <- writeUInt32LE (or_else width (Number (int 0))) ;;
       h <- writeUInt32LE (or_else height (Number (int 0))) ;;
       Ok (w ++ h))%result
  | CompressOp quality => writeUInt8 quality
  end.

Definition encode (operation : Operation) : result Buffer :=
  (payload <- encodePayload operation ;;
   let checksum := calculateCRC32 payload in
   h0 <- writeUInt16LE (Number (int PROTOCOL_VERSION)) ;;
   h2 <- writeUInt16LE (Number (int (type operation))) ;;
   h4 <- writeUInt32LE (Number (int (Buf.length payload))) ;;
   h8 <- writeUInt32LE (Number (int checksum)) ;;
   Ok ((h0 ++ h2 ++ h4 ++ h8) ++ payload))%result.

Definition decodePayload (opType : Z) (payload : Buffer)
  : result Operation :=
  if opType =? ROTATE then
    if Buf.length payload <? 1 then Err (InvalidPayload opType)
    else (degrees <- readUInt8 payload 0 ;;
          Ok (RotateOp (Number (int degrees))))%result
  else if opType =? FLIP then
    if Buf.length payload <? 1 then Err (InvalidPayload opType)
    else (flags <- readUInt8 payload 0 ;;
          let horizontal := negb (JS.and flags 1 =? 0) in
          let vertical := negb (JS.and flags 2 =? 0) in
          Ok (FlipOp (Bool horizontal) (Bool vertical)))%result
  else if opType =? RESIZE then
    if Buf.length payload <? 8 then Err (InvalidPayload opType)
    else (w <- readUInt32LE payload 0 ;;
          h <- readUInt32LE payload 4 ;;
          let width := or_else (Number (int w)) Undefined in
          let height := or_else (Number (int h)) Undefined in
          Ok (ResizeOp width height))%result
  else if opType =? COMPRESS then
    if Buf.length payload <? 1 then Err (InvalidPayload opType)
    else (quality <- readUInt8 payload 0 ;;
          Ok (CompressOp (Number (int quality))))%result
  else Err (UnknownOpType opType).

Definition decode (data : Buffer) : result Operation :=
  if Buf.length data <? HEADER_SIZE then Err TooShort
  else
    (version <- readUInt16LE data 0 ;;
     if negb (version =? PROTOCOL_VERSION) then
       Err (UnsupportedVersion version)
     else
       opType <- readUInt16LE data 2 ;;
       payloadLen <- readUInt32LE data 4 ;;
       expectedChecksum <- readUInt32LE data 8 ;;
       if Buf.length data <? HEADER_SIZE + payloadLen then
         Err PayloadTruncated
       else
         let payload :=
           subarray data HEADER_SIZE (HEADER_SIZE + payloadLen) in
         let actualChecksum := calculateCRC32 payload in
         if negb (actualChecksum =? expectedChecksum) then
           Err ChecksumMismatch
         else decodePayload opType payload)%result.

End IEv1.

(* ------------------------------------------------------------------ *)
(** ** Reference definitions the protocol is compared with            *)
(* ------------------------------------------------------------------ *)

(** The standard CRC-32 in its reflected, bit-at-a-time form on unsigned
  32-bit values: polynomial 0xEDB88320, initial value 0xFFFFFFFF, final
  XOR 0xFFFFFFFF.  Written from the definition of the checksum, not from
  the code. *)
Module CRC32Std.

Definition POLY : Z := 0xEDB88320.
Definition INIT : Z := 0xFFFFFFFF.
Definition XOROUT : Z := 0xFFFFFFFF.

Definition step (c : Z) : Z :=
  if Z.testbit c 0 then Z.lxor (Z.shiftr c 1) POLY else Z.shiftr c 1.

Definition update (c b : Z) : Z := Nat.iter 8 step (Z.lxor c b).

Definition crc32 (bytes : list Z) : Z :=
  Z.lxor (fold_left update bytes INIT) XOROUT.

End CRC32Std.

(** Flipping one bit of a message: bit [j] of byte [k], and bit [i] of the
  whole buffer counted from bit 0 of byte 0. *)
Module Tamper.
Import Buf.

Definition flipByte (b : byte) (j : nat) : byte :=
  byte_of_Z (Z.lxor (u8 b) (2 ^ Z.of_nat j)).

Fixpoint flipAt (data : Buffer) (k j : nat) : Buffer :=
  match data, k with
  | [], _ => []
  | b :: rest, O => flipByte b j :: rest
  | b :: rest, S k' => b :: flipAt rest k' j
  end.

Definition flipBit (data : Buffer) (i : nat) : Buffer :=
  flipAt data (i / 8) (i mod 8).

End Tamper.

(* ------------------------------------------------------------------ *)
(** ** PostgresClient.ts, CloudStorage.ts, RedisClient.ts,
     RevisionService.ts                                             *)
(* ------------------------------------------------------------------ *)

Module ImageRecord.
Record t : Type := mk {
  id : string;
  user_id : string;
  original_path : string;
  size_bytes : Z;
  mime_type : string;
  created_at : Z;
  updated_at : Z
}.
End ImageRecord.

Module RevisionRecord.
Record t : Type := mk {
  id : string;
  image_id : string;
  parent_id : option string;        (* [string | null] *)
  op_type : Z;
  op_params : Op.Operation;         (* [operation.params] of that type *)
  storage_path : string;
  created_at : Z
}.
End RevisionRecord.
Module Svc.
Import JS Op.
Local Open Scope string_scope.

Definition bytes : Type := list byte.

Inductive BucketType : Type := raw | results | thumb.

Definition BucketType_eqb (a b : BucketType) : bool :=
  match a, b with
  | raw, raw | results, results | thumb, thumb => true
  | _, _ => false
  end.

(** An object of a Cloud Storage bucket with its [metadata.contentType]. *)
Record Object : Type := { contentType : string; body : bytes }.

(** Everything the service reads and writes. *)
Record World : Type := {
  images : list ImageRecord.t;               (* table [images] *)
  revisions : list RevisionRecord.t;         (* table [revisions], oldest insert first *)
  gcs : list (BucketType * string * Object); (* the three buckets, newest write first *)
  local_storage : list (BucketType * string * bytes);
                                             (* LOCAL_STORAGE_DIR/<dir>/<file> *)
  redis : list string;                       (* keys held by Redis *)
  statelessPathCache : list (string * string)
}.

(** What one request takes from its surroundings: the process
    environment, the codec, the identifiers and the time it is handed,
    and whether Redis answers. *)
Record Env : Type := {
  SKIP_DB_CHECK : bool;          (* process.env.SKIP_DB_CHECK === 'true' *)
  USE_LOCAL_STORAGE : bool;      (* !process.env.GCP_PROJECT_ID *)
  sharp : Operation -> bytes -> result bytes;
                                 (* sharp(src), the pipeline calls of the
                                    operation, toBuffer() *)
  uuidv4 : string;               (* uuidv4() *)
  uuid_generate_v4 : string;     (* DEFAULT of revisions.id *)
  NOW : Z;                       (* DEFAULT of revisions.created_at, new Date() *)
  redis_up : bool                (* Redis commands are fulfilled *)
}.

(** *** Promises over the world: state passing with rejection *)

Definition M (A : Type) : Type := World -> result A * World.

Definition ret {A} (a : A) : M A := fun w => (Ok a, w).
Definition throw {A} (e : error) : M A := fun w => (Err e, w).
Definition bind {A B} (m : M A) (k : A -> M B) : M B :=
  fun w =>
    match m w with
    | (Ok a, w') => k a w'
    | (Err e, w') => (Err e, w')
    end.

(** [try { m } catch (e) { h }] *)
Definition try_catch {A} (m : M A) (h : M A) : M A :=
  fun w =>
    match m w with
    | (Ok a, w') => (Ok a, w')
    | (Err _, w') => h w'
    end.

Declare Scope io_scope.
Delimit Scope io_scope with io.
Notation "x <- m ;; k" := (bind m (fun x => k))
  (at level 61, m at next level, right associativity) : io_scope.
Local Open Scope io_scope.

(** *** PostgresClient *)

Definition getImage (imageId : string) : M (option ImageRecord.t) :=
  fun w =>
    (Ok (find (fun i => ImageRecord.id i =? imageId) (images w)), w).

(** [JSON.stringify(opParams)] stored in the JSONB column and read back
    with the row: NaN and the infinities become [null]; an [undefined]
    field is left out and reads as [undefined] again. *)
Definition json (x : value) : value :=
  match x with
  | Number NaN => Null
  | Number (Infinity _) => Null
  | _ => x
  end.

Definition jsonb (opParams : Operation) : Operation :=
  match opParams with
  | RotateOp degrees => RotateOp (json degrees)
  | FlipOp horizontal vertical => FlipOp (json horizontal) (json vertical)
  | ResizeOp width height => ResizeOp (json width) (json height)
  | CompressOp quality => CompressOp (json quality)
  end.

(** [INSERT INTO revisions (...) VALUES (...) RETURNING *]; [id] and
    [created_at] take their column defaults. *)
Definition createRevision (env : Env) (imageId : string)
    (parentId : option string) (opType : Z) (opParams : Operation)
    (storagePath : string) : M RevisionRecord.t :=
  fun w =>
    let row := RevisionRecord.mk (uuid_generate_v4 env) imageId parentId
                 opType (jsonb opParams) storagePath (NOW env) in
    (Ok row,
     {| images := images w;
        revisions := revisions w ++ [row];
        gcs := gcs w;
        local_storage := local_storage w;
        redis := redis w;
        statelessPathCache := statelessPathCache w |}).

(** [ORDER BY created_at DESC LIMIT 1] over the given rows; among rows of
    equal [created_at] (their order is not fixed by the query) the one
    inserted first is taken. *)
Definition pick_latest (best : option RevisionRecord.t)
    (r : RevisionRecord.t) : option RevisionRecord.t :=
  match best with
  | None => Some r
  | Some b =>
      if (RevisionRecord.created_at b <? RevisionRecord.created_at r)%Z
      then Some r else Some b
  end.

Definition of_image (imageId : string) (r : RevisionRecord.t) : bool :=
  RevisionRecord.image_id r =? imageId.

Definition latest_row (imageId : string) (rows : list RevisionRecord.t)
  : option RevisionRecord.t :=
  fold_left pick_latest (filter (of_image imageId) rows) None.

Definition getLatestRevision (imageId : string)
  : M (option RevisionRecord.t) :=
  fun w => (Ok (latest_row imageId (revisions w)), w).

Definition getRevision (revisionId : string)
  : M (option RevisionRecord.t) :=
  fun w =>
    (Ok (find (fun r => RevisionRecord.id r =? revisionId) (revisions w)),
     w).

(** PostgreSQL's input conversion of [uuid], applied to the parameter of
    the lock query: sixteen pairs of hexadecimal digits, a hyphen allowed
    after every second pair but the last, the whole optionally in braces.
    The value is the sixteen bytes, so one uuid has several spellings. *)
Definition hex_value (c : ascii) : option Z :=
  let k := Z.of_nat (nat_of_ascii c) in
  if ((48 <=? k) && (k <=? 57))%Z then Some (k - 48)
  else if ((97 <=? k) && (k <=? 102))%Z then Some (k - 87)
  else if ((65 <=? k) && (k <=? 70))%Z then Some (k - 55)
  else None.

Fixpoint uuid_pairs (count i : nat) (src : string)
  : option (list Z * string) :=
  match count with
  | O => Some ([], src)
  | S count' =>
      match src with
      | String a (String b rest) =>
          match hex_value a, hex_value b with
          | Some x, Some y =>
              match uuid_pairs count' (S i)
                      (match rest with
                       | String "-" rest' =>
                           if Nat.odd i && (i <? 15)%nat then rest' else rest
                       | _ => rest
                       end)
              with
              | Some (data, src') => Some (16 * x + y :: data, src')
              | None => None
              end
          | _, _ => None
          end
      | _ => None
      end
  end.

Definition string_to_uuid (source : string) : option (list Z) :=
  let braces := match source with String "{" _ => true | _ => false end in
  let src := match source with String "{" rest => rest | _ => source end in
  match uuid_pairs 16 0 src with
  | Some (data, rest) =>
      if (if braces then rest =? "}" else rest =? "") then Some data
      else None
  | None => None
  end.

Definition is_uuid (source : string) : bool :=
  match string_to_uuid source with Some _ => true | None => false end.

(** [SELECT * FROM images WHERE id = $1 FOR UPDATE]: rejected with
    [invalid input syntax for type uuid] when the parameter is no uuid;
    the rows it returns are not used. *)
Definition lockImage (imageId : string) : M unit :=
  fun w =>
    if is_uuid imageId then (Ok tt, w)
    else (Err InvalidTextRepresentation, w).

(** [BEGIN; SELECT ... FOR UPDATE; callback; COMMIT], and [ROLLBACK] when
    the lock query or the callback rejects: the two tables go back to what
    they were at [BEGIN]; writes outside the database stay. *)
Definition rollback (before after : World) : World :=
  {| images := images before;
     revisions := revisions before;
     gcs := gcs after;
     local_storage := local_storage after;
     redis := redis after;
     statelessPathCache := statelessPathCache after |}.

Definition withImageLock {T} (imageId : string) (callback : M T) : M T :=
  fun w =>
    match (_ <- lockImage imageId ;; callback) w with
    | (Ok r, w') => (Ok r, w')
    | (Err e, w') => (Err e, rollback w w')
    end.

(** *** CloudStorage *)

(** [map[mimeType] || 'bin'] on an object literal: besides its three
    keys the lookup finds the members of [Object.prototype], which the
    template string of the path turns into text. *)
Definition native (name : string) : string :=
  "function " ++ name ++ "() { [native code] }".

Definition getExtension (mimeType : string) : string :=
  if mimeType =? "image/jpeg" then "jpg"
  else if mimeType =? "image/png" then "png"
  else if mimeType =? "image/webp" then "webp"
  else if mimeType =? "constructor" then native "Object"
  else if mimeType =? "__proto__" then "[object Object]"
  else if existsb (String.eqb mimeType)
            ["__defineGetter__"; "__defineSetter__"; "hasOwnProperty";
             "__lookupGetter__"; "__lookupSetter__"; "isPrototypeOf";
             "propertyIsEnumerable"; "toString"; "valueOf";
             "toLocaleString"]
  then native mimeType
  else "bin".

Definition at_key {V} (b : BucketType) (path : string)
    (e : BucketType * string * V) : bool :=
  BucketType_eqb (fst (fst e)) b && (snd (fst e) =? path).

Definition lookup {V} (b : BucketType) (path : string)
    (store : list (BucketType * string * V)) : option V :=
  option_map snd (find (at_key b path) store).

Definition download (bucketType : BucketType) (path : string) : M bytes :=
  fun w =>
    match lookup bucketType path (gcs w) with
    | Some o => (Ok (body o), w)
    | None => (Err StorageError, w)
    end.

Definition uploadResult (imageId revisionId : string) (buffer : bytes)
    (mimeType : string) : M string :=
  fun w =>
    let ext := getExtension mimeType in
    let path := imageId ++ "_" ++ revisionId ++ "." ++ ext in
    (Ok path,
     {| images := images w;
        revisions := revisions w;
        gcs := (results, path,
                {| contentType := mimeType; body := buffer |}) :: gcs w;
        local_storage := local_storage w;
        redis := redis w;
        statelessPathCache := statelessPathCache w |}).

(** *** Local files under LOCAL_STORAGE_DIR *)

Fixpoint has_slash (s : string) : bool :=
  match s with
  | EmptyString => false
  | String c rest => Ascii.eqb c "/" || has_slash rest
  end.

(** [path.basename] (POSIX): the last part of the path between slashes
    that is not empty, so slashes at the end are dropped. *)
Fixpoint has_name (s : string) : bool :=
  match s with
  | EmptyString => false
  | String c rest => negb (Ascii.eqb c "/") || has_name rest
  end.

Fixpoint later_name (s : string) : bool :=
  match s with
  | EmptyString => false
  | String c rest => if Ascii.eqb c "/" then has_name rest else later_name rest
  end.

Fixpoint first_name (s : string) : string :=
  match s with
  | EmptyString => EmptyString
  | String c rest =>
      if Ascii.eqb c "/" then EmptyString else String c (first_name rest)
  end.

Fixpoint basename (s : string) : string :=
  match s with
  | EmptyString => EmptyString
  | String c rest =>
      if Ascii.eqb c "/" then basename rest
      else if later_name rest then basename rest
      else first_name s
  end.

Definition readFile (dir : BucketType) (file : string) : M bytes :=
  fun w =>
    match lookup dir file (local_storage w) with
    | Some b => (Ok b, w)
    | None => (Err StorageError, w)
    end.

Definition writeFile (dir : BucketType) (file : string) (data : bytes)
  : M unit :=
  fun w =>
    (Ok tt,
     {| images := images w;
        revisions := revisions w;
        gcs := gcs w;
        local_storage := (dir, file, data) :: local_storage w;
        redis := redis w;
        statelessPathCache := statelessPathCache w |}).

(** *** RedisClient *)

Definition invalidateThumbnail (env : Env) (imageId : string) : M unit :=
  fun w =>
    if redis_up env then
      let key := "thumb:" ++ imageId in
      (Ok tt,
       {| images := images w;
          revisions := revisions w;
          gcs := gcs w;
          local_storage := local_storage w;
          redis := filter (fun k => negb (k =? key)) (redis w);
          statelessPathCache := statelessPathCache w |})
    else (Err CacheError, w).

(** *** RevisionService *)

(** [sharp(sourceBuffer)], [operation.toSharp(pipeline)] (which throws on
    an operation that does not validate) and [pipeline.toBuffer()]. *)
Definition toBuffer (env : Env) (operation : Operation) (src : bytes)
  : M bytes :=
  fun w =>
    if validate operation then (sharp env operation src, w)
    else (Err InvalidOperation, w).

(** [x || null] on a [string | null | undefined]: the empty string is
    falsy. *)
Definition or_null (x : option string) : option string :=
  match x with
  | Some v => if v =? "" then None else Some v
  | None => None
  end.

Definition statelessCacheSet (revisionId resultPath : string) : M unit :=
  fun w =>
    (Ok tt,
     {| images := images w;
        revisions := revisions w;
        gcs := gcs w;
        local_storage := local_storage w;
        redis := redis w;
        statelessPathCache :=
          (revisionId, resultPath) ::
          filter (fun e => negb (fst e =? revisionId))
                 (statelessPathCache w) |}).

(** The [SKIP_DB_CHECK] branch of [applyOp]. *)
Definition applyOpStateless (env : Env) (imageId : string)
    (operation : Operation) : M RevisionRecord.t :=
  let sourcePath := "demo/" ++ imageId ++ ".jpg" in
  sourceBuffer <-
    try_catch (download raw sourcePath)
      (try_catch (download raw ("demo/" ++ imageId ++ ".png"))
                 (download raw ("demo/" ++ imageId ++ ".jpg"))) ;;
  resultBuffer <- toBuffer env operation sourceBuffer ;;
  let revisionId := uuidv4 env in
  resultPath <- uploadResult imageId revisionId resultBuffer "image/jpeg" ;;
  _ <- statelessCacheSet revisionId resultPath ;;
  ret (RevisionRecord.mk revisionId imageId None (type operation)
         operation resultPath (NOW env)).

Definition sourcePathOf (parent : option RevisionRecord.t)
    (image : ImageRecord.t) : string :=
  match parent with
  | Some p => RevisionRecord.storage_path p
  | None => ImageRecord.original_path image
  end.

Definition sourceBucketOf (parent : option RevisionRecord.t) : BucketType :=
  match parent with
  | Some _ => results
  | None => raw
  end.

(** "Download source image" *)
Definition fetchSource (env : Env) (sourceBucket : BucketType)
    (sourcePath : string) : M bytes :=
  if USE_LOCAL_STORAGE env then readFile sourceBucket (basename sourcePath)
  else download sourceBucket sourcePath.

(** "Generate revision ID and storage path" and the write of the result *)
Definition storeResult (env : Env) (image : ImageRecord.t)
    (imageId revisionId : string) (resultBuffer : bytes) : M string :=
  if USE_LOCAL_STORAGE env then
    let ext :=
      if ImageRecord.mime_type image =? "image/jpeg" then "jpg" else "png" in
    let resultPath := "local/" ++ imageId ++ "_" ++ revisionId ++ "." ++ ext in
    _ <- writeFile results (imageId ++ "_" ++ revisionId ++ "." ++ ext)
           resultBuffer ;;
    ret resultPath
  else
    uploadResult imageId revisionId resultBuffer
      (ImageRecord.mime_type image).

(** The callback [applyOp] hands to [withImageLock]. *)
Definition applyOpLocked (env : Env) (imageId : string)
    (operation : Operation) : M RevisionRecord.t :=
  image <- getImage imageId ;;
  match image with
  | None => throw ImageNotFound
  | Some image =>
      parent <- getLatestRevision imageId ;;
      let sourcePath := sourcePathOf parent image in
      let sourceBucket := sourceBucketOf parent in
      sourceBuffer <- fetchSource env sourceBucket sourcePath ;;
      resultBuffer <- toBuffer env operation sourceBuffer ;;
      let revisionId := uuidv4 env in
      resultPath <- storeResult env image imageId revisionId resultBuffer ;;
      revision <-
        createRevision env imageId
          (or_null (option_map RevisionRecord.id parent))
          (type operation) operation resultPath ;;
      _ <- invalidateThumbnail env imageId ;;
      ret revision
  end.

Definition applyOp (env : Env) (imageId : string) (operation : Operation)
  : M RevisionRecord.t :=
  if negb (validate operation) then throw InvalidOperation
  else if SKIP_DB_CHECK env then applyOpStateless env imageId operation
  else withImageLock imageId (applyOpLocked env imageId operation).

Definition undo (env : Env) (imageId : string) : M RevisionRecord.t :=
  current <- getLatestRevision imageId ;;
  match current with
  | None => throw NoRevisions
  | Some current =>
      match or_null (RevisionRecord.parent_id current) with
      | None => throw CannotUndoOriginal
      | Some parentId =>
          parent <- getRevision parentId ;;
          match parent with
          | None => throw ParentNotFound
          | Some parent =>
              _ <- invalidateThumbnail env imageId ;;
              ret parent
          end
      end
  end.

Definition getLatest (env : Env) (imageId : string)
  : M (option RevisionRecord.t) :=
  if SKIP_DB_CHECK env then ret None else getLatestRevision imageId.

End Svc.
(** Vocabulary for statements about the wire format. *)
Module Wire.
Import JS Op Buf IEv1.

(** The 32-bit words. *)
Definition word32 (c : Z) : Prop := 0 <= c < 2 ^ 32.

(** Two and four bytes read least significant first. *)
Definition le16 (a b : byte) : Z := u8 a + u8 b * 2 ^ 8.
Definition le32 (a b c d : byte) : Z :=
  u8 a + u8 b * 2 ^ 8 + u8 c * 2 ^ 16 + u8 d * 2 ^ 24.

(** The twelve header bytes [encode] writes for a type, a payload length
    and a checksum. *)
Definition header (t n c : Z) : Buffer :=
  [byte_of_Z PROTOCOL_VERSION; byte_of_Z (Z.shiftr PROTOCOL_VERSION 8);
   byte_of_Z t; byte_of_Z (Z.shiftr t 8);
   byte_of_Z n; byte_of_Z (Z.shiftr n 8);
   byte_of_Z (Z.shiftr n 16); byte_of_Z (Z.shiftr n 24);
   byte_of_Z c; byte_of_Z (Z.shiftr c 8);
   byte_of_Z (Z.shiftr c 16); byte_of_Z (Z.shiftr c 24)].

(** Payload bytes [decodePayload] needs for an operation type. *)
Definition payloadSize (t : Z) : Z := if t =? RESIZE then 8 else 1.

(** The integer that stands on the wire for a parameter: the integral part
    of its number, 0 for NaN. *)
Definition written (x : value) : Z := truncate (ToNumber x).

(** The dimension read back from a 32-bit field: zero means absent. *)
Definition dimension (z : Z) : value :=
  if z =? 0 then Undefined else Number (int z).

(** What the wire keeps of an operation: numbers lose their fraction,
    flags become their truth value, and a dimension that is falsy or
    below 1 becomes [undefined]. *)
Definition normalize (op : Operation) : Operation :=
  match op with
  | RotateOp degrees => RotateOp (Number (int (written degrees)))
  | FlipOp horizontal vertical =>
      FlipOp (Bool (ToBoolean horizontal)) (Bool (ToBoolean vertical))
  | ResizeOp width height =>
      ResizeOp (dimension (written (or_else width (Number (int 0)))))
               (dimension (written (or_else height (Number (int 0)))))
  | CompressOp quality => CompressOp (Number (int (written quality)))
  end.

(** A parameter is NaN or lies in the range of its field; [encodePayload]
    writes degrees and quality to one unsigned byte and [width || 0],
    [height || 0] to an unsigned 32-bit word. *)
Definition fits_field (max : Z) (x : value) : Prop :=
  ToNumber x = NaN \/ between 0 max (ToNumber x).

Definition fits (op : Operation) : Prop :=
  match op with
  | RotateOp degrees => fits_field 0xFF degrees
  | FlipOp _ _ => True
  | ResizeOp width height =>
      fits_field 0xFFFFFFFF (or_else width (Number (int 0))) /\
      fits_field 0xFFFFFFFF (or_else height (Number (int 0)))
  | CompressOp quality => fits_field 0xFF quality
  end.

(** The numeric parameters are integers. *)
Definition is_integer (x : value) : Prop := exists z, x = Number (int z).

Definition integral (op : Operation) : Prop :=
  match op with
  | RotateOp degrees => is_integer degrees
  | FlipOp _ _ => True
  | ResizeOp width height =>
      (width = Undefined \/ is_integer width) /\
      (height = Undefined \/ is_integer height)
  | CompressOp quality => is_integer quality
  end.

(** The checks of [decode] before it looks at the payload: at least twelve
    bytes, version 1, the declared payload inside the buffer, and a matching
    checksum. *)
Definition passesHeaderChecks (data : Buffer) (opType : Z) (payload : Buffer)
  : Prop :=
  HEADER_SIZE <= Buf.length data /\
  readUInt16LE data 0 = Ok PROTOCOL_VERSION /\
  readUInt16LE data 2 = Ok opType /\
  exists payloadLen,
    readUInt32LE data 4 = Ok payloadLen /\
    HEADER_SIZE + payloadLen <= Buf.length data /\
    payload = subarray data HEADER_SIZE (HEADER_SIZE + payloadLen) /\
    readUInt32LE data 8 = Ok (calculateCRC32 payload).

(** The number 10.5. *)
Definition ten_and_a_half : value := Number (Finite (Q2Qc (21 # 2))).

(** Some encoded messages, byte by byte. *)
Definition msg_resize_800 : Buffer :=
  [x01; x00; x03; x00; x08; x00; x00; x00; xa2; xa7; xbc; xad;
   x20; x03; x00; x00; x00; x00; x00; x00].

Definition msg_rotate_90 : Buffer :=
  [x01; x00; x01; x00; x01; x00; x00; x00; x67; x57; xbc; x59; x5a].

Definition msg_rotate_45 : Buffer :=
  [x01; x00; x01; x00; x01; x00; x00; x00; xf8; xb3; xdd; x97; x2d].

Definition msg_compress_5 : Buffer :=
  [x01; x00; x04; x00; x01; x00; x00; x00; x02; x1b; x68; xa2; x05].

Definition msg_compress_10 : Buffer :=
  [x01; x00; x04; x00; x01; x00; x00; x00; x93; x06; xd7; x32; x0a].

Definition msg_resize_5 : Buffer :=
  [x01; x00; x03; x00; x08; x00; x00; x00; x0d; xd1; xc2; x2d;
   x05; x00; x00; x00; x00; x00; x00; x00].

(** The ASCII digits 1 to 9, the usual test input of a CRC. *)
Definition check_input : Buffer :=
  [x31; x32; x33; x34; x35; x36; x37; x38; x39].

End Wire.
(** Vocabulary for statements about the revision service, and a small
    database to run it on. *)
Module Scenario.
Import JS Op Svc.
Local Open Scope string_scope.
Local Open Scope io_scope.

(** Bytes held at a location of the object store: the body of a bucket
    object, or in local mode the file of that name in the bucket's
    directory. *)
Definition stored (env : Env) (b : BucketType) (path : string) (w : World)
  : option bytes :=
  if USE_LOCAL_STORAGE env then lookup b (basename path) (local_storage w)
  else option_map body (lookup b path (gcs w)).

(** The same surroundings with Redis answering or not. *)
Definition with_redis (env : Env) (up : bool) : Env :=
  {| SKIP_DB_CHECK := SKIP_DB_CHECK env;
     USE_LOCAL_STORAGE := USE_LOCAL_STORAGE env;
     sharp := sharp env;
     uuidv4 := uuidv4 env;
     uuid_generate_v4 := uuid_generate_v4 env;
     NOW := NOW env;
     redis_up := up |}.

(** Every row of [revisions] has a non-empty [id], as the column default
    [uuid_generate_v4()] gives. *)
Definition ids_nonempty (w : World) : Prop :=
  forall x, In x (revisions w) -> RevisionRecord.id x <> "".

(** A codec that hands its input back. *)
Definition echo (_ : Operation) (src : bytes) : result bytes := Ok src.

Definition cloud : Env :=
  {| SKIP_DB_CHECK := false;
     USE_LOCAL_STORAGE := false;
     sharp := echo;
     uuidv4 := "a3";
     uuid_generate_v4 := "r3";
     NOW := 30;
     redis_up := true |}.

(** The id of an image. *)
Definition i1 : string := "11111111-1111-4111-8111-111111111111".

Definition png : ImageRecord.t :=
  ImageRecord.mk i1 "u1" ("u1/" ++ i1 ++ ".png") 3 "image/png" 1 1.

Definition pixels : bytes := [x89; x50; x4e].

Definition rev1 : RevisionRecord.t :=
  RevisionRecord.mk "r1" i1 None 1 (RotateOp (Number (int 90))) (i1 ++ "_a1.png") 10.

Definition rev2 : RevisionRecord.t :=
  RevisionRecord.mk "r2" i1 (Some "r1") 2 (FlipOp (Bool true) (Bool false))
    (i1 ++ "_a2.png") 20.

(** An uploaded PNG with no revision yet. *)
Definition uploaded : World :=
  {| images := [png];
     revisions := [];
     gcs := [(raw, ("u1/" ++ i1 ++ ".png"),
              {| contentType := "image/png"; body := pixels |})];
     local_storage := [];
     redis := [("thumb:" ++ i1)];
     statelessPathCache := [] |}.

(** The same image after a rotation and a flip. *)
Definition edited : World :=
  {| images := [png];
     revisions := [rev1; rev2];
     gcs := [(results, (i1 ++ "_a2.png"),
              {| contentType := "image/png"; body := pixels |});
             (results, (i1 ++ "_a1.png"),
              {| contentType := "image/png"; body := pixels |});
             (raw, ("u1/" ++ i1 ++ ".png"),
              {| contentType := "image/png"; body := pixels |})];
     local_storage := [];
     redis := [("thumb:" ++ i1)];
     statelessPathCache := [] |}.

(** The steps of [applyOp] inside the transaction up to and including the
    insertion of the revision row, that is the lock query and the callback
    without the invalidation of the thumbnail. *)
Definition applyOpUpToInsert (env : Env) (imageId : string)
    (operation : Operation) : M RevisionRecord.t :=
  _ <- lockImage imageId ;;
  image <- getImage imageId ;;
  match image with
  | None => throw ImageNotFound
  | Some image =>
      parent <- getLatestRevision imageId ;;
      let sourcePath := sourcePathOf parent image in
      let sourceBucket := sourceBucketOf parent in
      sourceBuffer <- fetchSource env sourceBucket sourcePath ;;
      resultBuffer <- toBuffer env operation sourceBuffer ;;
      let revisionId := uuidv4 env in
      resultPath <- storeResult env image imageId revisionId resultBuffer ;;
      createRevision env imageId
        (or_null (option_map RevisionRecord.id parent))
        (type operation) operation resultPath
  end.

(** Three runs on the small database. *)
Definition compress_png : result RevisionRecord.t * World :=
  applyOp cloud i1 (CompressOp (Number (int 50))) uploaded.

Definition rotate_redis_down : result RevisionRecord.t * World :=
  applyOp (with_redis cloud false) i1 (RotateOp (Number (int 90))) uploaded.

Definition undone : result RevisionRecord.t * World := undo cloud i1 edited.

End Scenario.
(* ------------------------------------------------------------------ *)
(** ** Further functions of PostgresClient.ts, CloudStorage.ts,
       RevisionService.ts and ImageService.ts                         *)
(* ------------------------------------------------------------------ *)

(** Updates of one part of the world. *)
Module WorldOps.
Import Svc.

Definition set_tables (w : World) (imgs : list ImageRecord.t)
    (revs : list RevisionRecord.t) : World :=
  {| images := imgs;
     revisions := revs;
     gcs := gcs w;
     local_storage := local_storage w;
     redis := redis w;
     statelessPathCache := statelessPathCache w |}.

Definition set_gcs (w : World) (g : list (BucketType * string * Object))
  : World :=
  {| images := images w;
     revisions := revisions w;
     gcs := g;
     local_storage := local_storage w;
     redis := redis w;
     statelessPathCache := statelessPathCache w |}.

Definition set_local_storage (w : World)
    (l : list (BucketType * string * bytes)) : World :=
  {| images := images w;
     revisions := revisions w;
     gcs := gcs w;
     local_storage := l;
     redis := redis w;
     statelessPathCache := statelessPathCache w |}.

End WorldOps.

Module PostgresClient.
Import Svc WorldOps.
Local Open Scope string_scope.

(** [ORDER BY created_at ASC]: a row goes before the first row that is
    strictly later, so rows of equal [created_at] stay in insertion
    order (the query leaves their order open). *)
Fixpoint insert_asc (r : RevisionRecord.t) (sorted : list RevisionRecord.t)
  : list RevisionRecord.t :=
  match sorted with
  | [] => [r]
  | x :: rest =>
      if (RevisionRecord.created_at r <? RevisionRecord.created_at x)%Z
      then r :: sorted
      else x :: insert_asc r rest
  end.

Definition order_asc (rows : list RevisionRecord.t) : list RevisionRecord.t :=
  fold_left (fun sorted r => insert_asc r sorted) rows [].

Definition getRevisionHistory (imageId : string)
  : M (list RevisionRecord.t) :=
  fun w => (Ok (order_asc (filter (of_image imageId) (revisions w))), w).

(** [parent_id UUID REFERENCES revisions(id) ON DELETE SET NULL] for the
    rows whose parent is one of the deleted ids. *)
Definition set_null (gone : list string) (r : RevisionRecord.t)
  : RevisionRecord.t :=
  match RevisionRecord.parent_id r with
  | Some p =>
      if existsb (String.eqb p) gone then
        RevisionRecord.mk (RevisionRecord.id r) (RevisionRecord.image_id r)
          None (RevisionRecord.op_type r) (RevisionRecord.op_params r)
          (RevisionRecord.storage_path r) (RevisionRecord.created_at r)
      else r
  | None => r
  end.

(** [DELETE FROM images WHERE id = $1]; the revisions of a deleted image go
    with it ([ON DELETE CASCADE]). *)
Definition deleteImage (imageId : string) : M unit :=
  fun w =>
    if existsb (fun i => ImageRecord.id i =? imageId) (images w) then
      let gone :=
        map RevisionRecord.id (filter (of_image imageId) (revisions w)) in
      (Ok tt,
       set_tables w
         (filter (fun i => negb (ImageRecord.id i =? imageId)) (images w))
         (map (set_null gone)
            (filter (fun r => negb (of_image imageId r)) (revisions w))))
    else (Ok tt, w).

End PostgresClient.

Module CloudStorage.
Import Svc WorldOps.
Local Open Scope string_scope.

(** [getSignedUrl]: a read URL for one object, valid for the given number
    of minutes; the local endpoints are paths of this server. *)
Inductive Url : Type :=
| SignedUrl (bucketType : BucketType) (path : string) (expiresInMinutes : Z)
| Endpoint (path : string).

Definition getSignedUrl (bucketType : BucketType) (path : string) : Url :=
  SignedUrl bucketType path 60.

(** [file.delete({ ignoreNotFound: true })] *)
Definition delete (bucketType : BucketType) (path : string) : M unit :=
  fun w =>
    (Ok tt,
     set_gcs w (filter (fun e => negb (at_key bucketType path e)) (gcs w))).

(** [getFiles({ prefix: imageId })] on the results bucket *)
Definition in_results_with_prefix (imageId : string)
    (e : BucketType * string * Object) : bool :=
  BucketType_eqb (fst (fst e)) results && String.prefix imageId (snd (fst e)).

Definition deleteAllForImage (imageId : string) : M unit :=
  fun w =>
    delete thumb (imageId ++ ".webp")
      (set_gcs w
         (filter (fun e => negb (in_results_with_prefix imageId e)) (gcs w))).

Definition exists_ (bucketType : BucketType) (path : string) : M bool :=
  fun w =>
    (Ok (match lookup bucketType path (gcs w) with
         | Some _ => true
         | None => false
         end), w).

End CloudStorage.

(** Rejections of the two [getDownloadUrl] whose messages are not among
    [error]. *)
Inductive thrown : Type :=
| Known (e : error)
| RevisionNotFound               (* 'Revision not found' *)
| RevisionPathNotCached.         (* 'Revision path not found in cache (stateless mode)' *)

Inductive outcome (A : Type) : Type :=
| Returned (a : A)
| Thrown (t : thrown).
Arguments Returned {A} a.
Arguments Thrown {A} t.

Module RevisionService.
Import Svc CloudStorage.
Local Open Scope string_scope.

Definition getHistory (imageId : string) : M (list RevisionRecord.t) :=
  PostgresClient.getRevisionHistory imageId.

Definition getRevision (env : Env) (revisionId : string)
  : M (option RevisionRecord.t) :=
  if SKIP_DB_CHECK env then ret None else Svc.getRevision revisionId.

(** [getDownloadUrl] reads the world and leaves it as it is. *)
Definition getDownloadUrl (env : Env) (revisionId : string) (w : World)
  : outcome Url :=
  if SKIP_DB_CHECK env then
    match find (fun e => fst e =? revisionId) (statelessPathCache w) with
    | Some (_, path) =>
        if path =? "" then Thrown RevisionPathNotCached
        else Returned (getSignedUrl results path)
    | None => Thrown RevisionPathNotCached
    end
  else
    match find (fun r => RevisionRecord.id r =? revisionId) (revisions w) with
    | None => Thrown RevisionNotFound
    | Some revision =>
        if USE_LOCAL_STORAGE env then
          Returned (Endpoint ("/api/v1/revisions/" ++ revisionId ++ "/download"))
        else
          Returned (getSignedUrl results (RevisionRecord.storage_path revision))
    end.

End RevisionService.

Module ImageService.
Import Svc WorldOps CloudStorage.
Local Open Scope string_scope.
Local Open Scope io_scope.

Definition getMetadata (env : Env) (imageId : string)
  : M (option ImageRecord.t) :=
  if SKIP_DB_CHECK env then
    ret (Some (ImageRecord.mk imageId "demo-user" (imageId ++ ".jpg") 0
                 "image/jpeg" (NOW env) (NOW env)))
  else getImage imageId.

(** [fs.unlink(path).catch(() => { })] of the file [file] of the directory
    [dir]; [file] is a name without a slash. *)
Definition unlink (dir : BucketType) (file : string) : M unit :=
  fun w =>
    (Ok tt,
     set_local_storage w
       (filter (fun e => negb (at_key dir file e)) (local_storage w))).

Definition delete (env : Env) (imageId : string) : M unit :=
  image <- getImage imageId ;;
  match image with
  | None => throw ImageNotFound
  | Some image =>
      _ <- (if USE_LOCAL_STORAGE env then
              _ <- unlink raw (basename (ImageRecord.original_path image)) ;;
              unlink thumb (imageId ++ ".webp")
            else
              _ <- deleteAllForImage imageId ;;
              CloudStorage.delete raw (ImageRecord.original_path image)) ;;
      _ <- invalidateThumbnail env imageId ;;
      PostgresClient.deleteImage imageId
  end.

(** [revisionId ? ... : ...] on a [string | undefined] *)
Definition given_id (revisionId : option string) : option string :=
  or_null revisionId.

Definition getDownloadUrl (env : Env) (imageId : string)
    (revisionId : option string) (w : World) : outcome (Url * string) :=
  match find (fun i => ImageRecord.id i =? imageId) (images w) with
  | None => Thrown (Known ImageNotFound)
  | Some image =>
      let located : outcome (BucketType * string) :=
        match given_id revisionId with
        | Some rid =>
            match find (fun r => RevisionRecord.id r =? rid) (revisions w) with
            | None => Thrown RevisionNotFound
            | Some revision =>
                if negb (RevisionRecord.image_id revision =? imageId)
                then Thrown RevisionNotFound
                else Returned (results, RevisionRecord.storage_path revision)
            end
        | None => Returned (raw, ImageRecord.original_path image)
        end in
      match located with
      | Thrown t => Thrown t
      | Returned (bucketType, path) =>
          if USE_LOCAL_STORAGE env then
            Returned
              (Endpoint ("/api/v1/images/" ++ imageId ++ "/download" ++
                         match given_id revisionId with
                         | Some rid => "?revision=" ++ rid
                         | None => ""
                         end),
               ImageRecord.mime_type image)
          else
            Returned (getSignedUrl bucketType path,
                      ImageRecord.mime_type image)
      end
  end.

End ImageService.

(** Vocabulary for statements about the services. *)
Module SvcVocab.
Import Svc.
Local Open Scope string_scope.

(** Every [parent_id] names a revision row of the same image. *)
Definition parents_linked (w : World) : Prop :=
  forall r, In r (revisions w) ->
  forall pid, RevisionRecord.parent_id r = Some pid ->
  exists p, In p (revisions w) /\ RevisionRecord.id p = pid /\
            RevisionRecord.image_id p = RevisionRecord.image_id r.

(** The request comes after every revision of the image: its time is later
    than their [created_at]. *)
Definition later_than_revisions (env : Env) (imageId : string) (w : World)
  : Prop :=
  forall x, In x (revisions w) -> RevisionRecord.image_id x = imageId ->
            (RevisionRecord.created_at x < NOW env)%Z.

(** In local mode the names that make up a file name hold no slash. *)
Definition plain_names (env : Env) (imageId : string) : Prop :=
  USE_LOCAL_STORAGE env = true ->
  has_slash imageId = false /\ has_slash (uuidv4 env) = false.

End SvcVocab.
(** More surroundings and databases to run the services on. *)
Module ScenarioMore.
Import JS Op Svc Scenario.
Local Open Scope string_scope.

(** The request after [cloud]. *)
Definition cloud_next : Env :=
  {| SKIP_DB_CHECK := false;
     USE_LOCAL_STORAGE := false;
     sharp := echo;
     uuidv4 := "a4";
     uuid_generate_v4 := "r4";
     NOW := 40;
     redis_up := true |}.

(** The stateless mode of deployment. *)
Definition stateless : Env :=
  {| SKIP_DB_CHECK := true;
     USE_LOCAL_STORAGE := false;
     sharp := echo;
     uuidv4 := "a5";
     uuid_generate_v4 := "r5";
     NOW := 50;
     redis_up := false |}.

Definition rev3 : RevisionRecord.t :=
  RevisionRecord.mk "r3" i1 (Some "r2") 1 (RotateOp (Number (int 180))) (i1 ++ "_a3.png") 30.

Definition rev4 : RevisionRecord.t :=
  RevisionRecord.mk "r4" i1 (Some "r3") 2 (FlipOp (Bool false) (Bool true))
    (i1 ++ "_a4.png") 40.

(** A demo image of the stateless mode. *)
Definition demo : World :=
  {| images := [];
     revisions := [];
     gcs := [(raw, "demo/i7.png",
              {| contentType := "image/png"; body := pixels |})];
     local_storage := [];
     redis := [];
     statelessPathCache := [] |}.

(** An id that starts with the id [i1], and the id of no image. *)
Definition i12 : string := i1 ++ "2".
Definition i9 : string := "99999999-9999-4999-8999-999999999999".

Definition jpg : ImageRecord.t :=
  ImageRecord.mk i12 "u1" ("u1/" ++ i12 ++ ".jpg") 3 "image/jpeg" 2 2.

Definition rev9 : RevisionRecord.t :=
  RevisionRecord.mk "r9" i12 None 4 (CompressOp (Number (int 80))) (i12 ++ "_a9.jpg") 25.

(** Two images of one user; the id of the first is a prefix of the id of
    the second. *)
Definition shared : World :=
  {| images := [png; jpg];
     revisions := [rev1; rev2; rev9];
     gcs := [(results, (i12 ++ "_a9.jpg"),
              {| contentType := "image/jpeg"; body := pixels |});
             (results, (i1 ++ "_a2.png"),
              {| contentType := "image/png"; body := pixels |});
             (results, (i1 ++ "_a1.png"),
              {| contentType := "image/png"; body := pixels |});
             (thumb, (i1 ++ ".webp"),
              {| contentType := "image/webp"; body := pixels |});
             (raw, ("u1/" ++ i12 ++ ".jpg"),
              {| contentType := "image/jpeg"; body := pixels |});
             (raw, ("u1/" ++ i1 ++ ".png"),
              {| contentType := "image/png"; body := pixels |})];
     local_storage := [];
     redis := [("thumb:" ++ i1); ("thumb:" ++ i12)];
     statelessPathCache := [] |}.

(** The development setup that keeps the files on the local disk. *)
Definition local : Env :=
  {| SKIP_DB_CHECK := false;
     USE_LOCAL_STORAGE := true;
     sharp := echo;
     uuidv4 := "a3";
     uuid_generate_v4 := "r3";
     NOW := 30;
     redis_up := true |}.

Definition on_disk : World :=
  {| images := [png];
     revisions := [rev1];
     gcs := [];
     local_storage := [(results, (i1 ++ "_a1.png"), pixels);
                       (thumb, (i1 ++ ".webp"), pixels);
                       (raw, (i1 ++ ".png"), pixels)];
     redis := [("thumb:" ++ i1)];
     statelessPathCache := [] |}.

End ScenarioMore.

(* ================================================================== *)
(** * Properties                                                      *)
(* ================================================================== *)

Module BufFacts.
Import Buf.

Lemma u8_range (b : byte) : 0 <= u8 b < 256.
Proof.
  unfold u8. pose proof (Byte.to_N_bounded b). lia.
Qed.

Lemma u8_byte_of_Z (z : Z) : u8 (byte_of_Z z) = z mod 256.
Proof.
  unfold u8, byte_of_Z.
  assert (Hr : 0 <= z mod 256 < 256) by (apply Z.mod_pos_bound; lia).
  destruct (Byte.of_N (Z.to_N (z mod 256))) as [b|] eqn:E.
  - apply Byte.to_of_N in E. rewrite E. lia.
  - apply Byte.of_N_None_iff in E. lia.
Qed.

Lemma byte_of_Z_u8 (b : byte) : byte_of_Z (u8 b) = b.
Proof.
  unfold byte_of_Z. rewrite Z.mod_small by apply u8_range.
  unfold u8. rewrite N2Z.id, Byte.of_to_N. reflexivity.
Qed.

Lemma u8_inj (a b : byte) : u8 a = u8 b -> a = b.
Proof.
  intros H. rewrite <- (byte_of_Z_u8 a), <- (byte_of_Z_u8 b), H.
  reflexivity.
Qed.

End BufFacts.

Module JSFacts.
Import JS Op.

Lemma ToUint32_range x : 0 <= ToUint32 x < 2 ^ 32.
Proof. unfold ToUint32. apply Z.mod_pos_bound. lia. Qed.

Lemma ToUint32_small x : 0 <= x < 2 ^ 32 -> ToUint32 x = x.
Proof. unfold ToUint32. intros. apply Z.mod_small. lia. Qed.

Lemma ToUint32_ToInt32 x : ToUint32 (ToInt32 x) = ToUint32 x.
Proof.
  unfold ToUint32, ToInt32.
  rewrite <- Zminus_mod_idemp_l, Z.mod_mod by lia.
  rewrite Zminus_mod_idemp_l. f_equal. lia.
Qed.

Lemma ToUint32_lxor a b :
  ToUint32 (Z.lxor a b) = Z.lxor (ToUint32 a) (ToUint32 b).
Proof.
  unfold ToUint32. apply Z.bits_inj'. intros n Hn.
  rewrite Z.lxor_spec, !Z.testbit_mod_pow2, Z.lxor_spec by lia.
  destruct (n <? 32); simpl; [reflexivity|].
  reflexivity.
Qed.

Lemma ToUint32_xor a b : ToUint32 (xor a b) = Z.lxor (ToUint32 a) (ToUint32 b).
Proof. unfold xor. rewrite ToUint32_lxor, !ToUint32_ToInt32. reflexivity. Qed.

Lemma testbit0_ToInt32 x : Z.testbit (ToInt32 x) 0 = Z.testbit x 0.
Proof.
  rewrite <- (Z.mod_pow2_bits_low (ToInt32 x) 32 0) by lia.
  rewrite <- (Z.mod_pow2_bits_low x 32 0) by lia.
  change (Z.testbit (ToUint32 (ToInt32 x)) 0 = Z.testbit (ToUint32 x) 0).
  rewrite ToUint32_ToInt32. reflexivity.
Qed.

Lemma and_1 c : and c 1 = Z.b2z (Z.testbit c 0).
Proof.
  unfold and. change (ToInt32 1) with (Z.ones 1).
  rewrite Z.land_ones by lia. change (2 ^ 1) with 2.
  rewrite <- Z.bit0_mod, testbit0_ToInt32. reflexivity.
Qed.

(** *** Numbers *)

Lemma this_int z : this (Q2Qc (inject_Z z)) = inject_Z z.
Proof.
  cbn [Q2Qc this]. apply Qred_identity. cbn. apply Z.gcd_1_r.
Qed.

Lemma Qle_bool_inject a b : Qle_bool (inject_Z a) (inject_Z b) = (a <=? b).
Proof. unfold Qle_bool, inject_Z. cbn. rewrite !Z.mul_1_r. reflexivity. Qed.

Lemma number_lt_int a b : number_lt (int a) (int b) = (a <? b).
Proof.
  unfold number_lt, int. rewrite !this_int, Qle_bool_inject.
  destruct (Z.leb_spec b a), (Z.ltb_spec a b); try reflexivity; lia.
Qed.

Lemma truncate_int z : truncate (int z) = z.
Proof. unfold truncate, int. rewrite this_int. cbn. apply Z.quot_1_r. Qed.

Lemma int_inj a b : int a = int b -> a = b.
Proof.
  intros H. apply (f_equal truncate) in H. rewrite !truncate_int in H.
  exact H.
Qed.

Lemma Number_int_inj a b : Number (int a) = Number (int b) -> a = b.
Proof.
  intros H. apply (f_equal ToNumber) in H. cbn [ToNumber] in H.
  apply int_inj, H.
Qed.

Lemma ToBoolean_int z : ToBoolean (Number (int z)) = negb (z =? 0).
Proof.
  unfold ToBoolean, int. rewrite this_int. destruct z; reflexivity.
Qed.

Lemma Finite_eq (p q : Qc) : (p == q)%Q -> Finite p = Finite q.
Proof. intros H. f_equal. apply Qc_is_canon, H. Qed.

Lemma SameValueZero_number x n :
  n <> NaN -> SameValueZero (Number n) x = true <-> x = Number n.
Proof.
  intros Hn. split.
  - destruct n as [p| |a], x as [| |b|[q| |b]]; cbn; try discriminate;
      try contradiction.
    + intros H. apply Qeq_bool_eq in H. f_equal. symmetry.
      apply Finite_eq, H.
    + intros H. apply Bool.eqb_prop in H. subst. reflexivity.
  - intros ->. destruct n as [p| |a]; cbn; [|contradiction|].
    + apply Qeq_bool_refl.
    + apply Bool.eqb_reflx.
Qed.

Lemma int_not_NaN z : int z <> NaN.
Proof. discriminate. Qed.

(** The order of the numbers against integers. *)
Lemma number_lt_Finite_int (q : Qc) z :
  number_lt (Finite q) (int z) = true <-> (q < inject_Z z)%Q.
Proof.
  unfold number_lt, int. rewrite this_int, negb_true_iff.
  rewrite <- not_true_iff_false, Qle_bool_iff. split.
  - apply Qnot_le_lt.
  - apply Qlt_not_le.
Qed.

Lemma number_lt_int_Finite (q : Qc) z :
  number_lt (int z) (Finite q) = true <-> (inject_Z z < q)%Q.
Proof.
  unfold number_lt, int. rewrite this_int, negb_true_iff.
  rewrite <- not_true_iff_false, Qle_bool_iff. split.
  - apply Qnot_le_lt.
  - apply Qlt_not_le.
Qed.

Lemma between_iff lo hi n :
  between lo hi n <->
  is_NaN n = false /\ number_lt n (int lo) = false /\
  number_lt (int hi) n = false.
Proof.
  split.
  - intros (q & -> & Hlo & Hhi). split; [reflexivity|]. split.
    + apply not_true_iff_false. rewrite number_lt_Finite_int.
      apply Qle_not_lt, Hlo.
    + apply not_true_iff_false. rewrite number_lt_int_Finite.
      apply Qle_not_lt, Hhi.
  - destruct n as [q| |[|]]; intros (Hn & Hlo & Hhi); try discriminate.
    exists q. split; [reflexivity|].
    apply not_true_iff_false in Hlo, Hhi.
    rewrite number_lt_Finite_int in Hlo. rewrite number_lt_int_Finite in Hhi.
    split; apply Qnot_lt_le; assumption.
Qed.

Lemma between_int lo hi z : between lo hi (int z) <-> lo <= z <= hi.
Proof.
  rewrite between_iff, !number_lt_int. cbn [is_NaN int].
  destruct (Z.ltb_spec z lo), (Z.ltb_spec hi z); split;
    intros Hb; try lia; try (destruct Hb as (_ & ? & ?); discriminate);
    auto.
Qed.

(** The integral part of a number of a range lies in the range. *)
Lemma truncate_between lo hi n :
  0 <= lo -> between lo hi n -> 0 <= truncate n <= hi.
Proof.
  intros H0 (q & -> & Hlo & Hhi). unfold truncate.
  destruct q as [[a d] Hc]. cbn [this Qnum Qden] in *.
  unfold Qle, inject_Z in Hlo, Hhi. cbn in Hlo, Hhi.
  assert (Ha : 0 <= a) by nia.
  rewrite Z.quot_div_nonneg by lia. split.
  - apply Z.div_pos; lia.
  - apply Z.div_le_upper_bound; lia.
Qed.

Lemma is_integer_between lo hi x :
  (exists z, x = Number (int z)) ->
  (exists n, x = Number n /\ between lo hi n) ->
  exists z, x = Number (int z) /\ lo <= z <= hi.
Proof.
  intros [z ->] (n & [= <-] & H). exists z. split; [reflexivity|].
  apply between_int, H.
Qed.

End JSFacts.

Module CRCFacts.
Import Buf IEv1 Wire BufFacts JSFacts.
Import CRC32Std.

Lemma fold_left_cons {A B} (f : A -> B -> A) (x : B) l a :
  fold_left f (x :: l) a = fold_left f l (f a x).
Proof. reflexivity. Qed.

Lemma shiftr1_word32 c : word32 c -> 0 <= Z.shiftr c 1 < 2 ^ 31.
Proof.
  unfold word32. intros H. rewrite Z.shiftr_div_pow2 by lia.
  change (2 ^ 1) with 2. split.
  - apply Z.div_pos; lia.
  - apply Z.div_lt_upper_bound; lia.
Qed.

Lemma lxor_word32 a b : word32 a -> word32 b -> word32 (Z.lxor a b).
Proof.
  unfold word32. intros Ha Hb.
  rewrite <- (ToUint32_small Ha), <- (ToUint32_small Hb), <- ToUint32_lxor.
  apply ToUint32_range.
Qed.

Lemma step_word32 c : word32 c -> word32 (step c).
Proof.
  intros H. unfold step. pose proof (shiftr1_word32 H) as Hs.
  destruct (Z.testbit c 0).
  - apply lxor_word32; unfold word32, POLY; lia.
  - unfold word32. lia.
Qed.

Lemma iter_step_word32 n c : word32 c -> word32 (Nat.iter n step c).
Proof. intros H. apply Nat.iter_invariant; auto using step_word32. Qed.

Lemma u8_word32 b : word32 (u8 b).
Proof. pose proof (u8_range b). unfold word32. lia. Qed.

Lemma update_word32 c b : word32 c -> word32 (update c (u8 b)).
Proof.
  intros H. apply iter_step_word32, lxor_word32; auto using u8_word32.
Qed.

(** One round of the inner loop is one step of the reference algorithm on
    the unsigned reading of [crc]. *)
Lemma crcBit_step c : JS.ToUint32 (crcBit c) = step (JS.ToUint32 c).
Proof.
  unfold crcBit. rewrite ToUint32_xor.
  pose proof (ToUint32_range c) as Hc.
  pose proof (shiftr1_word32 Hc) as Hs.
  assert (Hb : Z.testbit (JS.ToUint32 c) 0 = Z.testbit c 0)
    by (unfold JS.ToUint32; apply Z.mod_pow2_bits_low; lia).
  unfold step. rewrite Hb, and_1.
  unfold JS.ushr. change (1 mod 32) with 1.
  rewrite (ToUint32_small (x := Z.shiftr (JS.ToUint32 c) 1)) by lia.
  assert (E1 : JS.ToUint32 (JS.and 0xEDB88320 (- Z.b2z true)) = POLY)
    by (vm_compute; reflexivity).
  assert (E0 : JS.ToUint32 (JS.and 0xEDB88320 (- Z.b2z false)) = 0)
    by (vm_compute; reflexivity).
  destruct (Z.testbit c 0); [rewrite E1 | rewrite E0, Z.lxor_0_r];
    reflexivity.
Qed.

Lemma crcBits_iter n c :
  JS.ToUint32 (crcBits n c) = Nat.iter n step (JS.ToUint32 c).
Proof.
  revert c. induction n as [|n IH]; intros c; [reflexivity|].
  cbn [crcBits]. rewrite IH, crcBit_step, Nat.iter_succ_r. reflexivity.
Qed.

Lemma crcByte_update c b :
  JS.ToUint32 (crcByte c b) = update (JS.ToUint32 c) (u8 b).
Proof.
  unfold crcByte, update. rewrite crcBits_iter, ToUint32_xor.
  rewrite (ToUint32_small (u8_word32 b)). reflexivity.
Qed.

Lemma fold_crcByte data c :
  JS.ToUint32 (fold_left crcByte data c)
  = fold_left update (map u8 data) (JS.ToUint32 c).
Proof.
  revert c. induction data as [|b data IH]; intros c; [reflexivity|].
  rewrite map_cons, !fold_left_cons, <- crcByte_update. apply IH.
Qed.

Lemma calculateCRC32_std data :
  calculateCRC32 data = crc32 (map u8 data).
Proof.
  unfold calculateCRC32, crc32, JS.ushr.
  change (0 mod 32) with 0. rewrite Z.shiftr_0_r.
  rewrite ToUint32_xor, fold_crcByte. reflexivity.
Qed.

Lemma fold_update_word32 data c :
  word32 c -> word32 (fold_left update (map u8 data) c).
Proof.
  revert c. induction data as [|b data IH]; intros c H; [exact H|].
  rewrite map_cons, fold_left_cons. apply IH, update_word32, H.
Qed.

Lemma calculateCRC32_range data : 0 <= calculateCRC32 data < 2 ^ 32.
Proof.
  rewrite calculateCRC32_std. unfold crc32.
  apply lxor_word32.
  - apply fold_update_word32. unfold word32, INIT. lia.
  - unfold word32, XOROUT. lia.
Qed.

(** *** The checksum is linear over GF(2) and its step has no kernel *)

Lemma step_lxor a b : step (Z.lxor a b) = Z.lxor (step a) (step b).
Proof.
  unfold step. rewrite Z.lxor_spec, Z.shiftr_lxor.
  destruct (Z.testbit a 0), (Z.testbit b 0); cbn [xorb].
  - rewrite Z.lxor_assoc, (Z.lxor_comm POLY), Z.lxor_assoc, Z.lxor_nilpotent,
      Z.lxor_0_r. reflexivity.
  - rewrite !Z.lxor_assoc. f_equal. apply Z.lxor_comm.
  - rewrite Z.lxor_assoc. reflexivity.
  - reflexivity.
Qed.

Lemma iter_step_lxor n a b :
  Nat.iter n step (Z.lxor a b)
  = Z.lxor (Nat.iter n step a) (Nat.iter n step b).
Proof.
  induction n as [|n IH]; [reflexivity|].
  rewrite !Nat.iter_succ, IH, step_lxor. reflexivity.
Qed.

Lemma update_lxor c d x y :
  update (Z.lxor c d) (Z.lxor x y) = Z.lxor (update c x) (update d y).
Proof.
  unfold update. rewrite <- iter_step_lxor. f_equal.
  rewrite !Z.lxor_assoc. f_equal.
  rewrite <- !Z.lxor_assoc. f_equal. apply Z.lxor_comm.
Qed.

Lemma step_kernel c : word32 c -> step c = 0 -> c = 0.
Proof.
  intros H. pose proof (shiftr1_word32 H) as Hs. unfold step.
  destruct (Z.testbit c 0) eqn:E.
  - intros H0. apply Z.lxor_eq in H0. unfold POLY in H0. lia.
  - intros H0. rewrite Z.shiftr_div_pow2 in H0 by lia.
    change (2 ^ 1) with 2 in H0.
    rewrite Z.bit0_eqb in E. apply Z.eqb_neq in E.
    unfold word32 in H.
    pose proof (Z.div_mod c 2 ltac:(lia)).
    pose proof (Z.mod_pos_bound c 2 ltac:(lia)). lia.
Qed.

Lemma iter_step_kernel n c : word32 c -> Nat.iter n step c = 0 -> c = 0.
Proof.
  intros H. induction n as [|n IH]; [trivial|].
  rewrite Nat.iter_succ. intros H0. apply IH.
  apply step_kernel; [apply iter_step_word32, H | exact H0].
Qed.

Lemma update_inj_state c d x :
  word32 c -> word32 d -> word32 x -> update c x = update d x -> c = d.
Proof.
  intros Hc Hd Hx H. apply Z.lxor_eq.
  apply (iter_step_kernel 8); [apply lxor_word32; assumption|].
  assert (E : Z.lxor c d = Z.lxor (Z.lxor c x) (Z.lxor d x)).
  { rewrite Z.lxor_assoc, (Z.lxor_comm x), Z.lxor_assoc, Z.lxor_nilpotent,
      Z.lxor_0_r. reflexivity. }
  rewrite E, iter_step_lxor. fold (update c x) (update d x).
  rewrite H. apply Z.lxor_nilpotent.
Qed.

Lemma update_inj_byte c x y :
  word32 c -> word32 x -> word32 y -> update c x = update c y -> x = y.
Proof.
  intros Hc Hx Hy H. apply Z.lxor_eq.
  apply (iter_step_kernel 8); [apply lxor_word32; assumption|].
  assert (E : Z.lxor x y = Z.lxor (Z.lxor c x) (Z.lxor c y)).
  { rewrite Z.lxor_assoc, <- (Z.lxor_assoc x), (Z.lxor_comm x c),
      (Z.lxor_assoc c), <- (Z.lxor_assoc c), Z.lxor_nilpotent, Z.lxor_0_l.
    reflexivity. }
  rewrite E, iter_step_lxor. fold (update c x) (update c y).
  rewrite H. apply Z.lxor_nilpotent.
Qed.

Lemma fold_update_inj data c d :
  word32 c -> word32 d ->
  fold_left update (map u8 data) c = fold_left update (map u8 data) d ->
  c = d.
Proof.
  revert c d. induction data as [|b data IH]; intros c d Hc Hd H;
    [exact H|].
  rewrite map_cons, !fold_left_cons in H.
  apply IH in H; auto using update_word32.
  apply update_inj_state in H; auto using u8_word32.
Qed.

(** Two buffers that differ in exactly one byte have different
    checksums. *)
Lemma calculateCRC32_one_byte pre post (x y : byte) :
  x <> y ->
  calculateCRC32 (pre ++ x :: post) <> calculateCRC32 (pre ++ y :: post).
Proof.
  intros Hxy H. rewrite !calculateCRC32_std in H. unfold crc32 in H.
  apply (f_equal (fun v => Z.lxor v XOROUT)) in H.
  rewrite !Z.lxor_assoc, !Z.lxor_nilpotent, !Z.lxor_0_r in H.
  rewrite !map_app, !fold_left_app, !map_cons, !fold_left_cons in H.
  assert (Hi : word32 (fold_left update (map u8 pre) INIT)).
  { apply fold_update_word32. unfold word32, INIT. lia. }
  apply fold_update_inj in H; auto using update_word32.
  apply update_inj_byte in H; auto using u8_word32.
  apply Hxy, u8_inj, H.
Qed.

End CRCFacts.

Module IEv1Facts.
Import JS Op Buf IEv1 Wire BufFacts JSFacts CRCFacts.

Lemma le32_range a b c d : 0 <= le32 a b c d < 2 ^ 32.
Proof.
  unfold le32. pose proof (u8_range a). pose proof (u8_range b).
  pose proof (u8_range c). pose proof (u8_range d). lia.
Qed.

Lemma le16_bytes v :
  0 <= v < 2 ^ 16 -> le16 (byte_of_Z v) (byte_of_Z (Z.shiftr v 8)) = v.
Proof.
  intros H. unfold le16. rewrite !u8_byte_of_Z, Z.shiftr_div_pow2 by lia.
  change (2 ^ 8) with 256 in *.
  pose proof (Z.div_mod v 256 ltac:(lia)).
  assert (0 <= v / 256 < 256)
    by (split; [apply Z.div_pos | apply Z.div_lt_upper_bound]; lia).
  rewrite (Z.mod_small (v / 256)) by lia. lia.
Qed.

Lemma le32_bytes v :
  0 <= v < 2 ^ 32 ->
  le32 (byte_of_Z v) (byte_of_Z (Z.shiftr v 8))
       (byte_of_Z (Z.shiftr v 16)) (byte_of_Z (Z.shiftr v 24)) = v.
Proof.
  intros H. unfold le32. rewrite !u8_byte_of_Z, !Z.shiftr_div_pow2 by lia.
  change (2 ^ 16) with (256 * 256). change (2 ^ 24) with (256 * 256 * 256).
  change (2 ^ 8) with 256.
  rewrite <- !Z.div_div by lia.
  pose proof (Z.div_mod v 256 ltac:(lia)).
  pose proof (Z.div_mod (v / 256) 256 ltac:(lia)).
  pose proof (Z.div_mod (v / 256 / 256) 256 ltac:(lia)).
  assert (0 <= v / 256 / 256 / 256 < 256).
  { split; [repeat apply Z.div_pos; lia|].
    repeat apply Z.div_lt_upper_bound; lia. }
  rewrite (Z.mod_small (v / 256 / 256 / 256)) by lia. lia.
Qed.

(** Little-endian reading is injective: two fields that differ in one
    byte hold different numbers. *)
Lemma le16_inj a b a' b' : le16 a b = le16 a' b' -> a = a' /\ b = b'.
Proof.
  unfold le16. intros H.
  pose proof (u8_range a). pose proof (u8_range b).
  pose proof (u8_range a'). pose proof (u8_range b').
  split; apply u8_inj; lia.
Qed.

Lemma le32_inj a b c d a' b' c' d' :
  le32 a b c d = le32 a' b' c' d' -> a = a' /\ b = b' /\ c = c' /\ d = d'.
Proof.
  unfold le32. intros H.
  pose proof (u8_range a). pose proof (u8_range b).
  pose proof (u8_range c). pose proof (u8_range d).
  pose proof (u8_range a'). pose proof (u8_range b').
  pose proof (u8_range c'). pose proof (u8_range d').
  repeat split; apply u8_inj; lia.
Qed.

(** [decode] on a buffer of at least twelve bytes, check by check. *)
Lemma decode_cons12 b0 b1 b2 b3 b4 b5 b6 b7 b8 b9 b10 b11 rest :
  decode (b0 :: b1 :: b2 :: b3 :: b4 :: b5 :: b6 :: b7 ::
          b8 :: b9 :: b10 :: b11 :: rest)
  = if negb (le16 b0 b1 =? PROTOCOL_VERSION) then
      Err (UnsupportedVersion (le16 b0 b1))
    else if Buf.length rest <? le32 b4 b5 b6 b7 then Err PayloadTruncated
    else
      let payload := firstn (Z.to_nat (le32 b4 b5 b6 b7)) rest in
      if negb (calculateCRC32 payload =? le32 b8 b9 b10 b11) then
        Err ChecksumMismatch
      else decodePayload (le16 b2 b3) payload.
Proof.
  unfold decode.
  assert (Hlen : Buf.length
            (b0 :: b1 :: b2 :: b3 :: b4 :: b5 :: b6 :: b7 ::
             b8 :: b9 :: b10 :: b11 :: rest) = HEADER_SIZE + Buf.length rest).
  { unfold Buf.length, HEADER_SIZE. cbn [List.length]. lia. }
  rewrite Hlen.
  assert (H12 : (HEADER_SIZE + Buf.length rest <? HEADER_SIZE) = false).
  { apply Z.ltb_ge. unfold Buf.length. lia. }
  rewrite H12.
  unfold readUInt16LE, readUInt32LE, readUInt8.
  cbn [nth_error Nat.add rbind].
  fold (le16 b0 b1) (le16 b2 b3) (le32 b4 b5 b6 b7) (le32 b8 b9 b10 b11).
  destruct (negb (le16 b0 b1 =? PROTOCOL_VERSION)); [reflexivity|].
  assert (Hcmp : (HEADER_SIZE + Buf.length rest
                  <? HEADER_SIZE + le32 b4 b5 b6 b7)
                 = (Buf.length rest <? le32 b4 b5 b6 b7)).
  { destruct (Z.ltb_spec (Buf.length rest) (le32 b4 b5 b6 b7));
      [apply Z.ltb_lt | apply Z.ltb_ge]; lia. }
  rewrite Hcmp.
  destruct (Buf.length rest <? le32 b4 b5 b6 b7); [reflexivity|].
  unfold subarray.
  replace (HEADER_SIZE + le32 b4 b5 b6 b7 - HEADER_SIZE)
    with (le32 b4 b5 b6 b7) by lia.
  reflexivity.
Qed.

Lemma length_nonneg (l : Buffer) : 0 <= Buf.length l.
Proof. unfold Buf.length. lia. Qed.

(** The range check of the writes: NaN passes, as neither comparison
    holds for it. *)
Lemma checkInt_iff value max :
  checkInt value 0 max = Ok tt <-> value = NaN \/ between 0 max value.
Proof.
  unfold checkInt. rewrite between_iff. split.
  - destruct (number_lt (int max) value) eqn:E1; [discriminate|].
    destruct (number_lt value (int 0)) eqn:E2; [discriminate|].
    intros _. destruct value; auto.
  - intros [-> | (_ & -> & ->)]; reflexivity.
Qed.

Lemma checkInt_ok value max :
  value = NaN \/ between 0 max value -> checkInt value 0 max = Ok tt.
Proof. apply checkInt_iff. Qed.

Lemma checkInt_inv value max u :
  checkInt value 0 max = Ok u -> value = NaN \/ between 0 max value.
Proof. destruct u. apply checkInt_iff. Qed.

Lemma checkInt_int v max : 0 <= v <= max -> checkInt (int v) 0 max = Ok tt.
Proof. intros H. apply checkInt_ok. right. apply between_int, H. Qed.

(** What a write stores for a parameter that passed the check. *)
Lemma written_range max x :
  0 <= max -> fits_field max x -> 0 <= written x <= max.
Proof.
  unfold fits_field, written. intros Hm [-> | H]; [cbn; lia|].
  eapply truncate_between; [|exact H]. lia.
Qed.

Lemma ushr_8 z : 0 <= z < 2 ^ 32 -> JS.ushr z 8 = Z.shiftr z 8.
Proof.
  intros H. unfold JS.ushr. rewrite ToUint32_small by exact H. reflexivity.
Qed.

Lemma shiftr_8_range z : 0 <= z < 2 ^ 32 -> 0 <= Z.shiftr z 8 < 2 ^ 32.
Proof.
  intros H. rewrite Z.shiftr_div_pow2 by lia. split.
  - apply Z.div_pos; lia.
  - apply Z.div_lt_upper_bound; lia.
Qed.

Lemma writeUInt8_inv v p :
  writeUInt8 v = Ok p ->
  fits_field 255 v /\ 0 <= written v <= 255 /\ p = [byte_of_Z (written v)].
Proof.
  unfold writeUInt8. destruct (checkInt (ToNumber v) 0 255) as [u|e] eqn:E;
    [|discriminate].
  apply checkInt_inv in E. cbn [rbind]. intros [= <-].
  split; [exact E|]. split; [|reflexivity].
  apply written_range; [lia | exact E].
Qed.

Lemma writeUInt8_fits v :
  fits_field 255 v -> writeUInt8 v = Ok [byte_of_Z (written v)].
Proof.
  intros H. unfold writeUInt8. rewrite checkInt_ok by exact H. reflexivity.
Qed.

Lemma writeUInt16LE_fits v :
  fits_field 65535 v ->
  writeUInt16LE v
  = Ok [byte_of_Z (written v); byte_of_Z (Z.shiftr (written v) 8)].
Proof.
  intros H. unfold writeUInt16LE. rewrite checkInt_ok by exact H.
  cbn [rbind]. fold (written v).
  rewrite ushr_8 by (apply written_range in H; lia). reflexivity.
Qed.

Lemma writeUInt32LE_fits v :
  fits_field 4294967295 v ->
  writeUInt32LE v
  = Ok [byte_of_Z (written v); byte_of_Z (Z.shiftr (written v) 8);
        byte_of_Z (Z.shiftr (written v) 16);
        byte_of_Z (Z.shiftr (written v) 24)].
Proof.
  intros H. unfold writeUInt32LE. rewrite checkInt_ok by exact H.
  cbn [rbind]. fold (written v). cbv zeta.
  assert (H0 : 0 <= written v < 2 ^ 32)
    by (apply written_range in H; lia).
  pose proof (shiftr_8_range H0) as H1.
  pose proof (shiftr_8_range H1) as H2.
  rewrite (ushr_8 H0), (ushr_8 H1), (ushr_8 H2).
  rewrite !Z.shiftr_shiftr by lia. reflexivity.
Qed.

Lemma writeUInt32LE_inv v p :
  writeUInt32LE v = Ok p ->
  fits_field 4294967295 v /\
  0 <= written v < 2 ^ 32 /\
  p = [byte_of_Z (written v); byte_of_Z (Z.shiftr (written v) 8);
       byte_of_Z (Z.shiftr (written v) 16);
       byte_of_Z (Z.shiftr (written v) 24)].
Proof.
  intros H.
  assert (Hf : fits_field 4294967295 v).
  { unfold writeUInt32LE in H.
    destruct (checkInt (ToNumber v) 0 4294967295) as [u|e] eqn:E;
      [|discriminate].
    apply checkInt_inv in E. exact E. }
  rewrite (writeUInt32LE_fits Hf) in H. injection H as <-.
  split; [exact Hf|]. split; [|reflexivity].
  apply written_range in Hf; lia.
Qed.

Lemma fits_field_int max z : 0 <= z <= max -> fits_field max (Number (int z)).
Proof. intros H. right. apply between_int, H. Qed.

Lemma written_int z : written (Number (int z)) = z.
Proof. apply truncate_int. Qed.

(** The flags byte of a FLIP. *)
Lemma flags_cases (h v : bool) :
  let flags := JS.or (if h then 1 else 0) (if v then 2 else 0) in
  0 <= flags <= 255 /\
  negb (JS.and (u8 (byte_of_Z flags)) 1 =? 0) = h /\
  negb (JS.and (u8 (byte_of_Z flags)) 2 =? 0) = v.
Proof. destruct h, v; vm_compute; repeat split; congruence. Qed.

Lemma encodePayload_length op p :
  encodePayload op = Ok p -> Buf.length p = payloadSize (type op).
Proof.
  destruct op as [d|h v|w h|q]; cbn [encodePayload type]; intros H.
  - apply writeUInt8_inv in H as (_ & _ & ->). reflexivity.
  - apply writeUInt8_inv in H as (_ & _ & ->). reflexivity.
  - destruct (writeUInt32LE (or_else w (Number (int 0)))) as [pw|] eqn:Ew;
      [|discriminate].
    destruct (writeUInt32LE (or_else h (Number (int 0)))) as [ph|] eqn:Eh;
      [|discriminate].
    apply writeUInt32LE_inv in Ew as (_ & _ & ->).
    apply writeUInt32LE_inv in Eh as (_ & _ & ->).
    cbn [rbind] in H. injection H as <-. reflexivity.
  - apply writeUInt8_inv in H as (_ & _ & ->). reflexivity.
Qed.

Lemma type_cases op : type op = 1 \/ type op = 2 \/ type op = 3 \/ type op = 4.
Proof. destruct op; cbn; auto. Qed.

(** [encode] is the header followed by the payload. *)
Lemma encode_eq op payload :
  encodePayload op = Ok payload ->
  encode op
  = Ok (header (type op) (Buf.length payload) (calculateCRC32 payload)
        ++ payload).
Proof.
  intros H. unfold encode. rewrite H. cbn [rbind].
  pose proof (encodePayload_length _ H) as Hl.
  pose proof (calculateCRC32_range payload) as Hc.
  rewrite (@writeUInt16LE_fits (Number (int PROTOCOL_VERSION)))
    by (apply fits_field_int; unfold PROTOCOL_VERSION; lia).
  rewrite (@writeUInt16LE_fits (Number (int (type op))))
    by (apply fits_field_int;
        destruct (type_cases op) as [E|[E|[E|E]]]; rewrite E; lia).
  rewrite (@writeUInt32LE_fits (Number (int (Buf.length payload))))
    by (apply fits_field_int; rewrite Hl; unfold payloadSize;
        destruct (_ =? _); lia).
  rewrite (@writeUInt32LE_fits (Number (int (calculateCRC32 payload))))
    by (apply fits_field_int; lia).
  rewrite !written_int. reflexivity.
Qed.

Lemma encode_inv op b :
  encode op = Ok b ->
  exists payload,
    encodePayload op = Ok payload /\
    b = header (type op) (Buf.length payload) (calculateCRC32 payload)
        ++ payload.
Proof.
  intros H. destruct (encodePayload op) as [payload|e] eqn:E.
  - exists payload. split; [reflexivity|].
    rewrite (encode_eq _ E) in H. injection H as <-. reflexivity.
  - unfold encode in H. rewrite E in H. discriminate.
Qed.

Lemma firstn_length_all (l : Buffer) :
  firstn (Z.to_nat (Buf.length l)) l = l.
Proof. unfold Buf.length. rewrite Nat2Z.id. apply firstn_all. Qed.

(** [decode] on a well-formed header. *)
Lemma decode_header t n c rest :
  0 <= t < 2 ^ 16 -> 0 <= n < 2 ^ 32 -> 0 <= c < 2 ^ 32 ->
  decode (header t n c ++ rest)
  = if Buf.length rest <? n then Err PayloadTruncated
    else
      let payload := firstn (Z.to_nat n) rest in
      if negb (calculateCRC32 payload =? c) then Err ChecksumMismatch
      else decodePayload t payload.
Proof.
  intros Ht Hn Hc. unfold header. cbn [app].
  rewrite decode_cons12, !le16_bytes, !le32_bytes by (unfold PROTOCOL_VERSION; lia).
  rewrite Z.eqb_refl. reflexivity.
Qed.

Lemma decode_framed t payload :
  0 <= t < 2 ^ 16 -> Buf.length payload < 2 ^ 32 ->
  decode (header t (Buf.length payload) (calculateCRC32 payload) ++ payload)
  = decodePayload t payload.
Proof.
  intros Ht Hl. pose proof (length_nonneg payload).
  rewrite decode_header by (auto using calculateCRC32_range; lia).
  rewrite Z.ltb_irrefl. cbv zeta.
  rewrite firstn_length_all, Z.eqb_refl. reflexivity.
Qed.

Lemma decodePayload_encodePayload op payload :
  encodePayload op = Ok payload ->
  decodePayload (type op) payload = Ok (normalize op).
Proof.
  destruct op as [d|h v|w h|q]; cbn [encodePayload type normalize]; intros H.
  - apply writeUInt8_inv in H as (_ & Hd & ->).
    unfold decodePayload, readUInt8. cbn.
    rewrite u8_byte_of_Z, Z.mod_small by lia. reflexivity.
  - apply writeUInt8_inv in H as (_ & _ & ->). rewrite written_int.
    destruct (flags_cases (ToBoolean h) (ToBoolean v)) as (_ & Eh & Ev).
    cbv zeta in Eh, Ev.
    unfold decodePayload, readUInt8. cbn [FLIP ROTATE Z.eqb Pos.eqb].
    change (Buf.length _ <? 1) with false. cbv iota.
    cbn [nth_error rbind]. cbv zeta. rewrite Eh, Ev. reflexivity.
  - destruct (writeUInt32LE (or_else w (Number (int 0)))) as [pw|] eqn:Ew;
      [|discriminate].
    destruct (writeUInt32LE (or_else h (Number (int 0)))) as [ph|] eqn:Eh;
      [|discriminate].
    apply writeUInt32LE_inv in Ew as (_ & Hw & ->).
    apply writeUInt32LE_inv in Eh as (_ & Hh & ->).
    cbn [rbind] in H. injection H as <-.
    set (zw := written (or_else w (Number (int 0)))) in *.
    set (zh := written (or_else h (Number (int 0)))) in *.
    unfold decodePayload, readUInt32LE, readUInt8.
    cbn [app nth_error Nat.add rbind RESIZE ROTATE FLIP Z.eqb Pos.eqb].
    change (Buf.length _ <? 8) with false. cbv iota.
    fold (le32 (byte_of_Z zw) (byte_of_Z (Z.shiftr zw 8))
               (byte_of_Z (Z.shiftr zw 16)) (byte_of_Z (Z.shiftr zw 24))).
    fold (le32 (byte_of_Z zh) (byte_of_Z (Z.shiftr zh 8))
               (byte_of_Z (Z.shiftr zh 16)) (byte_of_Z (Z.shiftr zh 24))).
    rewrite !le32_bytes by assumption. cbv zeta.
    unfold or_else, dimension. rewrite !ToBoolean_int.
    destruct (zw =? 0), (zh =? 0); reflexivity.
  - apply writeUInt8_inv in H as (_ & Hd & ->).
    unfold decodePayload, readUInt8. cbn.
    rewrite u8_byte_of_Z, Z.mod_small by lia. reflexivity.
Qed.

(** Decoding an encoded operation gives what the wire keeps of it. *)
Lemma decode_encode op b :
  encode op = Ok b -> decode b = Ok (normalize op).
Proof.
  intros H. apply encode_inv in H as (payload & Hp & ->).
  pose proof (encodePayload_length _ Hp) as Hl.
  rewrite decode_framed.
  - apply decodePayload_encodePayload, Hp.
  - destruct (type_cases op) as [E|[E|[E|E]]]; rewrite E; lia.
  - rewrite Hl. unfold payloadSize. destruct (_ =? _); lia.
Qed.

Lemma validate_rotate d :
  validate (RotateOp d) = true <->
  d = Number (int 90) \/ d = Number (int 180) \/ d = Number (int 270).
Proof.
  cbn [validate includes existsb].
  rewrite !orb_true_iff, !SameValueZero_number by apply int_not_NaN.
  intuition discriminate.
Qed.

Lemma typeof_boolean x : (typeof x =? "boolean")%string = true <-> is_boolean x.
Proof.
  unfold is_boolean. destruct x as [| |[|]|n]; cbn; split; intros H;
    try discriminate; try reflexivity; auto;
    destruct H as [H|H]; discriminate.
Qed.

Lemma validate_flip h v :
  validate (FlipOp h v) = true <-> is_boolean h /\ is_boolean v.
Proof.
  cbn [validate]. rewrite andb_true_iff, !typeof_boolean. reflexivity.
Qed.

Lemma ge_le_between lo hi x :
  ge x (Number (int lo)) && le x (Number (int hi)) = true <->
  between lo hi (ToNumber x).
Proof.
  rewrite between_iff. unfold ge, le. cbn [ToNumber is_NaN int negb].
  rewrite !andb_true_r.
  destruct (is_NaN (ToNumber x)), (number_lt (ToNumber x) (int lo)),
    (number_lt (int hi) (ToNumber x)); cbn; intuition discriminate.
Qed.

Lemma validate_compress q :
  validate (CompressOp q) = true <->
  exists n, q = Number n /\ between 10 100 n.
Proof.
  cbn [validate]. rewrite ge_le_between. split.
  - destruct q as [| |[|]|n]; cbn [ToNumber].
    + intros (? & [=] & _).
    + intros H. apply between_int in H. lia.
    + intros H. apply between_int in H. lia.
    + intros H. apply between_int in H. lia.
    + intros H. exists n. auto.
  - intros (n & -> & H). exact H.
Qed.

Lemma ToBoolean_falsy x : ToBoolean x = false <-> falsy x.
Proof.
  unfold falsy. destruct x as [| |[|]|[q| |s]]; cbn [ToBoolean]; split;
    intros H; try reflexivity; try discriminate; auto 6;
    try (destruct H as [H|[H|[H|[H|H]]]]; discriminate).
  - apply negb_false_iff, Qeq_bool_eq in H. do 3 right. left. f_equal.
    apply Finite_eq. rewrite this_int. exact H.
  - destruct H as [H|[H|[H|[H|H]]]]; try discriminate.
    injection H as ->. apply negb_false_iff. reflexivity.
Qed.

Lemma ToBoolean_given x : ToBoolean x = true <-> given x.
Proof.
  unfold given. rewrite <- ToBoolean_falsy.
  destruct (ToBoolean x); intuition discriminate.
Qed.

(** [x && (x < 200 || x > 4000)] taken as a condition. *)
Lemma out_of_bounds_range x :
  ToBoolean x && (lt x (Number (int 200)) || gt x (Number (int 4000))) = false
  <-> in_range_nz 200 4000 x.
Proof.
  unfold in_range_nz. rewrite <- ToBoolean_falsy.
  destruct (ToBoolean x) eqn:Et; cbn [andb]; [|intuition].
  unfold lt, gt. cbn [ToNumber]. split.
  - intros H. apply orb_false_iff in H as [Hlo Hhi]. right.
    destruct x as [| |[|]|n]; try discriminate.
    exists n. split; [reflexivity|]. apply between_iff.
    cbn [ToNumber] in Hlo, Hhi. repeat split; try assumption.
    destruct n; try reflexivity. discriminate.
  - intros [H | (n & -> & H)]; [discriminate|]. cbn [ToNumber].
    apply between_iff in H as (_ & -> & ->). reflexivity.
Qed.

Lemma validate_resize w h :
  validate (ResizeOp w h) = true <->
  (given w \/ given h) /\ in_range_nz 200 4000 w /\ in_range_nz 200 4000 h.
Proof.
  rewrite <- !ToBoolean_given, <- !out_of_bounds_range. cbn [validate].
  destruct (ToBoolean w), (ToBoolean h); cbn [negb andb];
    destruct (lt w (Number (int 200)) || gt w (Number (int 4000))),
      (lt h (Number (int 200)) || gt h (Number (int 4000)));
    cbn; intuition discriminate.
Qed.

Lemma decode_ok_length data op :
  decode data = Ok op -> HEADER_SIZE <= Buf.length data.
Proof.
  unfold decode. destruct (Z.ltb_spec (Buf.length data) HEADER_SIZE);
    [discriminate | trivial].
Qed.

Lemma split12 (data : Buffer) :
  HEADER_SIZE <= Buf.length data ->
  exists b0 b1 b2 b3 b4 b5 b6 b7 b8 b9 b10 b11 rest,
    data = b0 :: b1 :: b2 :: b3 :: b4 :: b5 :: b6 :: b7 ::
           b8 :: b9 :: b10 :: b11 :: rest.
Proof.
  unfold HEADER_SIZE, Buf.length. intros H.
  do 12 (destruct data as [|? data]; [cbn [List.length] in H; lia|]).
  repeat eexists.
Qed.

(** A successful [decode] passed every check on the way. *)
Lemma decode_ok_inv data op :
  decode data = Ok op ->
  exists b0 b1 b2 b3 b4 b5 b6 b7 b8 b9 b10 b11 rest,
    data = b0 :: b1 :: b2 :: b3 :: b4 :: b5 :: b6 :: b7 ::
           b8 :: b9 :: b10 :: b11 :: rest /\
    le16 b0 b1 = PROTOCOL_VERSION /\
    le32 b4 b5 b6 b7 <= Buf.length rest /\
    calculateCRC32 (firstn (Z.to_nat (le32 b4 b5 b6 b7)) rest)
      = le32 b8 b9 b10 b11 /\
    decodePayload (le16 b2 b3)
      (firstn (Z.to_nat (le32 b4 b5 b6 b7)) rest) = Ok op.
Proof.
  intros H. pose proof (decode_ok_length _ H) as Hl.
  destruct (split12 _ Hl)
    as (b0 & b1 & b2 & b3 & b4 & b5 & b6 & b7 & b8 & b9 & b10 & b11
        & rest & ->).
  exists b0, b1, b2, b3, b4, b5, b6, b7, b8, b9, b10, b11, rest.
  split; [reflexivity|].
  rewrite decode_cons12 in H.
  destruct (Z.eqb_spec (le16 b0 b1) PROTOCOL_VERSION); [|discriminate].
  cbn [negb] in H.
  destruct (Z.ltb_spec (Buf.length rest) (le32 b4 b5 b6 b7));
    [discriminate|].
  cbv zeta in H.
  destruct (Z.eqb_spec
              (calculateCRC32 (firstn (Z.to_nat (le32 b4 b5 b6 b7)) rest))
              (le32 b8 b9 b10 b11)); [|discriminate].
  cbn [negb] in H. auto.
Qed.

Lemma decodePayload_rotate t payload d :
  decodePayload t payload = Ok (RotateOp d) ->
  exists z, d = Number (int z) /\ 0 <= z < 256.
Proof.
  unfold decodePayload, readUInt8.
  destruct (t =? ROTATE).
  { destruct (Buf.length payload <? 1); [discriminate|].
    destruct (nth_error payload 0) as [b|]; [|discriminate].
    cbn [rbind]. intros [= <-]. exists (u8 b).
    split; [reflexivity | apply u8_range]. }
  destruct (t =? FLIP).
  { destruct (Buf.length payload <? 1); [discriminate|].
    destruct (nth_error payload 0); discriminate. }
  destruct (t =? RESIZE).
  { destruct (Buf.length payload <? 8); [discriminate|].
    unfold readUInt32LE, readUInt8.
    repeat (match goal with
            | |- context [nth_error ?l ?n] => destruct (nth_error l n)
            end; cbn [rbind]; try discriminate). }
  destruct (t =? COMPRESS); [|discriminate].
  destruct (Buf.length payload <? 1); [discriminate|].
  destruct (nth_error payload 0); discriminate.
Qed.

Lemma decode_rotate_byte data d :
  decode data = Ok (RotateOp d) -> exists z, d = Number (int z) /\ 0 <= z < 256.
Proof.
  intros H. apply decode_ok_inv in H
    as (b0 & b1 & b2 & b3 & b4 & b5 & b6 & b7 & b8 & b9 & b10 & b11
        & rest & _ & _ & _ & _ & H).
  eapply decodePayload_rotate, H.
Qed.

Lemma firstn_app_le (l t : Buffer) n :
  Z.of_nat n <= Buf.length l -> firstn n (l ++ t) = firstn n l.
Proof.
  unfold Buf.length. intros H. rewrite firstn_app.
  replace (n - List.length l)%nat with O by lia.
  cbn [firstn]. apply app_nil_r.
Qed.

Lemma decode_after_checks data t payload :
  passesHeaderChecks data t payload -> decode data = decodePayload t payload.
Proof.
  intros (Hl & Hv & Ht & n & Hn & Hfit & -> & Hc). unfold decode.
  destruct (Z.ltb_spec (Buf.length data) HEADER_SIZE); [lia|].
  rewrite Hv. cbn [rbind]. rewrite Z.eqb_refl. cbn [negb].
  rewrite Ht, Hn, Hc. cbn [rbind].
  destruct (Z.ltb_spec (Buf.length data) (HEADER_SIZE + n)); [lia|].
  rewrite Z.eqb_refl. reflexivity.
Qed.

(** The two flag bits, as [decodePayload] tests them. *)
Lemma and_bits (d : byte) :
  negb (JS.and (u8 d) 1 =? 0) = Z.testbit (u8 d) 0 /\
  negb (JS.and (u8 d) 2 =? 0) = Z.testbit (u8 d) 1.
Proof. destruct d; vm_compute; split; reflexivity. Qed.

Lemma or_else_dimension z :
  or_else (Number (int z)) Undefined = dimension z.
Proof.
  unfold or_else, dimension. rewrite ToBoolean_int.
  destruct (z =? 0); reflexivity.
Qed.

(** [decodePayload] on a payload that is long enough, type by type. *)
Lemma decodePayload_rotate_byte d rest :
  decodePayload ROTATE (d :: rest) = Ok (RotateOp (Number (int (u8 d)))).
Proof.
  unfold decodePayload. cbn [ROTATE Z.eqb Pos.eqb].
  destruct (Z.ltb_spec (Buf.length (d :: rest)) 1) as [H|_];
    [unfold Buf.length in H; cbn [List.length] in H; lia|].
  reflexivity.
Qed.

Lemma decodePayload_flip_byte d rest :
  decodePayload FLIP (d :: rest)
  = Ok (FlipOp (Bool (Z.testbit (u8 d) 0)) (Bool (Z.testbit (u8 d) 1))).
Proof.
  unfold decodePayload. cbn [ROTATE FLIP Z.eqb Pos.eqb].
  destruct (Z.ltb_spec (Buf.length (d :: rest)) 1) as [H|_];
    [unfold Buf.length in H; cbn [List.length] in H; lia|].
  unfold readUInt8. cbn [nth_error rbind]. cbv zeta.
  destruct (and_bits d) as [-> ->]. reflexivity.
Qed.

Lemma decodePayload_resize_bytes a0 a1 a2 a3 a4 a5 a6 a7 rest :
  decodePayload RESIZE (a0 :: a1 :: a2 :: a3 :: a4 :: a5 :: a6 :: a7 :: rest)
  = Ok (ResizeOp (dimension (le32 a0 a1 a2 a3))
                 (dimension (le32 a4 a5 a6 a7))).
Proof.
  unfold decodePayload. cbn [ROTATE FLIP RESIZE Z.eqb Pos.eqb].
  match goal with
  | |- context [Buf.length ?l <? 8] =>
      destruct (Z.ltb_spec (Buf.length l) 8) as [H|_];
        [unfold Buf.length in H; cbn [List.length] in H; lia|]
  end.
  unfold readUInt32LE, readUInt8. cbn [nth_error Nat.add rbind].
  fold (le32 a0 a1 a2 a3) (le32 a4 a5 a6 a7). cbv zeta.
  rewrite !or_else_dimension. reflexivity.
Qed.

Lemma decodePayload_compress_byte d rest :
  decodePayload COMPRESS (d :: rest) = Ok (CompressOp (Number (int (u8 d)))).
Proof.
  unfold decodePayload. cbn [ROTATE FLIP RESIZE COMPRESS Z.eqb Pos.eqb].
  destruct (Z.ltb_spec (Buf.length (d :: rest)) 1) as [H|_];
    [unfold Buf.length in H; cbn [List.length] in H; lia|].
  reflexivity.
Qed.

Lemma decodePayload_total t payload :
  t = 1 \/ t = 2 \/ t = 3 \/ t = 4 ->
  payloadSize t <= Buf.length payload ->
  exists op, decodePayload t payload = Ok op /\ type op = t.
Proof.
  intros Ht Hl.
  destruct Ht as [-> | [-> | [-> | ->]]];
    change (payloadSize _) with 1 in Hl || change (payloadSize _) with 8 in Hl;
    unfold Buf.length in Hl.
  - destruct payload as [|d rest]; [cbn in Hl; lia|].
    change 1 with ROTATE. rewrite decodePayload_rotate_byte.
    eexists. split; reflexivity.
  - destruct payload as [|d rest]; [cbn in Hl; lia|].
    change 2 with FLIP. rewrite decodePayload_flip_byte.
    eexists. split; reflexivity.
  - do 8 (destruct payload as [|? payload]; [cbn [List.length] in Hl; lia|]).
    change 3 with RESIZE. rewrite decodePayload_resize_bytes.
    eexists. split; reflexivity.
  - destruct payload as [|d rest]; [cbn in Hl; lia|].
    change 4 with COMPRESS. rewrite decodePayload_compress_byte.
    eexists. split; reflexivity.
Qed.

(** An operation within the constraints of the data model whose numbers
    are integers fits the fields of the format, unless it is ROTATE by
    270, and the wire keeps all of it. *)
Lemma constraints_fits (op : Operation) :
  constraints op -> integral op -> op <> RotateOp (Number (int 270)) ->
  fits op /\ normalize op = op.
Proof.
  destruct op as [d|h v|w h|q]; cbn [constraints integral fits normalize].
  - intros Hc _ Hne. destruct Hc as [-> | [-> | ->]];
      [| |contradiction]; (split; [apply fits_field_int; lia|]);
      rewrite written_int; reflexivity.
  - intros [[-> | ->] [-> | ->]] _ _; split; try exact I; reflexivity.
  - unfold in_range. intros (_ & Hw & Hh) (Iw & Ih) _.
    assert (D : forall x,
      x = Undefined \/ (exists n, x = Number n /\ between 200 4000 n) ->
      x = Undefined \/ is_integer x ->
      fits_field 4294967295 (or_else x (Number (int 0))) /\
      dimension (written (or_else x (Number (int 0)))) = x).
    { intros x Hx Ix. destruct Hx as [-> | Hx].
      - cbn [or_else ToBoolean]. split; [apply fits_field_int; lia|].
        rewrite written_int. reflexivity.
      - destruct Ix as [-> | Ix]; [destruct Hx as (? & [=] & _)|].
        destruct (is_integer_between Ix Hx) as (z & -> & Hz).
        unfold or_else. rewrite ToBoolean_int.
        destruct (Z.eqb_spec z 0); [lia|]. cbn [negb].
        split; [apply fits_field_int; lia|].
        rewrite written_int. unfold dimension.
        destruct (Z.eqb_spec z 0); [lia | reflexivity]. }
    destruct (D w Hw Iw) as [Fw Nw]. destruct (D h Hh Ih) as [Fh Nh].
    rewrite Nw, Nh. auto.
  - intros Hc Iq _. destruct (is_integer_between Iq Hc) as (z & -> & Hz).
    split; [apply fits_field_int; lia|]. rewrite written_int. reflexivity.
Qed.

Lemma fits_encodePayload op :
  fits op -> exists payload, encodePayload op = Ok payload.
Proof.
  destruct op as [d|h v|w h|q]; cbn [encodePayload fits]; intros H.
  - rewrite writeUInt8_fits by exact H. eexists; reflexivity.
  - rewrite writeUInt8_fits; [eexists; reflexivity|].
    apply fits_field_int.
    destruct (flags_cases (ToBoolean h) (ToBoolean v)) as (Hf & _).
    exact Hf.
  - destruct H as [Hw Hh]. rewrite !writeUInt32LE_fits by assumption.
    eexists; reflexivity.
  - rewrite writeUInt8_fits by exact H. eexists; reflexivity.
Qed.

Lemma dimension_fits z :
  0 <= z < 2 ^ 32 ->
  fits_field 4294967295 (or_else (dimension z) (Number (int 0))) /\
  dimension (written (or_else (dimension z) (Number (int 0)))) = dimension z.
Proof.
  intros H.
  assert (E : or_else (dimension z) (Number (int 0)) = Number (int z)).
  { unfold dimension. destruct (Z.eqb_spec z 0) as [->|Hz]; [reflexivity|].
    unfold or_else. rewrite ToBoolean_int.
    destruct (Z.eqb_spec z 0); [contradiction|]. reflexivity. }
  rewrite E, written_int. split; [apply fits_field_int; lia|reflexivity].
Qed.

Lemma encodePayload_fits op payload : encodePayload op = Ok payload -> fits op.
Proof.
  destruct op as [d|h v|w h|q]; cbn [encodePayload fits]; intros H.
  - apply writeUInt8_inv in H. tauto.
  - exact I.
  - destruct (writeUInt32LE (or_else w (Number (int 0)))) as [pw|] eqn:Ew;
      [|discriminate].
    destruct (writeUInt32LE (or_else h (Number (int 0)))) as [ph|] eqn:Eh;
      [|discriminate].
    apply writeUInt32LE_inv in Ew, Eh. tauto.
  - apply writeUInt8_inv in H. tauto.
Qed.

(** What [decodePayload] returns has the type asked for, was read from a
    payload long enough for it, fits the fields of the format and is all
    kept by the wire. *)
Lemma decodePayload_ok_inv t payload op :
  decodePayload t payload = Ok op ->
  type op = t /\ payloadSize t <= Buf.length payload /\
  fits op /\ normalize op = op.
Proof.
  unfold decodePayload, payloadSize, ROTATE, FLIP, RESIZE, COMPRESS.
  destruct (Z.eqb_spec t 1) as [->|N1].
  { destruct (Z.ltb_spec (Buf.length payload) 1); [discriminate|].
    unfold readUInt8. destruct (nth_error payload 0) as [b|]; [|discriminate].
    cbn [rbind]. intros [= <-]. pose proof (u8_range b).
    cbn [type fits normalize Z.eqb Pos.eqb]. rewrite written_int.
    repeat split; try lia. apply fits_field_int. lia. }
  destruct (Z.eqb_spec t 2) as [->|N2].
  { destruct (Z.ltb_spec (Buf.length payload) 1); [discriminate|].
    unfold readUInt8. destruct (nth_error payload 0) as [b|]; [|discriminate].
    cbn [rbind]. intros [= <-]. cbn. repeat split; lia. }
  destruct (Z.eqb_spec t 3) as [->|N3].
  { destruct (Z.ltb_spec (Buf.length payload) 8); [discriminate|].
    unfold readUInt32LE, readUInt8.
    destruct (nth_error payload 0) as [a0|]; [|discriminate].
    destruct (nth_error payload (0 + 1)) as [a1|]; [|discriminate].
    destruct (nth_error payload (0 + 2)) as [a2|]; [|discriminate].
    destruct (nth_error payload (0 + 3)) as [a3|]; [|discriminate].
    destruct (nth_error payload 4) as [a4|]; [|discriminate].
    destruct (nth_error payload (4 + 1)) as [a5|]; [|discriminate].
    destruct (nth_error payload (4 + 2)) as [a6|]; [|discriminate].
    destruct (nth_error payload (4 + 3)) as [a7|]; [|discriminate].
    cbn [rbind]. fold (le32 a0 a1 a2 a3) (le32 a4 a5 a6 a7). cbv zeta.
    rewrite !or_else_dimension. intros [= <-].
    destruct (dimension_fits (le32_range a0 a1 a2 a3)) as [Hw Ew].
    destruct (dimension_fits (le32_range a4 a5 a6 a7)) as [Hh Eh].
    cbn [type fits normalize Z.eqb Pos.eqb]. rewrite Ew, Eh.
    repeat split; try lia; assumption. }
  destruct (Z.eqb_spec t 4) as [->|N4]; [|discriminate].
  destruct (Z.ltb_spec (Buf.length payload) 1); [discriminate|].
  unfold readUInt8. destruct (nth_error payload 0) as [b|]; [|discriminate].
  cbn [rbind]. intros [= <-]. pose proof (u8_range b).
  cbn [type fits normalize Z.eqb Pos.eqb]. rewrite written_int.
  repeat split; try lia. apply fits_field_int. lia.
Qed.

(** The bytes written for an operation are those written for what the
    wire keeps of it. *)
Lemma writeUInt8_written v :
  fits_field 255 v -> writeUInt8 (Number (int (written v))) = writeUInt8 v.
Proof.
  intros H. pose proof (@written_range 255 v ltac:(lia) H) as Hr.
  rewrite (writeUInt8_fits H), writeUInt8_fits by (apply fits_field_int; lia).
  rewrite written_int. reflexivity.
Qed.

Lemma writeUInt32LE_dimension v :
  fits_field 4294967295 v ->
  writeUInt32LE (or_else (dimension (written v)) (Number (int 0)))
  = writeUInt32LE v.
Proof.
  intros H. pose proof (@written_range 4294967295 v ltac:(lia) H) as Hr.
  assert (E : or_else (dimension (written v)) (Number (int 0))
              = Number (int (written v))).
  { unfold dimension. destruct (Z.eqb_spec (written v) 0) as [->|Hz];
      [reflexivity|].
    unfold or_else. rewrite ToBoolean_int.
    destruct (Z.eqb_spec (written v) 0); [contradiction|]. reflexivity. }
  rewrite E, (writeUInt32LE_fits H),
    writeUInt32LE_fits by (apply fits_field_int; lia).
  rewrite written_int. reflexivity.
Qed.

Lemma encodePayload_normalize op :
  fits op -> encodePayload (normalize op) = encodePayload op.
Proof.
  destruct op as [d|h v|w h|q]; cbn [fits normalize encodePayload].
  - apply writeUInt8_written.
  - intros _. cbn [ToBoolean]. reflexivity.
  - intros [Hw Hh].
    rewrite (writeUInt32LE_dimension Hw), (writeUInt32LE_dimension Hh).
    reflexivity.
  - apply writeUInt8_written.
Qed.

Lemma encode_normalize op : fits op -> encode (normalize op) = encode op.
Proof.
  intros H. unfold encode. rewrite (encodePayload_normalize _ H).
  destruct op; reflexivity.
Qed.

End IEv1Facts.

Module TamperFacts.
Import Op Buf IEv1 Wire Tamper BufFacts JSFacts CRCFacts IEv1Facts.

Lemma mod_pow2_lxor n a b :
  0 <= n -> Z.lxor a b mod 2 ^ n = Z.lxor (a mod 2 ^ n) (b mod 2 ^ n).
Proof.
  intros Hn. apply Z.bits_inj'. intros i Hi.
  rewrite Z.lxor_spec, !Z.testbit_mod_pow2, Z.lxor_spec by lia.
  destruct (i <? n); reflexivity.
Qed.

Lemma flipByte_neq b j : (j < 8)%nat -> flipByte b j <> b.
Proof.
  intros Hj H. apply (f_equal u8) in H. unfold flipByte in H.
  rewrite u8_byte_of_Z in H. change 256 with (2 ^ 8) in H.
  pose proof (u8_range b) as Hb.
  assert (Hp : 0 < 2 ^ Z.of_nat j < 2 ^ 8).
  { split; [apply Z.pow_pos_nonneg; lia|].
    apply Z.pow_lt_mono_r; lia. }
  rewrite mod_pow2_lxor, !Z.mod_small in H by (change (2 ^ 8) with 256; lia).
  apply (f_equal (Z.lxor (u8 b))) in H.
  rewrite <- Z.lxor_assoc, Z.lxor_nilpotent, Z.lxor_0_l in H. lia.
Qed.

(** *** Ways for [decode] to reject a buffer of twelve bytes or more *)

Section Reject.
Variables b0 b1 b2 b3 b4 b5 b6 b7 b8 b9 b10 b11 : byte.
Variable rest : Buffer.

Let data : Buffer :=
  b0 :: b1 :: b2 :: b3 :: b4 :: b5 :: b6 :: b7 ::
  b8 :: b9 :: b10 :: b11 :: rest.
Let n : Z := le32 b4 b5 b6 b7.

Lemma reject_version :
  le16 b0 b1 <> PROTOCOL_VERSION -> is_err (decode data) = true.
Proof.
  intros H. unfold data. rewrite decode_cons12.
  destruct (Z.eqb_spec (le16 b0 b1) PROTOCOL_VERSION); [contradiction|].
  reflexivity.
Qed.

Lemma reject_payload :
  (Buf.length rest < n \/
   calculateCRC32 (firstn (Z.to_nat n) rest) <> le32 b8 b9 b10 b11 \/
   is_err (decodePayload (le16 b2 b3) (firstn (Z.to_nat n) rest)) = true) ->
  is_err (decode data) = true.
Proof.
  intros H. unfold data. rewrite decode_cons12. fold n.
  destruct (negb (le16 b0 b1 =? PROTOCOL_VERSION)); [reflexivity|].
  destruct (Z.ltb_spec (Buf.length rest) n); [reflexivity|].
  cbv zeta.
  destruct (Z.eqb_spec (calculateCRC32 (firstn (Z.to_nat n) rest))
                       (le32 b8 b9 b10 b11)); [|reflexivity].
  cbn [negb]. destruct H as [H|[H|H]]; [lia|contradiction|exact H].
Qed.
End Reject.

(** [decodePayload] rejects an unknown type and a payload shorter than
    the type needs. *)
Lemma decodePayload_reject t payload :
  t < 1 \/ 4 < t \/ Buf.length payload < payloadSize t ->
  is_err (decodePayload t payload) = true.
Proof.
  unfold decodePayload, payloadSize, ROTATE, FLIP, RESIZE, COMPRESS.
  intros H.
  destruct (Z.eqb_spec t 1), (Z.eqb_spec t 2), (Z.eqb_spec t 3),
    (Z.eqb_spec t 4); try lia;
    try (destruct (Z.ltb_spec (Buf.length payload) 1); [reflexivity|lia]);
    try (destruct (Z.ltb_spec (Buf.length payload) 8); [reflexivity|lia]).
  reflexivity.
Qed.

Lemma flipAt_length data k j :
  List.length (flipAt data k j) = List.length data.
Proof.
  revert k. induction data as [|b data IH]; intros [|k]; cbn; auto.
Qed.

Lemma flipAt_split data k j :
  (k < List.length data)%nat ->
  exists pre x post,
    data = pre ++ x :: post /\ flipAt data k j = pre ++ flipByte x j :: post.
Proof.
  revert k. induction data as [|b data IH]; intros k Hk;
    [cbn in Hk; lia|].
  destruct k as [|k].
  - exists [], b, data. split; reflexivity.
  - destruct (IH k) as (pre & x & post & -> & E); [cbn in Hk; lia|].
    exists (b :: pre), x, post. cbn [flipAt app]. rewrite E.
    split; reflexivity.
Qed.

(** A flipped payload bit changes the checksum. *)
Lemma crc_flipAt payload k j :
  (k < List.length payload)%nat -> (j < 8)%nat ->
  calculateCRC32 (flipAt payload k j) <> calculateCRC32 payload.
Proof.
  intros Hk Hj.
  destruct (flipAt_split payload j Hk) as (pre & x & post & -> & ->).
  apply calculateCRC32_one_byte, flipByte_neq, Hj.
Qed.

Lemma length_firstn_le (l : Buffer) m :
  0 <= m <= Buf.length l -> Buf.length (firstn (Z.to_nat m) l) = m.
Proof.
  unfold Buf.length. intros H. rewrite length_firstn. lia.
Qed.

(** Case analysis on an index: [0], ..., [m - 1], and the rest. *)
Ltac index_cases k m :=
  match m with
  | O => idtac
  | S ?m' => destruct k as [|k]; [ | index_cases k m' ]
  end.

(** A changed length field: the payload is cut short or runs past the
    end of the buffer. *)
Lemma reject_length t payload n' :
  Buf.length payload = payloadSize t ->
  0 <= n' -> n' <> Buf.length payload ->
  Buf.length payload < n' \/
  is_err (decodePayload t (firstn (Z.to_nat n') payload)) = true.
Proof.
  intros Hlen H0 Hne.
  destruct (Z.lt_ge_cases (Buf.length payload) n') as [|Hle]; [auto|right].
  apply decodePayload_reject. right. right.
  rewrite length_firstn_le by lia. lia.
Qed.

(** In a goal about [reject_payload] on a buffer whose length field has
    one flipped byte. *)
Ltac flipped_field rd Hj :=
  let E := fresh "E" in
  intros E; apply (fun e => eq_trans e (eq_sym rd)), le32_inj in E;
  destruct E as (E0 & E1 & E2 & E3);
  first [exact (@flipByte_neq _ _ Hj E0)
        | exact (@flipByte_neq _ _ Hj E1)
        | exact (@flipByte_neq _ _ Hj E2)
        | exact (@flipByte_neq _ _ Hj E3)].

Ltac flipped_length n rd_n rd_t Hj Hlen :=
  apply reject_payload; rewrite rd_t;
  match goal with
  | |- context [le32 ?a ?b ?c ?d] =>
      let Hne := fresh "Hne" in
      let Hr := fresh "Hr" in
      assert (Hne : le32 a b c d <> n) by flipped_field rd_n Hj;
      pose proof (le32_range a b c d) as Hr;
      destruct (@reject_length _ _ _ Hlen (proj1 Hr) Hne); auto
  end.

Ltac flipped_checksum n rd_n rd_c Hj :=
  apply reject_payload; right; left;
  rewrite rd_n; unfold n; rewrite firstn_length_all;
  let E := fresh "E" in
  intros E; symmetry in E; revert E; flipped_field rd_c Hj.

Lemma payloadSize_range t : 0 <= payloadSize t < 2 ^ 32.
Proof. unfold payloadSize. destruct (_ =? _); lia. Qed.

Lemma tamper_framed t payload k j :
  t = 1 \/ t = 2 \/ t = 3 \/ t = 4 ->
  Buf.length payload = payloadSize t ->
  (j < 8)%nat ->
  (k < 12 + List.length payload)%nat ->
  ~ (t = 3 /\ k = 2%nat /\ (j = 0 \/ j = 1)%nat) ->
  is_err (decode (flipAt (header t (Buf.length payload)
                            (calculateCRC32 payload) ++ payload) k j))
  = true.
Proof.
  intros Ht Hlen Hj Hk Hex.
  set (n := Buf.length payload). set (c := calculateCRC32 payload).
  assert (Hn : 0 <= n < 2 ^ 32)
    by (unfold n; rewrite Hlen; apply payloadSize_range).
  assert (Hc : 0 <= c < 2 ^ 32) by apply calculateCRC32_range.
  assert (Htr : 0 <= t < 2 ^ 16) by lia.
  pose proof (le32_bytes Hn) as rd_n. pose proof (le32_bytes Hc) as rd_c.
  pose proof (le16_bytes Htr) as rd_t.
  assert (rd_v := @le16_bytes PROTOCOL_VERSION
                    ltac:(unfold PROTOCOL_VERSION; lia)).
  unfold header. cbn [app].
  index_cases k 12%nat; cbn [flipAt].
  - (* version, low byte *)
    apply reject_version. intros E.
    apply (fun e => eq_trans e (eq_sym rd_v)), le16_inj in E as [E _].
    exact (@flipByte_neq _ _ Hj E).
  - (* version, high byte *)
    apply reject_version. intros E.
    apply (fun e => eq_trans e (eq_sym rd_v)), le16_inj in E as [_ E].
    exact (@flipByte_neq _ _ Hj E).
  - (* op_type, low byte *)
    apply reject_payload. right. right.
    rewrite rd_n. unfold n. rewrite firstn_length_all.
    apply decodePayload_reject. rewrite Hlen. clear - Ht Hj Hex.
    destruct Ht as [-> | [-> | [-> | ->]]]; index_cases j 8%nat;
      try lia; try (vm_compute; tauto).
    all: exfalso; apply Hex; auto.
  - (* op_type, high byte *)
    apply reject_payload. right. right.
    rewrite rd_n. unfold n. rewrite firstn_length_all.
    apply decodePayload_reject. rewrite Hlen. clear - Ht Hj.
    destruct Ht as [-> | [-> | [-> | ->]]]; index_cases j 8%nat;
      try lia; vm_compute; tauto.
  - (* payload_len, byte 0 *) flipped_length n rd_n rd_t Hj Hlen.
  - (* payload_len, byte 1 *) flipped_length n rd_n rd_t Hj Hlen.
  - (* payload_len, byte 2 *) flipped_length n rd_n rd_t Hj Hlen.
  - (* payload_len, byte 3 *) flipped_length n rd_n rd_t Hj Hlen.
  - (* crc32, byte 0 *) flipped_checksum n rd_n rd_c Hj.
  - (* crc32, byte 1 *) flipped_checksum n rd_n rd_c Hj.
  - (* crc32, byte 2 *) flipped_checksum n rd_n rd_c Hj.
  - (* crc32, byte 3 *) flipped_checksum n rd_n rd_c Hj.
  - (* payload *)
    apply reject_payload. right. left.
    assert (Hk' : (k < List.length payload)%nat) by lia.
    rewrite rd_n, rd_c.
    replace n with (Buf.length (flipAt payload k j))
      by (unfold n, Buf.length; rewrite flipAt_length; reflexivity).
    rewrite firstn_length_all. apply crc_flipAt; assumption.
Qed.

End TamperFacts.

(* ------------------------------------------------------------------ *)
(** ** Operation.validate                                             *)
(* ------------------------------------------------------------------ *)

Module OpClaims.
Import JS Op JSFacts IEv1Facts.

Lemma between_not_falsy lo hi n :
  0 < lo -> between lo hi n -> ~ falsy (Number n).
Proof.
  intros Hlo Hb [H|[H|[H|[H|H]]]]; try discriminate.
  - injection H as ->. apply between_int in Hb. lia.
  - injection H as ->. destruct Hb as (q & [=] & _).
Qed.

(** C7, as stated, fails: a RESIZE whose width is [0] and whose height is
    300 validates, although the width is present and outside [200, 4000];
    so does one whose width is [NaN]. *)
Lemma validate_accepts_zero_width :
  validate (ResizeOp (Number (int 0)) (Number (int 300))) = true /\
  ~ constraints (ResizeOp (Number (int 0)) (Number (int 300))) /\
  validate (ResizeOp (Number NaN) (Number (int 300))) = true /\
  ~ constraints (ResizeOp (Number NaN) (Number (int 300))).
Proof.
  split; [vm_compute; reflexivity|]. split.
  - intros (_ & [Hw | (n & [= <-] & Hw)] & _); [discriminate|].
    apply between_int in Hw. lia.
  - split; [vm_compute; reflexivity|].
    intros (_ & [Hw | (n & [= <-] & q & [=] & _)] & _). discriminate.
Qed.

(** C7, amended: for every operation whose parameters are [undefined],
    [null], booleans or numbers, [validate] returns true exactly when
    ROTATE degrees are the number 90, 180 or 270; FLIP has two booleans;
    RESIZE has a width or a height that is not falsy, and each dimension
    that is not falsy is a number of [200, 4000]; COMPRESS quality is a
    number of [10, 100], integer or not.  A falsy dimension ([undefined],
    [null], [false], 0, NaN) counts as absent. *)
Theorem validate_iff_constraints_nz (op : Operation) :
  validate op = true <-> constraints_nz op.
Proof.
  destruct op as [d|h v|w h|q]; cbn [constraints_nz].
  - apply validate_rotate.
  - apply validate_flip.
  - apply validate_resize.
  - apply validate_compress.
Qed.

(** Where no dimension is falsy the two readings of the constraints
    agree. *)
Lemma constraints_nz_of_constraints (op : Operation) :
  constraints op -> constraints_nz op.
Proof.
  destruct op as [d|h v|w h|q]; cbn [constraints constraints_nz];
    try tauto.
  unfold present, given, in_range, in_range_nz.
  intros (Hp & Hw & Hh). split; [|split].
  - destruct Hp as [Hp|Hp]; [left | right].
    + destruct Hw as [Hw | (n & -> & Hw)]; [contradiction|].
      eapply between_not_falsy; [|exact Hw]. lia.
    + destruct Hh as [Hh | (n & -> & Hh)]; [contradiction|].
      eapply between_not_falsy; [|exact Hh]. lia.
  - destruct Hw as [-> | Hw]; [left; left; reflexivity | right; exact Hw].
  - destruct Hh as [-> | Hh]; [left; left; reflexivity | right; exact Hh].
Qed.

End OpClaims.

(* ------------------------------------------------------------------ *)
(** ** IEv1: round trip, checksum, trailing bytes, validation         *)
(* ------------------------------------------------------------------ *)

Module IEv1Claims.
Import JS Op Buf IEv1 Wire BufFacts JSFacts CRCFacts IEv1Facts OpClaims.

(** Every operation that satisfies the constraints of the data model with
    integers for its numbers, ROTATE by 270 apart, is encoded, and decoding
    the bytes gives it back. *)
Lemma decode_encode_valid (op : Operation) :
  constraints op -> integral op -> op <> RotateOp (Number (int 270)) ->
  exists b, encode op = Ok b /\ decode b = Ok op.
Proof.
  intros Hc Hi Hne.
  destruct (constraints_fits Hc Hi Hne) as [Hf Hn].
  destruct (fits_encodePayload _ Hf) as [payload Hp].
  eexists. split; [apply encode_eq, Hp|].
  rewrite (decode_encode _ (encode_eq _ Hp)), Hn. reflexivity.
Qed.

(** The round trip at RESIZE to width 800. *)
Lemma decode_encode_valid_witness :
  exists b,
    encode (ResizeOp (Number (int 800)) Undefined) = Ok b /\
    decode b = Ok (ResizeOp (Number (int 800)) Undefined).
Proof.
  apply decode_encode_valid; [| |discriminate].
  - split; [left; discriminate|]. split; [right | left; reflexivity].
    exists (int 800). split; [reflexivity|]. apply between_int. lia.
  - split; [right; exists 800; reflexivity | left; reflexivity].
Defined.

(** Two byte sequences that differ in exactly one byte have different
    checksums. *)
Theorem checksum_detects_byte_change (pre post : Buffer) (x y : byte) :
  x <> y ->
  calculateCRC32 (pre ++ x :: post) <> calculateCRC32 (pre ++ y :: post).
Proof. apply calculateCRC32_one_byte. Qed.

(** At the single payload byte 90 against 45. *)
Lemma checksum_detects_byte_change_witness :
  x5a <> x2d /\
  calculateCRC32 ([] ++ x5a :: []) <> calculateCRC32 ([] ++ x2d :: []).
Proof.
  assert (H : x5a <> x2d) by discriminate.
  split; [exact H | exact (@checksum_detects_byte_change [] [] x5a x2d H)].
Defined.

(** C1 at ROTATE by 270, an operation that validates: [encode] writes the
    degrees with [writeUInt8], which throws on 270, and no buffer decodes to
    this operation, since [decode] reads the degrees from one byte. *)
Theorem encode_rotate_270_out_of_range :
  validate (RotateOp (Number (int 270))) = true /\
  encode (RotateOp (Number (int 270))) = Err (OutOfRange (int 270)) /\
  (forall data, decode data <> Ok (RotateOp (Number (int 270)))).
Proof.
  split; [vm_compute; reflexivity|]. split; [vm_compute; reflexivity|].
  intros data H. apply decode_rotate_byte in H as (z & H & Hz).
  apply Number_int_inj in H. lia.
Qed.

(** C8: for every byte sequence [calculateCRC32] is the standard CRC-32
    (reflected polynomial 0xEDB88320, initial value 0xFFFFFFFF, final XOR
    0xFFFFFFFF); [encode] returns a buffer for every operation whose
    parameters fit their fields, and in every buffer it returns the field at
    offset 8 holds this checksum of the payload alone, which follows the
    twelve header bytes. *)
Theorem calculateCRC32_is_standard :
  (forall data : Buffer,
     calculateCRC32 data = CRC32Std.crc32 (map u8 data)) /\
  (forall op, fits op -> exists b, encode op = Ok b) /\
  (forall op b,
     encode op = Ok b ->
     exists hdr payload,
       b = hdr ++ payload /\ Buf.length hdr = HEADER_SIZE /\
       encodePayload op = Ok payload /\
       readUInt32LE b 8 = Ok (calculateCRC32 payload) /\
       readUInt32LE b 8 = Ok (CRC32Std.crc32 (map u8 payload))).
Proof.
  split; [exact calculateCRC32_std|]. split.
  { intros op Hf. destruct (fits_encodePayload _ Hf) as [payload Hp].
    eexists. apply encode_eq, Hp. }
  intros op b H. apply encode_inv in H as (payload & Hp & ->).
  exists (header (type op) (Buf.length payload) (calculateCRC32 payload)),
    payload.
  assert (Hr : readUInt32LE
                 (header (type op) (Buf.length payload)
                    (calculateCRC32 payload) ++ payload) 8
               = Ok (calculateCRC32 payload)).
  { unfold header, readUInt32LE, readUInt8.
    cbn [app nth_error Nat.add rbind].
    fold (le32 (byte_of_Z (calculateCRC32 payload))
            (byte_of_Z (Z.shiftr (calculateCRC32 payload) 8))
            (byte_of_Z (Z.shiftr (calculateCRC32 payload) 16))
            (byte_of_Z (Z.shiftr (calculateCRC32 payload) 24))).
    rewrite le32_bytes by apply calculateCRC32_range. reflexivity. }
  repeat split; [exact Hp | exact Hr |].
  rewrite Hr, calculateCRC32_std. reflexivity.
Qed.

(** C8 at the digits 1 to 9, whose CRC-32 is 0xCBF43926, and at ROTATE by
    90, which [encode] turns into thirteen bytes with the checksum of the
    one payload byte at offset 8. *)
Lemma calculateCRC32_is_standard_witness :
  calculateCRC32 check_input = 0xCBF43926 /\
  CRC32Std.crc32 (map u8 check_input) = 0xCBF43926 /\
  encode (RotateOp (Number (int 90))) = Ok msg_rotate_90 /\
  readUInt32LE msg_rotate_90 8 = Ok (calculateCRC32 [x5a]) /\
  readUInt32LE msg_rotate_90 8 = Ok (CRC32Std.crc32 [90]).
Proof.
  destruct calculateCRC32_is_standard as (Hstd & Hok & Hfield).
  assert (He : encode (RotateOp (Number (int 90))) = Ok msg_rotate_90)
    by (vm_compute; reflexivity).
  destruct (Hfield _ _ He) as (hdr & payload & _ & _ & Hp & Hr & Hs).
  assert (Ep : payload = [x5a])
    by (vm_compute in Hp; injection Hp as <-; reflexivity).
  subst payload.
  split; [vm_compute; reflexivity|].
  split; [rewrite <- Hstd; vm_compute; reflexivity|].
  split; [exact He|]. split; [exact Hr | exact Hs].
Defined.

(** C10: when [decode] succeeds on a buffer it succeeds with the same
    operation on the buffer followed by any further bytes. *)
Theorem decode_ignores_trailing_bytes (b t : Buffer) (op : Operation) :
  decode b = Ok op -> decode (b ++ t) = Ok op.
Proof.
  intros H. apply decode_ok_inv in H
    as (b0 & b1 & b2 & b3 & b4 & b5 & b6 & b7 & b8 & b9 & b10 & b11
        & rest & -> & Hv & Hn & Hc & Hp).
  cbn [app]. rewrite decode_cons12, Hv, Z.eqb_refl. cbn [negb].
  pose proof (le32_range b4 b5 b6 b7) as Hr.
  assert (Hlt : (Buf.length (rest ++ t) <? le32 b4 b5 b6 b7) = false).
  { apply Z.ltb_ge. unfold Buf.length in *. rewrite length_app. lia. }
  rewrite Hlt. cbv zeta.
  rewrite firstn_app_le by (rewrite Z2Nat.id; lia).
  rewrite Hc, Z.eqb_refl. cbn [negb]. exact Hp.
Qed.

(** C10 at the encoding of ROTATE by 90 followed by two more bytes. *)
Lemma decode_ignores_trailing_bytes_witness :
  decode msg_rotate_90 = Ok (RotateOp (Number (int 90))) /\
  decode (msg_rotate_90 ++ [xff; x00]) = Ok (RotateOp (Number (int 90))).
Proof.
  assert (H : decode msg_rotate_90 = Ok (RotateOp (Number (int 90))))
    by (vm_compute; reflexivity).
  split; [exact H|].
  exact (@decode_ignores_trailing_bytes msg_rotate_90 [xff; x00] _ H).
Defined.

Lemma msg_rotate_45_checks : passesHeaderChecks msg_rotate_45 ROTATE [x2d].
Proof.
  repeat split; try (vm_compute; congruence).
  exists 1. repeat split; vm_compute; congruence.
Qed.

Lemma msg_compress_5_checks :
  passesHeaderChecks msg_compress_5 COMPRESS [x05].
Proof.
  repeat split; try (vm_compute; congruence).
  exists 1. repeat split; vm_compute; congruence.
Qed.

Lemma msg_resize_5_checks :
  passesHeaderChecks msg_resize_5 RESIZE
    [x05; x00; x00; x00; x00; x00; x00; x00].
Proof.
  repeat split; try (vm_compute; congruence).
  exists 8. repeat split; vm_compute; congruence.
Qed.

(** C3, as stated, fails: a message of type ROTATE with payload byte 45,
    one of type COMPRESS with payload byte 5 and one of type RESIZE with
    width 5 pass the header checks, and [decode] returns the operations,
    which do not validate. *)
Lemma decode_returns_out_of_range :
  passesHeaderChecks msg_rotate_45 ROTATE [x2d] /\
  decode msg_rotate_45 = Ok (RotateOp (Number (int 45))) /\
  validate (RotateOp (Number (int 45))) = false /\
  passesHeaderChecks msg_compress_5 COMPRESS [x05] /\
  decode msg_compress_5 = Ok (CompressOp (Number (int 5))) /\
  validate (CompressOp (Number (int 5))) = false /\
  passesHeaderChecks msg_resize_5 RESIZE
    [x05; x00; x00; x00; x00; x00; x00; x00] /\
  decode msg_resize_5 = Ok (ResizeOp (Number (int 5)) Undefined) /\
  validate (ResizeOp (Number (int 5)) Undefined) = false.
Proof.
  split; [exact msg_rotate_45_checks|].
  split; [vm_compute; reflexivity|].
  split; [vm_compute; reflexivity|].
  split; [exact msg_compress_5_checks|].
  split; [vm_compute; reflexivity|].
  split; [vm_compute; reflexivity|].
  split; [exact msg_resize_5_checks|].
  split; vm_compute; reflexivity.
Qed.

(** C3, amended: for every buffer that passes the header checks, names one
    of the four operation types and carries a payload long enough for it
    (one byte, eight for RESIZE), [decode] succeeds and returns the
    operation of that type built from the payload bytes, whatever their
    values, without calling [validate]: ROTATE and COMPRESS with the first
    payload byte as parameter, FLIP with bits 0 and 1 of the first byte as
    flags, RESIZE with the two little-endian 32-bit words as width and
    height, a word of zero read as absent. *)
Theorem decode_does_not_validate (data payload : Buffer) (t : Z) :
  passesHeaderChecks data t payload ->
  t = ROTATE \/ t = FLIP \/ t = RESIZE \/ t = COMPRESS ->
  payloadSize t <= Buf.length payload ->
  exists op,
    decode data = Ok op /\ type op = t /\
    (forall d rest, payload = d :: rest -> t = ROTATE ->
                    op = RotateOp (Number (int (u8 d)))) /\
    (forall d rest, payload = d :: rest -> t = FLIP ->
                    op = FlipOp (Bool (Z.testbit (u8 d) 0))
                                (Bool (Z.testbit (u8 d) 1))) /\
    (forall a0 a1 a2 a3 a4 a5 a6 a7 rest,
       payload = a0 :: a1 :: a2 :: a3 :: a4 :: a5 :: a6 :: a7 :: rest ->
       t = RESIZE ->
       op = ResizeOp (dimension (le32 a0 a1 a2 a3))
                     (dimension (le32 a4 a5 a6 a7))) /\
    (forall d rest, payload = d :: rest -> t = COMPRESS ->
                    op = CompressOp (Number (int (u8 d)))).
Proof.
  intros Hh Ht Hl. apply decode_after_checks in Hh. rewrite Hh.
  destruct (decodePayload_total payload Ht Hl) as (op & Hop & Hty).
  exists op. split; [exact Hop|]. split; [exact Hty|].
  split; [|split; [|split]].
  - intros d rest -> ->. rewrite decodePayload_rotate_byte in Hop.
    congruence.
  - intros d rest -> ->. rewrite decodePayload_flip_byte in Hop.
    congruence.
  - intros a0 a1 a2 a3 a4 a5 a6 a7 rest -> ->.
    rewrite decodePayload_resize_bytes in Hop. congruence.
  - intros d rest -> ->. rewrite decodePayload_compress_byte in Hop.
    congruence.
Qed.

(** C3 amended, at the message of type RESIZE with width 5: it passes the
    header checks and [decode] returns the RESIZE to width 5, which does
    not validate. *)
Lemma decode_does_not_validate_witness :
  passesHeaderChecks msg_resize_5 RESIZE
    [x05; x00; x00; x00; x00; x00; x00; x00] /\
  decode msg_resize_5 = Ok (ResizeOp (Number (int 5)) Undefined) /\
  validate (ResizeOp (Number (int 5)) Undefined) = false.
Proof.
  assert (Hl : payloadSize RESIZE
               <= Buf.length [x05; x00; x00; x00; x00; x00; x00; x00])
    by (vm_compute; congruence).
  destruct (@decode_does_not_validate msg_resize_5
              [x05; x00; x00; x00; x00; x00; x00; x00] RESIZE
              msg_resize_5_checks
              (or_intror (or_intror (or_introl eq_refl))) Hl)
    as (op & Hd & _ & _ & _ & Hr & _).
  specialize (Hr _ _ _ _ _ _ _ _ _ eq_refl eq_refl). subst op.
  split; [exact msg_resize_5_checks|].
  split; [exact Hd | vm_compute; reflexivity].
Defined.

End IEv1Claims.

(* ------------------------------------------------------------------ *)
(** ** IEv1: one flipped bit                                          *)
(* ------------------------------------------------------------------ *)

Module TamperClaims.
Import JS Op Buf IEv1 Wire Tamper BufFacts CRCFacts IEv1Facts TamperFacts.

(** In a RESIZE message the two low bits of the type field turn the type
    into FLIP or ROTATE, for which the eight payload bytes are enough. *)
Lemma tamper_resize_type (payload : Buffer) (j : nat) :
  Buf.length payload = 8 -> (j = 0 \/ j = 1)%nat ->
  decode (flipAt (header RESIZE (Buf.length payload)
                    (calculateCRC32 payload) ++ payload) 2 j)
  = decodePayload (if (j =? 0)%nat then FLIP else ROTATE) payload.
Proof.
  intros Hlen Hj.
  assert (Hn : 0 <= Buf.length payload < 2 ^ 32) by lia.
  pose proof (calculateCRC32_range payload) as Hc.
  unfold header. cbn [app flipAt]. rewrite decode_cons12.
  rewrite le16_bytes by (unfold PROTOCOL_VERSION; lia).
  rewrite Z.eqb_refl. cbn [negb].
  rewrite (le32_bytes Hn), (le32_bytes Hc), Z.ltb_irrefl. cbv zeta.
  rewrite firstn_length_all, Z.eqb_refl. cbn [negb].
  destruct Hj as [-> | ->];
    match goal with
    | |- context [decodePayload ?t' payload] =>
        let v := eval vm_compute in t' in change t' with v
    end; reflexivity.
Qed.

Lemma nth_12_framed t n c (payload : Buffer) :
  nth 12 (header t n c ++ payload) x00 = nth 0 payload x00.
Proof. reflexivity. Qed.

Lemma length_framed (t n c : Z) (payload : Buffer) :
  List.length (header t n c ++ payload) = (12 + List.length payload)%nat.
Proof. reflexivity. Qed.

(** C2, as stated, fails: in the encoding of RESIZE to width 800, flipping
    bit 0 of the type field (bit 16 of the buffer) gives a buffer that
    [decode] accepts, as a FLIP. *)
Lemma flipped_type_bit_not_detected :
  validate (ResizeOp (Number (int 800)) Undefined) = true /\
  encode (ResizeOp (Number (int 800)) Undefined) = Ok msg_resize_800 /\
  (16 < 8 * List.length msg_resize_800)%nat /\
  decode (flipBit msg_resize_800 16) = Ok (FlipOp (Bool false) (Bool false)).
Proof.
  split; [vm_compute; reflexivity|]. split; [vm_compute; reflexivity|].
  split; [cbn; lia | vm_compute; reflexivity].
Qed.

(** C2, amended: for every valid operation [op] and every bit position [i]
    of [b = encode op], decoding [b] with bit [i] flipped fails, except when
    [op] is a RESIZE and [i] is bit 0 or bit 1 of the type field (bits 16
    and 17 of the buffer): there [decode] succeeds and returns, for bit 16,
    the FLIP whose flags are bits 0 and 1 of the first payload byte (byte
    12 of the buffer), and for bit 17 the ROTATE by the first payload
    byte. *)
Theorem tamper_detection (op : Operation) (b : Buffer) (i : nat) :
  validate op = true -> encode op = Ok b -> (i < 8 * List.length b)%nat ->
  if (type op =? RESIZE) && (i =? 16)%nat then
    decode (flipBit b i)
    = Ok (FlipOp (Bool (Z.testbit (u8 (nth 12 b x00)) 0))
                 (Bool (Z.testbit (u8 (nth 12 b x00)) 1)))
  else if (type op =? RESIZE) && (i =? 17)%nat then
    decode (flipBit b i) = Ok (RotateOp (Number (int (u8 (nth 12 b x00)))))
  else is_err (decode (flipBit b i)) = true.
Proof.
  intros _ He Hi. apply encode_inv in He as (payload & Hp & ->).
  pose proof (encodePayload_length _ Hp) as Hlen.
  rewrite length_framed in Hi. rewrite nth_12_framed. unfold flipBit.
  pose proof (Nat.div_mod_eq i 8) as Hdm.
  assert (Hj : (i mod 8 < 8)%nat) by (apply Nat.mod_upper_bound; lia).
  destruct (Z.eqb_spec (type op) RESIZE) as [Et|Et]; cbn [andb].
  - rewrite Et in *. change (payloadSize RESIZE) with 8 in Hlen.
    assert (Hp8 : exists a0 rest, payload = a0 :: rest).
    { destruct payload as [|a0 rest];
        [unfold Buf.length in Hlen; cbn in Hlen; lia|].
      exists a0, rest. reflexivity. }
    destruct Hp8 as (a0 & rest & Epay).
    destruct (Nat.eqb_spec i 16) as [->|N16].
    + change (16 / 8)%nat with 2%nat. change (16 mod 8)%nat with 0%nat.
      rewrite tamper_resize_type by auto. cbn [Nat.eqb].
      rewrite Epay. cbn [nth]. apply decodePayload_flip_byte.
    + destruct (Nat.eqb_spec i 17) as [->|N17].
      * change (17 / 8)%nat with 2%nat. change (17 mod 8)%nat with 1%nat.
        rewrite tamper_resize_type by auto. cbn [Nat.eqb].
        rewrite Epay. cbn [nth]. apply decodePayload_rotate_byte.
      * apply tamper_framed; try assumption.
        -- auto.
        -- lia.
        -- intros (_ & Ek & Ej). lia.
  - apply tamper_framed; try assumption.
    + apply type_cases.
    + lia.
    + intros (E3 & _). apply Et. exact E3.
Qed.

(** C2 amended, at the encoding of ROTATE by 90 with bit 100 (in the
    payload byte) flipped, and at that of RESIZE to width 800 with bits 16
    and 17 flipped. *)
Lemma tamper_detection_witness :
  is_err (decode (flipBit msg_rotate_90 100)) = true /\
  decode (flipBit msg_resize_800 16) = Ok (FlipOp (Bool false) (Bool false)) /\
  decode (flipBit msg_resize_800 17) = Ok (RotateOp (Number (int 32))).
Proof.
  split; [|split].
  - apply (tamper_detection (RotateOp (Number (int 90)))
             (b := msg_rotate_90) (i := 100));
      [vm_compute; reflexivity | vm_compute; reflexivity | cbn; lia].
  - apply (tamper_detection (ResizeOp (Number (int 800)) Undefined)
             (b := msg_resize_800) (i := 16));
      [vm_compute; reflexivity | vm_compute; reflexivity | cbn; lia].
  - apply (tamper_detection (ResizeOp (Number (int 800)) Undefined)
             (b := msg_resize_800) (i := 17));
      [vm_compute; reflexivity | vm_compute; reflexivity | cbn; lia].
Defined.

End TamperClaims.

(* ------------------------------------------------------------------ *)
(** ** Revision service                                               *)
(* ------------------------------------------------------------------ *)

Module SvcFacts.
Import JS Op Svc Scenario.

Lemma fetchSource_inv env b path w src w' :
  fetchSource env b path w = (Ok src, w') ->
  w' = w /\ stored env b path w = Some src.
Proof.
  unfold fetchSource, stored, readFile, download.
  destruct (USE_LOCAL_STORAGE env).
  - destruct (lookup b (basename path) (local_storage w)); intros [= <- <-]; auto.
  - destruct (lookup b path (gcs w)); intros [= <- <-]; auto.
Qed.

Lemma toBuffer_inv env op src w out w' :
  toBuffer env op src w = (Ok out, w') ->
  w' = w /\ validate op = true /\ sharp env op src = Ok out.
Proof.
  unfold toBuffer. destruct (validate op); [|discriminate].
  intros [= H <-]. auto.
Qed.

(** What a successful run of the locked callback did. *)
Lemma applyOpLocked_ok env imageId op w r w' :
  applyOpLocked env imageId op w = (Ok r, w') ->
  exists image src out w1,
    find (fun i => (ImageRecord.id i =? imageId)%string) (images w) = Some image /\
    let parent := latest_row imageId (revisions w) in
    stored env (sourceBucketOf parent) (sourcePathOf parent image) w
      = Some src /\
    sharp env op src = Ok out /\
    storeResult env image imageId (uuidv4 env) out w
      = (Ok (RevisionRecord.storage_path r), w1) /\
    r = RevisionRecord.mk (uuid_generate_v4 env) imageId
          (or_null (option_map RevisionRecord.id parent))
          (type op) (jsonb op) (RevisionRecord.storage_path r) (NOW env) /\
    redis_up env = true /\
    images w' = images w /\
    revisions w' = revisions w ++ [r] /\
    gcs w' = gcs w1 /\ local_storage w' = local_storage w1.
Proof.
  unfold applyOpLocked, bind, getImage, getLatestRevision, throw.
  destruct (find (fun i => (ImageRecord.id i =? imageId)%string) (images w))
    as [image|] eqn:Ei; [|discriminate].
  destruct (fetchSource env _ _ w) as [[src|e] w0] eqn:Ef; [|discriminate].
  apply fetchSource_inv in Ef as [-> Hs].
  destruct (toBuffer env op src w) as [[out|e] w0] eqn:Et; [|discriminate].
  apply toBuffer_inv in Et as (-> & _ & Hc).
  destruct (storeResult env image imageId (uuidv4 env) out w)
    as [[path|e] w1] eqn:Est; [|discriminate].
  assert (Hw1 : images w1 = images w /\ revisions w1 = revisions w).
  { unfold storeResult, uploadResult, bind, writeFile, ret in Est.
    destruct (USE_LOCAL_STORAGE env); injection Est as _ <-; auto. }
  destruct Hw1 as [Hi1 Hr1].
  unfold createRevision, invalidateThumbnail, ret.
  destruct (redis_up env) eqn:Er; [|discriminate].
  intros [= <- <-]. cbn.
  exists image, src, out, w1. rewrite Hi1, Hr1. repeat split; auto.
Qed.

(** [applyOp] with the database: the operation validated, the lock query
    took the id, and the locked callback ran to its end. *)
Lemma applyOp_ok_uuid env imageId op w r w' :
  SKIP_DB_CHECK env = false ->
  applyOp env imageId op w = (Ok r, w') ->
  validate op = true /\ is_uuid imageId = true /\
  applyOpLocked env imageId op w = (Ok r, w').
Proof.
  intros Hdb. unfold applyOp, withImageLock, bind, lockImage, throw.
  rewrite Hdb.
  destruct (validate op); [|discriminate]. cbn [negb].
  destruct (is_uuid imageId); [|discriminate].
  destruct (applyOpLocked env imageId op w) as [[r0|e] w0];
    [|discriminate].
  intros [= <- <-]. auto.
Qed.

Lemma applyOp_ok env imageId op w r w' :
  SKIP_DB_CHECK env = false ->
  applyOp env imageId op w = (Ok r, w') ->
  validate op = true /\ applyOpLocked env imageId op w = (Ok r, w').
Proof.
  intros Hdb H. apply applyOp_ok_uuid in H as (Hv & _ & H); auto.
Qed.

(** [applyOp] with the database on an operation that validates. *)
Lemma applyOp_locked env imageId op w :
  SKIP_DB_CHECK env = false -> validate op = true ->
  applyOp env imageId op w
  = if is_uuid imageId then
      match applyOpLocked env imageId op w with
      | (Ok r, w') => (Ok r, w')
      | (Err e, w') => (Err e, rollback w w')
      end
    else (Err InvalidTextRepresentation, rollback w w).
Proof.
  intros Hdb Hv. unfold applyOp, withImageLock, bind, lockImage, throw.
  rewrite Hdb, Hv. cbn [negb]. destruct (is_uuid imageId); reflexivity.
Qed.

Lemma lookup_head {V} b path (v : V) store :
  lookup b path ((b, path, v) :: store) = Some v.
Proof.
  unfold lookup, at_key. cbn [find fst snd].
  rewrite String.eqb_refl.
  destruct b; reflexivity.
Qed.

(** The write of the result in cloud mode. *)
Lemma storeResult_cloud env image imageId revisionId out w path w1 :
  USE_LOCAL_STORAGE env = false ->
  storeResult env image imageId revisionId out w = (Ok path, w1) ->
  lookup results path (gcs w1)
  = Some {| contentType := ImageRecord.mime_type image; body := out |}.
Proof.
  intros Hc. unfold storeResult, uploadResult. rewrite Hc.
  intros [= <- <-]. cbn [gcs]. apply lookup_head.
Qed.

Lemma or_null_some (x : string) : x <> ""%string -> or_null (Some x) = Some x.
Proof.
  intros H. cbn. destruct (String.eqb_spec x ""); [contradiction|reflexivity].
Qed.

Lemma or_null_inv x y : or_null x = Some y -> x = Some y.
Proof.
  destruct x as [v|]; cbn; [|discriminate].
  destruct (v =? "")%string; [discriminate|]. trivial.
Qed.

Lemma pick_latest_in best r :
  pick_latest best r = Some r \/ pick_latest best r = best.
Proof.
  unfold pick_latest. destruct best as [b|]; [|auto].
  destruct (_ <? _)%Z; auto.
Qed.

Lemma fold_pick_latest_in rows best x :
  fold_left pick_latest rows best = Some x -> best = Some x \/ In x rows.
Proof.
  revert best. induction rows as [|r rows IH]; intros best H; [auto|].
  cbn [fold_left] in H. apply IH in H as [H|H]; [|right; right; exact H].
  destruct (pick_latest_in best r) as [E|E]; rewrite E in H.
  - injection H as ->. right. left. reflexivity.
  - auto.
Qed.

(** The row [getLatestRevision] returns is a row of the table. *)
Lemma latest_row_in imageId rows x :
  latest_row imageId rows = Some x -> In x rows.
Proof.
  unfold latest_row. intros H.
  apply fold_pick_latest_in in H as [H|H]; [discriminate|].
  apply filter_In in H as [H _]. exact H.
Qed.

(** [undo] read two rows and touched Redis only. *)
Lemma undo_ok env imageId w p w' :
  undo env imageId w = (Ok p, w') ->
  exists cur,
    latest_row imageId (revisions w) = Some cur /\
    RevisionRecord.parent_id cur = Some (RevisionRecord.id p) /\
    In p (revisions w) /\
    images w' = images w /\ revisions w' = revisions w /\
    gcs w' = gcs w /\ local_storage w' = local_storage w.
Proof.
  unfold undo, bind, getLatestRevision, getRevision, throw, ret,
    invalidateThumbnail.
  destruct (latest_row imageId (revisions w)) as [cur|]; [|discriminate].
  destruct (or_null (RevisionRecord.parent_id cur)) as [pid|] eqn:Ep;
    [|discriminate].
  apply or_null_inv in Ep.
  destruct (find (fun r => (RevisionRecord.id r =? pid)%string) (revisions w))
    as [parent|] eqn:Ef; [|discriminate].
  destruct (redis_up env); [|discriminate].
  intros [= <- <-]. cbn.
  apply find_some in Ef as [Hin Hid]. apply String.eqb_eq in Hid.
  exists cur. rewrite Ep, Hid. repeat split; auto.
Qed.

Lemma applyOpLocked_split env imageId op w :
  bind (lockImage imageId) (fun _ => applyOpLocked env imageId op) w
  = bind (applyOpUpToInsert env imageId op)
      (fun revision =>
         bind (invalidateThumbnail env imageId) (fun _ => ret revision)) w.
Proof.
  unfold applyOpLocked, applyOpUpToInsert, bind, lockImage, getImage,
    getLatestRevision, throw.
  destruct (is_uuid imageId); [|reflexivity].
  destruct (find _ (images w)) as [image|]; [|reflexivity].
  destruct (fetchSource env _ _ w) as [[src|e] w0]; [|reflexivity].
  destruct (toBuffer env op src w0) as [[out|e] w1]; [|reflexivity].
  destruct (storeResult env image imageId (uuidv4 env) out w1)
    as [[path|e] w2]; reflexivity.
Qed.

End SvcFacts.

Module SvcClaims.
Import JS Op Svc Scenario SvcFacts.
Local Open Scope string_scope.

(** C5, as stated, fails: COMPRESS on the uploaded PNG succeeds and the
    result is written with content type image/png. *)
Lemma compress_png_recorded_as_png :
  ImageRecord.mime_type png = "image/png" /\
  option_map RevisionRecord.storage_path
    (match fst compress_png with Ok r => Some r | Err _ => None end)
  = Some (i1 ++ "_a3.png") /\
  lookup results (i1 ++ "_a3.png") (gcs (snd compress_png))
  = Some {| contentType := "image/png"; body := pixels |}.
Proof. repeat split. Qed.

(** C5, amended: for every successful [applyOp] that goes through the
    database and writes to cloud storage, the content type recorded on the
    result object is the [mime_type] of the image row, for COMPRESS as for
    ROTATE, FLIP and RESIZE; its body is what the codec made of the source
    bytes. *)
Theorem result_content_type_is_image_mime env imageId op w r w' :
  SKIP_DB_CHECK env = false ->
  USE_LOCAL_STORAGE env = false ->
  applyOp env imageId op w = (Ok r, w') ->
  exists image src out,
    find (fun i => (ImageRecord.id i =? imageId)) (images w)
      = Some image /\
    stored env (sourceBucketOf (latest_row imageId (revisions w)))
      (sourcePathOf (latest_row imageId (revisions w)) image) w = Some src /\
    sharp env op src = Ok out /\
    lookup results (RevisionRecord.storage_path r) (gcs w')
    = Some {| contentType := ImageRecord.mime_type image; body := out |}.
Proof.
  intros Hdb Hc H. apply applyOp_ok in H as [_ H]; [|exact Hdb].
  apply applyOpLocked_ok in H
    as (image & src & out & w1 & Hi & Hs & Hout & Hst & _ & _ & _ & _ & Hg & _).
  exists image, src, out. repeat split; try assumption.
  rewrite Hg. eapply storeResult_cloud; eassumption.
Qed.

(** C5 amended, at COMPRESS on the uploaded PNG. *)
Lemma result_content_type_is_image_mime_witness :
  exists image src out,
    find (fun i => (ImageRecord.id i =? i1)) (images uploaded)
      = Some image /\
    stored cloud (sourceBucketOf (latest_row i1 (revisions uploaded)))
      (sourcePathOf (latest_row i1 (revisions uploaded)) image) uploaded
      = Some src /\
    sharp cloud (CompressOp (Number (int 50))) src = Ok out /\
    lookup results (i1 ++ "_a3.png") (gcs (snd compress_png))
    = Some {| contentType := ImageRecord.mime_type image; body := out |}.
Proof.
  exact (@result_content_type_is_image_mime cloud i1 (CompressOp (Number (int 50)))
           uploaded _ _ eq_refl eq_refl eq_refl).
Defined.

(** C6: for every successful [applyOp] through the database on an image
    whose revision rows have proper ids, the source bytes are those held in
    the results bucket at the latest revision's [storage_path], and the
    committed row has that revision's [id] as [parent_id]; with no revision
    they are those held in the raw bucket at the image's [original_path],
    and [parent_id] is null. *)
Theorem applyOp_source_and_parent env imageId op w r w' :
  SKIP_DB_CHECK env = false ->
  ids_nonempty w ->
  applyOp env imageId op w = (Ok r, w') ->
  exists image src out,
    find (fun i => (ImageRecord.id i =? imageId)) (images w)
      = Some image /\
    sharp env op src = Ok out /\
    revisions w' = (revisions w ++ [r])%list /\
    RevisionRecord.image_id r = imageId /\
    match latest_row imageId (revisions w) with
    | Some parent =>
        stored env results (RevisionRecord.storage_path parent) w = Some src /\
        RevisionRecord.parent_id r = Some (RevisionRecord.id parent)
    | None =>
        stored env raw (ImageRecord.original_path image) w = Some src /\
        RevisionRecord.parent_id r = None
    end.
Proof.
  intros Hdb Hids H. apply applyOp_ok in H as [_ H]; [|exact Hdb].
  apply applyOpLocked_ok in H
    as (image & src & out & w1 & Hi & Hs & Hout & _ & Hr & _ & _ & Hrev & _).
  exists image, src, out.
  split; [exact Hi|]. split; [exact Hout|]. split; [exact Hrev|].
  split; [rewrite Hr; reflexivity|].
  cbv zeta in Hs.
  destruct (latest_row imageId (revisions w)) as [parent|] eqn:El.
  - split; [exact Hs|]. rewrite Hr. cbn [RevisionRecord.parent_id option_map].
    apply or_null_some, Hids. eapply latest_row_in, El.
  - split; [exact Hs|]. rewrite Hr. reflexivity.
Qed.

Lemma edited_ids_nonempty : ids_nonempty edited.
Proof.
  intros x [<- | [<- | []]]; discriminate.
Qed.

(** C6 at a rotation of the edited image, whose latest revision is
    [rev2]. *)
Lemma applyOp_source_and_parent_witness :
  exists image src out,
    find (fun i => (ImageRecord.id i =? i1)) (images edited)
      = Some image /\
    sharp cloud (RotateOp (Number (int 180))) src = Ok out /\
    revisions (snd (applyOp cloud i1 (RotateOp (Number (int 180))) edited))
    = (revisions edited ++ [RevisionRecord.mk "r3" i1 (Some "r2") 1
                              (RotateOp (Number (int 180))) (i1 ++ "_a3.png") 30])%list /\
    i1 = i1 /\
    stored cloud results (i1 ++ "_a2.png") edited = Some src /\
    Some "r2" = Some "r2".
Proof.
  exact (@applyOp_source_and_parent cloud i1 (RotateOp (Number (int 180))) edited _ _
           eq_refl edited_ids_nonempty eq_refl).
Defined.

(** C4, as stated, fails: after a rotation [rev1] and a flip [rev2], [undo]
    returns [rev1], yet [getLatestRevision] still returns [rev2] and the
    next [applyOp] takes [rev2] as parent. *)
Lemma undo_leaves_latest :
  fst undone = Ok rev1 /\
  fst (getLatestRevision i1 (snd undone)) = Ok (Some rev2) /\
  rev2 <> rev1 /\
  option_map RevisionRecord.parent_id
    (match fst (applyOp cloud i1 (RotateOp (Number (int 180))) (snd undone)) with
     | Ok r => Some r
     | Err _ => None
     end) = Some (Some "r2").
Proof.
  split; [reflexivity|]. split; [reflexivity|].
  split; [discriminate | reflexivity].
Qed.

(** C4, amended: a successful [undo] returns the revision [p] that the
    latest revision [cur] names as parent and changes neither table, so
    immediately afterwards [getLatestRevision] still returns [cur], and a
    subsequent [applyOp] through the database records [cur], not [p], as
    the parent of the new revision. *)
Theorem undo_returns_parent_keeps_latest env imageId w p w' :
  undo env imageId w = (Ok p, w') ->
  exists cur,
    latest_row imageId (revisions w) = Some cur /\
    RevisionRecord.parent_id cur = Some (RevisionRecord.id p) /\
    revisions w' = revisions w /\
    getLatestRevision imageId w' = (Ok (Some cur), w') /\
    forall env2 op r w'',
      SKIP_DB_CHECK env2 = false ->
      applyOp env2 imageId op w' = (Ok r, w'') ->
      RevisionRecord.parent_id r = or_null (Some (RevisionRecord.id cur)).
Proof.
  intros H. apply undo_ok in H as (cur & Hl & Hp & _ & _ & Hr & _).
  exists cur. split; [exact Hl|]. split; [exact Hp|]. split; [exact Hr|].
  split.
  - unfold getLatestRevision. rewrite Hr, Hl. reflexivity.
  - intros env2 op r w'' Hdb Ha.
    apply applyOp_ok in Ha as [_ Ha]; [|exact Hdb].
    apply applyOpLocked_ok in Ha
      as (image & src & out & w1 & _ & _ & _ & _ & Hrec & _).
    cbv zeta in Hrec. rewrite Hr, Hl in Hrec. rewrite Hrec. reflexivity.
Qed.

(** C4 amended, at [undo] on the edited image. *)
Lemma undo_returns_parent_keeps_latest_witness :
  exists cur,
    latest_row i1 (revisions edited) = Some cur /\
    RevisionRecord.parent_id cur = Some (RevisionRecord.id rev1) /\
    revisions (snd undone) = revisions edited /\
    getLatestRevision i1 (snd undone) = (Ok (Some cur), snd undone) /\
    forall env2 op r w'',
      SKIP_DB_CHECK env2 = false ->
      applyOp env2 i1 op (snd undone) = (Ok r, w'') ->
      RevisionRecord.parent_id r = or_null (Some (RevisionRecord.id cur)).
Proof.
  exact (@undo_returns_parent_keeps_latest cloud i1 edited rev1
           (snd undone) eq_refl).
Defined.

(** C9, as stated, fails: with Redis down, [applyOp] on the uploaded image
    inserts the row and then rejects with the cache error; the row is
    rolled back. *)
Lemma cache_failure_fails_applyOp :
  is_ok (fst (applyOpUpToInsert (with_redis cloud false) i1 (RotateOp (Number (int 90)))
                uploaded)) = true /\
  fst rotate_redis_down = Err CacheError /\
  revisions (snd rotate_redis_down) = [].
Proof. repeat split. Qed.

(** C9, amended: if every step of [applyOp] up to and including the
    insertion of the revision row succeeds but the thumbnail invalidation
    fails, [applyOp] fails with the cache error and the transaction is
    rolled back: the two tables are as before the call, the new row is not
    among the revisions, and the result written to storage stays. *)
Theorem cache_failure_rolls_back env imageId op w r w1 :
  SKIP_DB_CHECK env = false ->
  validate op = true ->
  applyOpUpToInsert env imageId op w = (Ok r, w1) ->
  redis_up env = false ->
  applyOp env imageId op w = (Err CacheError, rollback w w1) /\
  revisions (rollback w w1) = revisions w /\
  images (rollback w w1) = images w /\
  gcs (rollback w w1) = gcs w1 /\
  local_storage (rollback w w1) = local_storage w1.
Proof.
  intros Hdb Hv Hins Hdown. split; [|repeat split].
  unfold applyOp, withImageLock. rewrite Hv, Hdb. cbn [negb].
  rewrite applyOpLocked_split. unfold bind at 1. rewrite Hins.
  unfold bind, invalidateThumbnail. rewrite Hdown. reflexivity.
Qed.

(** C9 amended, at a rotation of the uploaded image with Redis down. *)
Lemma cache_failure_rolls_back_witness :
  applyOp (with_redis cloud false) i1 (RotateOp (Number (int 90))) uploaded
  = (Err CacheError,
     rollback uploaded
       (snd (applyOpUpToInsert (with_redis cloud false) i1 (RotateOp (Number (int 90)))
               uploaded))) /\
  revisions (rollback uploaded
       (snd (applyOpUpToInsert (with_redis cloud false) i1 (RotateOp (Number (int 90)))
               uploaded))) = revisions uploaded.
Proof.
  pose proof (@cache_failure_rolls_back (with_redis cloud false) i1
                (RotateOp (Number (int 90))) uploaded _ _ eq_refl eq_refl eq_refl eq_refl)
    as (H1 & H2 & _).
  split; [exact H1 | exact H2].
Defined.

End SvcClaims.

(* ------------------------------------------------------------------ *)
(** ** IEv1: which operations are encoded, and message lengths        *)
(* ------------------------------------------------------------------ *)

Module EncodeFacts.
Import JS Op Buf IEv1 Wire BufFacts JSFacts CRCFacts IEv1Facts.

(** [encode] returns a buffer exactly when each number it writes (degrees,
    quality, [width || 0], [height || 0], converted to numbers) is NaN or
    in the range of its field; otherwise a write throws.  NaN passes the
    range test of the writes and is stored as 0. *)
Theorem encode_ok_iff_fits (op : Operation) :
  is_ok (encode op) = true <-> fits op.
Proof.
  split.
  - destruct (encode op) as [b|e] eqn:E; [|discriminate]. intros _.
    apply encode_inv in E as (payload & Hp & _).
    eapply encodePayload_fits, Hp.
  - intros H. apply fits_encodePayload in H as [payload Hp].
    rewrite (encode_eq _ Hp). reflexivity.
Qed.

Lemma length_app_header t n c (payload : Buffer) :
  Buf.length (header t n c ++ payload) = HEADER_SIZE + Buf.length payload.
Proof.
  unfold Buf.length, HEADER_SIZE. rewrite length_app.
  change (List.length (header t n c)) with 12%nat. lia.
Qed.

Lemma encode_ok_length (op : Operation) (b : Buffer) :
  encode op = Ok b -> Buf.length b = HEADER_SIZE + payloadSize (type op).
Proof.
  intros H. apply encode_inv in H as (payload & Hp & ->).
  apply encodePayload_length in Hp.
  rewrite length_app_header, Hp. reflexivity.
Qed.

(** An encoded message is the twelve header bytes and the payload of its
    type: 13 bytes, 20 for RESIZE. *)
Theorem encode_length (op : Operation) (b : Buffer) :
  encode op = Ok b ->
  Buf.length b = HEADER_SIZE + payloadSize (type op) /\
  (Buf.length b = 13 \/ Buf.length b = 20).
Proof.
  intros H. apply encode_ok_length in H. split; [exact H|].
  rewrite H. unfold payloadSize, HEADER_SIZE. destruct (_ =? _); auto.
Qed.

(** At the RESIZE message of width 800. *)
Lemma encode_length_witness :
  Buf.length msg_resize_800 = HEADER_SIZE + payloadSize RESIZE /\
  (Buf.length msg_resize_800 = 13 \/ Buf.length msg_resize_800 = 20).
Proof.
  apply (@encode_length (ResizeOp (Number (int 800)) Undefined)
           msg_resize_800).
  vm_compute. reflexivity.
Defined.

End EncodeFacts.

(* ------------------------------------------------------------------ *)
(** ** IEv1: decoded messages, equal encodings, changed payload bytes *)
(* ------------------------------------------------------------------ *)

Module FramingFacts.
Import JS Op Buf IEv1 Wire BufFacts JSFacts CRCFacts IEv1Facts EncodeFacts.

Lemma decode_ok_min_length (data : Buffer) (op : Operation) :
  decode data = Ok op ->
  HEADER_SIZE + payloadSize (type op) <= Buf.length data.
Proof.
  intros H. apply decode_ok_inv in H
    as (b0 & b1 & b2 & b3 & b4 & b5 & b6 & b7 & b8 & b9 & b10 & b11
        & rest & -> & _ & Hn & _ & Hp).
  apply decodePayload_ok_inv in Hp as (Ht & Hl & _).
  rewrite Ht. unfold Buf.length, HEADER_SIZE in *.
  rewrite length_firstn in Hl. cbn [List.length]. lia.
Qed.

(** Whatever [decode] returns can be encoded again, in a buffer no longer
    than the one decoded (the header and the payload of the type, the
    least [decode] accepts), and decoding that buffer gives the same
    operation. *)
Theorem decode_reencodes (data : Buffer) (op : Operation) :
  decode data = Ok op ->
  exists b,
    encode op = Ok b /\ decode b = Ok op /\
    Buf.length b = HEADER_SIZE + payloadSize (type op) /\
    Buf.length b <= Buf.length data.
Proof.
  intros H. pose proof (decode_ok_min_length _ H) as Hmin.
  apply decode_ok_inv in H
    as (b0 & b1 & b2 & b3 & b4 & b5 & b6 & b7 & b8 & b9 & b10 & b11
        & rest & -> & _ & _ & _ & Hp).
  apply decodePayload_ok_inv in Hp as (_ & _ & Hf & Hnorm).
  apply fits_encodePayload in Hf as [payload Hp].
  pose proof (encode_eq _ Hp) as He.
  eexists. split; [exact He|]. split.
  - rewrite (decode_encode _ He), Hnorm. reflexivity.
  - pose proof (encode_ok_length _ He) as Hb. split; [exact Hb|].
    rewrite Hb. exact Hmin.
Qed.

(** At a ROTATE message of 45 degrees followed by one more byte. *)
Lemma decode_reencodes_witness :
  exists b,
    encode (RotateOp (Number (int 45))) = Ok b /\
    decode b = Ok (RotateOp (Number (int 45))) /\
    Buf.length b
    = HEADER_SIZE + payloadSize (type (RotateOp (Number (int 45)))) /\
    Buf.length b <= Buf.length (msg_rotate_45 ++ [x00]).
Proof.
  apply (@decode_reencodes (msg_rotate_45 ++ [x00])
           (RotateOp (Number (int 45)))).
  vm_compute. reflexivity.
Defined.

(** [encode] is not injective; it is so up to what the wire keeps of an
    operation: the integral parts of the numbers (0 for NaN), the truth
    values of the flags, and [undefined] for a dimension that is falsy or
    below 1.  Decoding an encoded operation returns this part of it, and
    another operation has the same encoding exactly when it is encoded at
    all and the wire keeps the same of both. *)
Theorem encode_injective (op1 op2 : Operation) (b : Buffer) :
  encode op1 = Ok b ->
  decode b = Ok (normalize op1) /\
  (encode op2 = Ok b <-> fits op2 /\ normalize op2 = normalize op1).
Proof.
  intros H1. pose proof (decode_encode _ H1) as Hd. split; [exact Hd|].
  split.
  - intros H2. split.
    + apply encode_inv in H2 as (payload & Hp & _).
      eapply encodePayload_fits, Hp.
    + apply decode_encode in H2. congruence.
  - intros [Hf Hn].
    assert (Hf1 : fits op1).
    { apply encode_inv in H1 as (payload & Hp & _).
      eapply encodePayload_fits, Hp. }
    rewrite <- (encode_normalize _ Hf), Hn, (encode_normalize _ Hf1).
    exact H1.
Qed.

(** COMPRESS at the qualities 10 and 10.5, which have the same encoding:
    what is decoded from it is the quality 10. *)
Lemma encode_injective_witness :
  encode (CompressOp (Number (int 10))) = Ok msg_compress_10 /\
  encode (CompressOp ten_and_a_half) = Ok msg_compress_10 /\
  decode msg_compress_10 = Ok (CompressOp (Number (int 10))) /\
  normalize (CompressOp ten_and_a_half) = CompressOp (Number (int 10)).
Proof.
  assert (H1 : encode (CompressOp (Number (int 10))) = Ok msg_compress_10)
    by (vm_compute; reflexivity).
  assert (H2 : encode (CompressOp ten_and_a_half) = Ok msg_compress_10)
    by (vm_compute; reflexivity).
  destruct (@encode_injective (CompressOp (Number (int 10)))
              (CompressOp ten_and_a_half) msg_compress_10 H1) as [Hd Hi].
  split; [exact H1|]. split; [exact H2|]. split; [exact Hd|].
  exact (proj2 (proj1 Hi H2)).
Defined.

Lemma app_split_at (A : Type) (h p pre post : list A) (x : A) :
  h ++ p = pre ++ x :: post -> (List.length h <= List.length pre)%nat ->
  exists pre', pre = h ++ pre' /\ p = pre' ++ x :: post.
Proof.
  revert pre. induction h as [|a h IH]; intros pre H Hl.
  - exists pre. auto.
  - destruct pre as [|a' pre]; [cbn in Hl; lia|].
    cbn [app] in H. injection H as -> H.
    destruct (IH pre H) as (pre' & -> & ->); [cbn in Hl; lia|].
    exists pre'. auto.
Qed.

(** Replacing one payload byte of an encoded message by another value
    makes [decode] fail on the checksum. *)
Theorem payload_byte_change_rejected
    (op : Operation) (pre post : Buffer) (x y : byte) :
  encode op = Ok (pre ++ x :: post) ->
  HEADER_SIZE <= Buf.length pre ->
  y <> x ->
  decode (pre ++ y :: post) = Err ChecksumMismatch.
Proof.
  intros He Hpre Hxy. apply encode_inv in He as (payload & Hp & He).
  pose proof (encodePayload_length _ Hp) as Hlen.
  symmetry in He. apply app_split_at in He as (pre' & -> & Epay);
    [|unfold Buf.length, HEADER_SIZE in Hpre; cbn [List.length header]; lia].
  rewrite <- app_assoc.
  assert (Hsame : Buf.length (pre' ++ y :: post) = Buf.length payload).
  { rewrite Epay. unfold Buf.length. rewrite !length_app. reflexivity. }
  rewrite decode_header.
  - rewrite <- Hsame, Z.ltb_irrefl. cbv zeta. rewrite firstn_length_all.
    destruct (Z.eqb_spec (calculateCRC32 (pre' ++ y :: post))
                (calculateCRC32 payload)) as [E|_]; [|reflexivity].
    rewrite Epay in E. apply calculateCRC32_one_byte in E; [contradiction|].
    exact Hxy.
  - destruct (type_cases op) as [E|[E|[E|E]]]; rewrite E; lia.
  - rewrite Hlen. unfold payloadSize. destruct (_ =? _); lia.
  - apply calculateCRC32_range.
Qed.

(** The ROTATE message of 90 degrees with 180 in the place of 90. *)
Lemma payload_byte_change_rejected_witness :
  decode ([x01; x00; x01; x00; x01; x00; x00; x00; x67; x57; xbc; x59]
          ++ xb4 :: []) = Err ChecksumMismatch.
Proof.
  apply (@payload_byte_change_rejected (RotateOp (Number (int 90)))
           [x01; x00; x01; x00; x01; x00; x00; x00; x67; x57; xbc; x59]
           [] x5a xb4).
  - vm_compute. reflexivity.
  - vm_compute. discriminate.
  - discriminate.
Defined.

(** The checksum is an unsigned 32-bit number, whatever the sign of the
    intermediate values of the loop. *)
Theorem calculateCRC32_uint32 (data : Buffer) :
  0 <= calculateCRC32 data < 2 ^ 32.
Proof. apply calculateCRC32_range. Qed.
End FramingFacts.

(* ------------------------------------------------------------------ *)
(** ** applyOp: what it appends, what it reads, the latest revision   *)
(* ------------------------------------------------------------------ *)

Module ApplyOpFacts.
Import JS Op Svc Scenario ScenarioMore SvcFacts SvcVocab.
Local Open Scope string_scope.

Lemma rollback_same (w : World) : rollback w w = w.
Proof. destruct w. reflexivity. Qed.

(** [applyOp] through the database never touches the images table and
    never changes or removes a revision row: it appends the row it returns,
    and leaves the table as it was when it fails. *)
Theorem applyOp_appends_or_rolls_back env imageId op w res w' :
  SKIP_DB_CHECK env = false ->
  applyOp env imageId op w = (res, w') ->
  images w' = images w /\
  match res with
  | Ok r => revisions w' = (revisions w ++ [r])%list
  | Err _ => revisions w' = revisions w
  end.
Proof.
  intros Hdb H. destruct res as [r|e].
  - apply applyOp_ok in H as [_ H]; [|exact Hdb].
    apply applyOpLocked_ok in H
      as (image & src & out & w1 & _ & _ & _ & _ & _ & _ & Hi & Hr & _).
    auto.
  - destruct (validate op) eqn:Hv.
    + rewrite (@applyOp_locked env imageId op w Hdb Hv) in H.
      destruct (is_uuid imageId).
      * destruct (applyOpLocked env imageId op w) as [[r0|e0] w0];
          [discriminate|].
        injection H as _ <-. auto.
      * injection H as _ <-. auto.
    + unfold applyOp, throw in H. rewrite Hdb, Hv in H.
      injection H as _ <-. auto.
Qed.

(** A rotation that fails on the cache: the tables are as before. *)
Lemma applyOp_appends_or_rolls_back_witness :
  images (snd rotate_redis_down) = images uploaded /\
  revisions (snd rotate_redis_down) = revisions uploaded.
Proof.
  exact (@applyOp_appends_or_rolls_back (with_redis cloud false) i1
           (RotateOp (Number (int 90))) uploaded (Err CacheError) (snd rotate_redis_down)
           eq_refl eq_refl).
Defined.

Lemma no_row_of_uuid imageId (rows : list ImageRecord.t) :
  (forall i, In i rows ->
     string_to_uuid (ImageRecord.id i) <> string_to_uuid imageId) ->
  find (fun i => ImageRecord.id i =? imageId) rows = None.
Proof.
  intros H. destruct (find _ rows) as [i|] eqn:E; [|reflexivity].
  apply find_some in E as [Hin Hi]. apply String.eqb_eq in Hi.
  exfalso. apply (H i Hin). rewrite Hi. reflexivity.
Qed.

(** With the database and an operation that validates: for an image id
    that PostgreSQL does not read as a uuid, the lock query of
    [withImageLock] fails with [invalid input syntax for type uuid] and
    nothing else runs.  For a uuid that is the id of no image row,
    [applyOp] fails with [Image not found]; for the id of an image row
    with no bytes at the place the source is read from, it fails with the
    storage error.  In each case nothing has been written: the world is
    unchanged. *)
Theorem applyOp_nothing_to_read env imageId op w :
  SKIP_DB_CHECK env = false ->
  validate op = true ->
  if is_uuid imageId then
    ((forall i, In i (images w) ->
        string_to_uuid (ImageRecord.id i) <> string_to_uuid imageId) ->
     applyOp env imageId op w = (Err ImageNotFound, w)) /\
    (forall image,
       find (fun i => ImageRecord.id i =? imageId) (images w) = Some image ->
       let parent := latest_row imageId (revisions w) in
       stored env (sourceBucketOf parent) (sourcePathOf parent image) w = None ->
       applyOp env imageId op w = (Err StorageError, w))
  else applyOp env imageId op w = (Err InvalidTextRepresentation, w).
Proof.
  intros Hdb Hv. rewrite (@applyOp_locked env imageId op w Hdb Hv).
  destruct (is_uuid imageId); [|rewrite rollback_same; reflexivity].
  unfold applyOpLocked, bind, getImage, getLatestRevision, throw. split.
  - intros Hno. rewrite (no_row_of_uuid _ _ Hno), rollback_same.
    reflexivity.
  - intros image Hi. cbv zeta. intros Hs. rewrite Hi.
    unfold fetchSource, readFile, download. unfold stored in Hs.
    destruct (USE_LOCAL_STORAGE env).
    + rewrite Hs, rollback_same. reflexivity.
    + destruct (lookup _ _ (gcs w)); [discriminate|].
      rewrite rollback_same. reflexivity.
Qed.

(** An image id that is no uuid, a uuid that has no row, and an image whose
    latest result is not in the bucket. *)
Lemma applyOp_nothing_to_read_witness :
  applyOp cloud "i9" (RotateOp (Number (int 90))) uploaded
  = (Err InvalidTextRepresentation, uploaded) /\
  applyOp cloud i9 (RotateOp (Number (int 90))) uploaded
  = (Err ImageNotFound, uploaded) /\
  applyOp cloud i1 (RotateOp (Number (int 90))) on_disk
  = (Err StorageError, on_disk).
Proof.
  split; [|split].
  - exact (@applyOp_nothing_to_read cloud "i9" (RotateOp (Number (int 90)))
             uploaded eq_refl eq_refl).
  - apply (@applyOp_nothing_to_read cloud i9 (RotateOp (Number (int 90)))
             uploaded eq_refl eq_refl).
    intros i [<- | []]. discriminate.
  - exact (proj2 (@applyOp_nothing_to_read cloud i1
                    (RotateOp (Number (int 90))) on_disk eq_refl eq_refl)
             png eq_refl eq_refl).
Defined.

Lemma latest_row_image imageId rows x :
  latest_row imageId rows = Some x -> RevisionRecord.image_id x = imageId.
Proof.
  unfold latest_row. intros H.
  apply fold_pick_latest_in in H as [H|H]; [discriminate|].
  apply filter_In in H as [_ H]. apply String.eqb_eq, H.
Qed.

Lemma latest_row_snoc imageId rows r :
  RevisionRecord.image_id r = imageId ->
  (forall x, In x rows -> RevisionRecord.image_id x = imageId ->
             (RevisionRecord.created_at x < RevisionRecord.created_at r)%Z) ->
  latest_row imageId (rows ++ [r])%list = Some r.
Proof.
  intros Hi Hlt. unfold latest_row.
  assert (Ho : of_image imageId r = true)
    by (unfold of_image; rewrite Hi; apply String.eqb_refl).
  rewrite filter_app, fold_left_app. cbn [filter]. rewrite Ho.
  cbn [fold_left].
  destruct (fold_left pick_latest (filter (of_image imageId) rows) None)
    as [b|] eqn:E; [|reflexivity].
  pose proof (latest_row_in imageId rows E) as Hin.
  pose proof (latest_row_image imageId rows E) as Himg.
  specialize (Hlt b Hin Himg). cbn [pick_latest].
  destruct (Z.ltb_spec (RevisionRecord.created_at b)
              (RevisionRecord.created_at r)); [reflexivity | lia].
Qed.

(** After a successful [applyOp] that comes later than the revisions of
    the image, [getLatestRevision] returns the new revision. *)
Theorem applyOp_then_latest env imageId op w r w' :
  SKIP_DB_CHECK env = false ->
  later_than_revisions env imageId w ->
  applyOp env imageId op w = (Ok r, w') ->
  getLatestRevision imageId w' = (Ok (Some r), w').
Proof.
  intros Hdb Hlater H.
  apply applyOp_ok in H as [_ H]; [|exact Hdb].
  apply applyOpLocked_ok in H
    as (image & src & out & w1 & _ & _ & _ & _ & Hr & _ & _ & Hrev & _).
  unfold getLatestRevision. rewrite Hrev. f_equal. f_equal.
  apply latest_row_snoc.
  - rewrite Hr. reflexivity.
  - intros x Hx Hi. rewrite Hr. cbn [RevisionRecord.created_at].
    apply Hlater; assumption.
Qed.

Lemma edited_earlier : later_than_revisions cloud i1 edited.
Proof.
  intros x [<- | [<- | []]] _; cbn; lia.
Qed.

(** A third edit of the image that has two. *)
Lemma applyOp_then_latest_witness :
  getLatestRevision i1 (snd (applyOp cloud i1 (RotateOp (Number (int 180))) edited))
  = (Ok (Some (RevisionRecord.mk "r3" i1 (Some "r2") 1 (RotateOp (Number (int 180)))
                 (i1 ++ "_a3.png") 30)),
     snd (applyOp cloud i1 (RotateOp (Number (int 180))) edited)).
Proof.
  exact (@applyOp_then_latest cloud i1 (RotateOp (Number (int 180))) edited _ _
           eq_refl edited_earlier eq_refl).
Defined.
End ApplyOpFacts.

(* ------------------------------------------------------------------ *)
(** ** applyOp: where the result is stored, two edits in a row        *)
(* ------------------------------------------------------------------ *)

Module StorageFacts.
Import JS Op Svc Scenario SvcFacts SvcVocab ApplyOpFacts.
Local Open Scope string_scope.

Lemma has_slash_app a b : has_slash (a ++ b) = has_slash a || has_slash b.
Proof.
  induction a as [|c a IH]; [reflexivity|].
  cbn [append has_slash]. rewrite IH. apply orb_assoc.
Qed.

Lemma first_name_plain f : has_slash f = false -> first_name f = f.
Proof.
  induction f as [|c f IH]; [reflexivity|]. cbn [has_slash first_name].
  intros H. apply orb_false_elim in H as [Hc H]. rewrite Hc, IH by exact H.
  reflexivity.
Qed.

Lemma later_name_plain f : has_slash f = false -> later_name f = false.
Proof.
  induction f as [|c f IH]; [reflexivity|]. cbn [has_slash later_name].
  intros H. apply orb_false_elim in H as [Hc H]. rewrite Hc. apply IH, H.
Qed.

Lemma has_name_plain f : has_slash f = false -> f <> "" -> has_name f = true.
Proof.
  destruct f as [|c f]; [congruence|]. cbn [has_slash has_name].
  intros H _. apply orb_false_elim in H as [Hc _]. rewrite Hc. reflexivity.
Qed.

(** The base name of a name without a slash is the name. *)
Lemma basename_plain f : has_slash f = false -> basename f = f.
Proof.
  destruct f as [|c f]; [reflexivity|]. intros H.
  pose proof (first_name_plain _ H) as Hf.
  cbn [has_slash] in H. apply orb_false_elim in H as [Hc H].
  cbn [basename]. rewrite Hc, (later_name_plain _ H). exact Hf.
Qed.

Lemma basename_local f :
  has_slash f = false -> f <> "" -> basename ("local/" ++ f) = f.
Proof.
  intros H Hf. cbn. rewrite (has_name_plain H Hf). apply basename_plain, H.
Qed.

Lemma result_file_named imageId revisionId ext :
  imageId ++ "_" ++ revisionId ++ "." ++ ext <> "".
Proof. destruct imageId; discriminate. Qed.

(** The name of the result file has no slash when its parts have none. *)
Lemma result_file_plain imageId revisionId ext :
  has_slash imageId = false -> has_slash revisionId = false ->
  has_slash ext = false ->
  has_slash (imageId ++ "_" ++ revisionId ++ "." ++ ext) = false.
Proof.
  intros H1 H2 H3. rewrite !has_slash_app, H1, H2, H3. reflexivity.
Qed.

(** The write of the result, read back through [stored]. *)
Lemma storeResult_stored env image imageId out w path w1 :
  plain_names env imageId ->
  storeResult env image imageId (uuidv4 env) out w = (Ok path, w1) ->
  stored env results path w1 = Some out.
Proof.
  intros Hplain. unfold storeResult, stored, uploadResult, bind, writeFile, ret.
  destruct (USE_LOCAL_STORAGE env) eqn:El.
  - destruct (Hplain El) as [Hi Hu]. intros [= <- <-].
    cbn [local_storage].
    match goal with
    | |- lookup results (basename ?p) ((results, ?f, out) :: _) = _ =>
        replace (basename p) with f; [apply lookup_head|]
    end.
    symmetry. apply basename_local; [|apply result_file_named].
    apply result_file_plain; try assumption.
    destruct (_ =? _); reflexivity.
  - intros [= <- <-]. cbn [gcs]. rewrite lookup_head. reflexivity.
Qed.

Lemma stored_same_tables env b path w w1 :
  gcs w = gcs w1 -> local_storage w = local_storage w1 ->
  stored env b path w = stored env b path w1.
Proof. unfold stored. intros -> ->. reflexivity. Qed.

(** After a successful [applyOp] the bytes at the new row's
    [storage_path], read the way the next [applyOp] reads its source, are
    what the codec made of this call's source. *)
Theorem applyOp_result_stored env imageId op w r w' :
  SKIP_DB_CHECK env = false ->
  plain_names env imageId ->
  applyOp env imageId op w = (Ok r, w') ->
  exists image src out,
    find (fun i => ImageRecord.id i =? imageId) (images w) = Some image /\
    stored env (sourceBucketOf (latest_row imageId (revisions w)))
      (sourcePathOf (latest_row imageId (revisions w)) image) w = Some src /\
    sharp env op src = Ok out /\
    stored env results (RevisionRecord.storage_path r) w' = Some out.
Proof.
  intros Hdb Hplain H.
  apply applyOp_ok in H as [_ H]; [|exact Hdb].
  apply applyOpLocked_ok in H
    as (image & src & out & w1 & Hi & Hs & Hout & Hst & _ & _ & _ & _
        & Hg & Hl).
  exists image, src, out. repeat split; try assumption.
  rewrite (@stored_same_tables env results _ w' w1 Hg Hl).
  eapply storeResult_stored; eassumption.
Qed.

Lemma cloud_plain imageId : plain_names cloud imageId.
Proof. intros H. discriminate. Qed.

(** The compression of the uploaded PNG. *)
Lemma applyOp_result_stored_witness :
  exists image src out,
    find (fun i => ImageRecord.id i =? i1) (images uploaded) = Some image /\
    stored cloud (sourceBucketOf (latest_row i1 (revisions uploaded)))
      (sourcePathOf (latest_row i1 (revisions uploaded)) image) uploaded
      = Some src /\
    sharp cloud (CompressOp (Number (int 50))) src = Ok out /\
    stored cloud results (i1 ++ "_a3.png") (snd compress_png) = Some out.
Proof.
  exact (@applyOp_result_stored cloud i1 (CompressOp (Number (int 50))) uploaded _ _
           eq_refl (cloud_plain i1) eq_refl).
Defined.

(** Two edits in a row: the second revision has the first as parent; the
    first is made from the source of the image as it was stored, its result
    is the object at its [storage_path], and the second is made from these
    bytes and stored at its own [storage_path]. *)
Theorem applyOp_chain env1 env2 imageId op1 op2 w r1 w1 r2 w2 :
  SKIP_DB_CHECK env1 = false ->
  SKIP_DB_CHECK env2 = false ->
  USE_LOCAL_STORAGE env2 = USE_LOCAL_STORAGE env1 ->
  plain_names env1 imageId ->
  plain_names env2 imageId ->
  later_than_revisions env1 imageId w ->
  uuid_generate_v4 env1 <> "" ->
  applyOp env1 imageId op1 w = (Ok r1, w1) ->
  applyOp env2 imageId op2 w1 = (Ok r2, w2) ->
  RevisionRecord.parent_id r2 = Some (RevisionRecord.id r1) /\
  revisions w2 = (revisions w ++ [r1; r2])%list /\
  exists image src out1 out2,
    find (fun i => ImageRecord.id i =? imageId) (images w) = Some image /\
    stored env1 (sourceBucketOf (latest_row imageId (revisions w)))
      (sourcePathOf (latest_row imageId (revisions w)) image) w = Some src /\
    sharp env1 op1 src = Ok out1 /\
    stored env1 results (RevisionRecord.storage_path r1) w1 = Some out1 /\
    sharp env2 op2 out1 = Ok out2 /\
    stored env2 results (RevisionRecord.storage_path r2) w2 = Some out2.
Proof.
  intros Hdb1 Hdb2 Hmode Hplain1 Hplain2 Hlater Hid H1 H2.
  apply applyOp_ok in H1 as [_ H1]; [|exact Hdb1].
  apply applyOpLocked_ok in H1
    as (image1 & src & out1 & w0 & Hi1 & Hs1 & Hout1 & Hst & Hr & _ & _ & Hrev
        & Hg & Hl).
  assert (Hr1 : RevisionRecord.id r1 = uuid_generate_v4 env1)
    by (rewrite Hr; reflexivity).
  assert (Hlatest : latest_row imageId (revisions w1) = Some r1).
  { rewrite Hrev. apply latest_row_snoc.
    - rewrite Hr. reflexivity.
    - intros x Hx Hi. rewrite Hr. cbn [RevisionRecord.created_at].
      apply Hlater; assumption. }
  assert (Hst1 : stored env1 results (RevisionRecord.storage_path r1) w1
                 = Some out1).
  { rewrite (@stored_same_tables env1 results _ w1 w0 Hg Hl).
    eapply storeResult_stored; eassumption. }
  apply applyOp_ok in H2 as [_ H2]; [|exact Hdb2].
  apply applyOpLocked_ok in H2
    as (image2 & src2 & out2 & w3 & _ & Hs2 & Hout2 & Hst2 & Hr2 & _ & _
        & Hrev2 & Hg2 & Hl2).
  assert (Hst3 : stored env2 results (RevisionRecord.storage_path r2) w2
                 = Some out2).
  { rewrite (@stored_same_tables env2 results _ w2 w3 Hg2 Hl2).
    eapply storeResult_stored; eassumption. }
  cbv zeta in Hs1, Hs2, Hr2. rewrite Hlatest in Hs2, Hr2.
  cbn [sourceBucketOf sourcePathOf option_map] in Hs2, Hr2.
  assert (E : stored env2 results (RevisionRecord.storage_path r1) w1
              = stored env1 results (RevisionRecord.storage_path r1) w1)
    by (unfold stored; rewrite Hmode; reflexivity).
  rewrite E, Hst1 in Hs2. injection Hs2 as <-.
  split; [|split].
  - rewrite Hr2. cbn [RevisionRecord.parent_id].
    apply or_null_some. rewrite Hr1. exact Hid.
  - rewrite Hrev2, Hrev, <- app_assoc. reflexivity.
  - exists image1, src, out1, out2. repeat split; assumption.
Qed.
End StorageFacts.

(* ------------------------------------------------------------------ *)
(** ** Looking up a new revision; undo                                *)
(* ------------------------------------------------------------------ *)

Module LookupFacts.
Import JS Op Svc Scenario ScenarioMore SvcFacts SvcVocab ApplyOpFacts StorageFacts.
Import CloudStorage.
Local Open Scope string_scope.

(** A rotation and then a flip of the image that has two revisions: the
    rotation reads the result of the second revision, the flip the result
    of the rotation. *)
Lemma applyOp_chain_witness :
  fst (applyOp cloud i1 (RotateOp (Number (int 180))) edited) = Ok rev3 /\
  fst (applyOp cloud_next i1 (FlipOp (Bool false) (Bool true))
         (snd (applyOp cloud i1 (RotateOp (Number (int 180))) edited)))
  = Ok rev4 /\
  RevisionRecord.parent_id rev4 = Some (RevisionRecord.id rev3) /\
  revisions
    (snd (applyOp cloud_next i1 (FlipOp (Bool false) (Bool true))
            (snd (applyOp cloud i1 (RotateOp (Number (int 180))) edited))))
  = (revisions edited ++ [rev3; rev4])%list /\
  exists image src out1 out2,
    find (fun i => ImageRecord.id i =? i1) (images edited) = Some image /\
    stored cloud (sourceBucketOf (latest_row i1 (revisions edited)))
      (sourcePathOf (latest_row i1 (revisions edited)) image) edited
    = Some src /\
    sharp cloud (RotateOp (Number (int 180))) src = Ok out1 /\
    stored cloud results (RevisionRecord.storage_path rev3)
      (snd (applyOp cloud i1 (RotateOp (Number (int 180))) edited))
    = Some out1 /\
    sharp cloud_next (FlipOp (Bool false) (Bool true)) out1 = Ok out2 /\
    stored cloud_next results (RevisionRecord.storage_path rev4)
      (snd (applyOp cloud_next i1 (FlipOp (Bool false) (Bool true))
              (snd (applyOp cloud i1 (RotateOp (Number (int 180))) edited))))
    = Some out2.
Proof.
  split; [reflexivity|]. split; [reflexivity|].
  apply (@applyOp_chain cloud cloud_next i1 (RotateOp (Number (int 180)))
           (FlipOp (Bool false) (Bool true)) edited rev3
           (snd (applyOp cloud i1 (RotateOp (Number (int 180))) edited)) rev4
           (snd (applyOp cloud_next i1 (FlipOp (Bool false) (Bool true))
                   (snd (applyOp cloud i1 (RotateOp (Number (int 180))) edited)))));
    try reflexivity.
  - apply cloud_plain.
  - intros H. discriminate.
  - apply edited_earlier.
  - discriminate.
Defined.




(** [undo] changes nothing but the thumbnail key in Redis, whether it
    succeeds or fails. *)
Theorem undo_changes_only_redis env imageId w :
  images (snd (undo env imageId w)) = images w /\
  revisions (snd (undo env imageId w)) = revisions w /\
  gcs (snd (undo env imageId w)) = gcs w /\
  local_storage (snd (undo env imageId w)) = local_storage w /\
  statelessPathCache (snd (undo env imageId w)) = statelessPathCache w /\
  forall key, In key (redis (snd (undo env imageId w))) -> In key (redis w).
Proof.
  unfold undo, bind, getLatestRevision, getRevision, throw, ret,
    invalidateThumbnail.
  destruct (latest_row imageId (revisions w)) as [cur|];
    [|cbn; repeat split; auto].
  destruct (or_null (RevisionRecord.parent_id cur)) as [pid|];
    [|cbn; repeat split; auto].
  destruct (find _ (revisions w)) as [parent|]; [|cbn; repeat split; auto].
  destruct (redis_up env); cbn; repeat split; auto.
  intros key Hk. apply filter_In in Hk. tauto.
Qed.

Lemma undo_inv env imageId w p w1 :
  undo env imageId w = (Ok p, w1) ->
  exists cur pid,
    latest_row imageId (revisions w) = Some cur /\
    or_null (RevisionRecord.parent_id cur) = Some pid /\
    find (fun r => RevisionRecord.id r =? pid) (revisions w) = Some p /\
    redis_up env = true /\ revisions w1 = revisions w.
Proof.
  unfold undo, bind, getLatestRevision, getRevision, throw, ret,
    invalidateThumbnail.
  destruct (latest_row imageId (revisions w)) as [cur|]; [|discriminate].
  destruct (or_null (RevisionRecord.parent_id cur)) as [pid|] eqn:Ep;
    [|discriminate].
  destruct (find _ (revisions w)) as [parent|] eqn:Ef; [|discriminate].
  destruct (redis_up env); [|discriminate].
  intros [= <- <-]. exists cur, pid. repeat split; try reflexivity; assumption.
Qed.

(** A second [undo] returns the same revision as the first: it does not
    walk further back. *)
Theorem undo_twice env1 env2 imageId w p w1 :
  undo env1 imageId w = (Ok p, w1) ->
  redis_up env2 = true ->
  fst (undo env2 imageId w1) = Ok p.
Proof.
  intros H Hup. apply undo_inv in H as (cur & pid & Hl & Hp & Hf & _ & Hr).
  unfold undo, bind, getLatestRevision, getRevision, throw, ret,
    invalidateThumbnail.
  do 4 (cbv beta iota; rewrite ?Hr, ?Hl, ?Hp, ?Hf, ?Hup). reflexivity.
Qed.

(** [undo] again after the [undo] of the second revision. *)
Lemma undo_twice_witness : fst (undo cloud i1 (snd undone)) = Ok rev1.
Proof.
  exact (@undo_twice cloud cloud i1 edited rev1 (snd undone)
           eq_refl eq_refl).
Defined.
End LookupFacts.

(* ------------------------------------------------------------------ *)
(** ** applyOp without the database                                   *)
(* ------------------------------------------------------------------ *)

Module StatelessFacts.
Import JS Op Svc Scenario ScenarioMore SvcFacts SvcVocab ApplyOpFacts StorageFacts.
Import CloudStorage PostgresClient.
Local Open Scope string_scope.

Lemma append_nonempty a c b : (a ++ String c b =? "") = false.
Proof. destruct a; reflexivity. Qed.

Lemma download_inv b path w x w' :
  download b path w = (Ok x, w') ->
  w' = w /\ option_map body (lookup b path (gcs w)) = Some x.
Proof.
  unfold download. destruct (lookup b path (gcs w)) as [o|];
    intros [= <- <-]; auto.
Qed.

Lemma download_err b path w e w' :
  download b path w = (Err e, w') -> w' = w /\ lookup b path (gcs w) = None.
Proof.
  unfold download. destruct (lookup b path (gcs w)) as [o|];
    intros [= <- <-]; auto.
Qed.

(** In the stateless mode a successful [applyOp] leaves the database, the
    local files and Redis alone; it reads the raw object
    [demo/<imageId>.jpg], or [demo/<imageId>.png] when there is no such
    [.jpg], writes the result as image/jpeg whatever the source, returns a
    record without parent whose [id] is the identifier in the result path,
    and remembers the path so that [getDownloadUrl] finds it. *)
Theorem applyOp_stateless env imageId op w r w' :
  SKIP_DB_CHECK env = true ->
  applyOp env imageId op w = (Ok r, w') ->
  images w' = images w /\ revisions w' = revisions w /\
  local_storage w' = local_storage w /\ redis w' = redis w /\
  r = RevisionRecord.mk (uuidv4 env) imageId None (type op) op
        (imageId ++ "_" ++ uuidv4 env ++ ".jpg") (NOW env) /\
  exists src out,
    (option_map body (lookup raw ("demo/" ++ imageId ++ ".jpg") (gcs w))
       = Some src \/
     lookup raw ("demo/" ++ imageId ++ ".jpg") (gcs w) = None /\
     option_map body (lookup raw ("demo/" ++ imageId ++ ".png") (gcs w))
       = Some src) /\
    sharp env op src = Ok out /\
    lookup results (RevisionRecord.storage_path r) (gcs w')
      = Some {| contentType := "image/jpeg"; body := out |} /\
    RevisionService.getDownloadUrl env (RevisionRecord.id r) w'
      = Returned (SignedUrl results (RevisionRecord.storage_path r) 60).
Proof.
  intros Hs. unfold applyOp, throw. rewrite Hs.
  destruct (validate op); cbn [negb]; [|discriminate].
  unfold applyOpStateless, bind, try_catch.
  destruct (download raw ("demo/" ++ imageId ++ ".jpg") w)
    as [[src|e] w0] eqn:Ej.
  - apply download_inv in Ej as [-> Hj].
    destruct (toBuffer env op src w) as [[out|e] w0] eqn:Et; [|discriminate].
    apply toBuffer_inv in Et as (-> & _ & Hc).
    unfold uploadResult, statelessCacheSet, ret. intros [= <- <-].
    cbn. repeat split.
    exists src, out. split; [left; exact Hj|]. split; [exact Hc|].
    split.
    + apply lookup_head.
    + unfold RevisionService.getDownloadUrl. rewrite Hs.
      cbn. rewrite String.eqb_refl, append_nonempty. reflexivity.
  - apply download_err in Ej as [-> Hj].
    destruct (download raw ("demo/" ++ imageId ++ ".png") w)
      as [[src|e2] w0] eqn:Ep.
    + apply download_inv in Ep as [-> Hp].
      destruct (toBuffer env op src w) as [[out|e3] w0] eqn:Et;
        [|discriminate].
      apply toBuffer_inv in Et as (-> & _ & Hc).
      unfold uploadResult, statelessCacheSet, ret. intros [= <- <-].
      cbn. repeat split.
      exists src, out. split; [right; split; assumption|].
      split; [exact Hc|]. split.
      * apply lookup_head.
      * unfold RevisionService.getDownloadUrl. rewrite Hs.
        cbn. rewrite String.eqb_refl, append_nonempty. reflexivity.
    + apply download_err in Ep as [-> _].
      unfold download. rewrite Hj. discriminate.
Qed.

(** A rotation of the demo image, which exists as a PNG only. *)
Lemma applyOp_stateless_witness :
  images (snd (applyOp stateless "i7" (RotateOp (Number (int 90))) demo)) = images demo /\
  revisions (snd (applyOp stateless "i7" (RotateOp (Number (int 90))) demo))
    = revisions demo /\
  local_storage (snd (applyOp stateless "i7" (RotateOp (Number (int 90))) demo))
    = local_storage demo /\
  redis (snd (applyOp stateless "i7" (RotateOp (Number (int 90))) demo)) = redis demo /\
  RevisionRecord.mk "a5" "i7" None 1 (RotateOp (Number (int 90))) "i7_a5.jpg" 50
  = RevisionRecord.mk (uuidv4 stateless) "i7" None (type (RotateOp (Number (int 90))))
      (RotateOp (Number (int 90))) ("i7" ++ "_" ++ uuidv4 stateless ++ ".jpg")
      (NOW stateless) /\
  exists src out,
    (option_map body (lookup raw ("demo/" ++ "i7" ++ ".jpg") (gcs demo))
       = Some src \/
     lookup raw ("demo/" ++ "i7" ++ ".jpg") (gcs demo) = None /\
     option_map body (lookup raw ("demo/" ++ "i7" ++ ".png") (gcs demo))
       = Some src) /\
    sharp stateless (RotateOp (Number (int 90))) src = Ok out /\
    lookup results "i7_a5.jpg"
      (gcs (snd (applyOp stateless "i7" (RotateOp (Number (int 90))) demo)))
      = Some {| contentType := "image/jpeg"; body := out |} /\
    RevisionService.getDownloadUrl stateless "a5"
      (snd (applyOp stateless "i7" (RotateOp (Number (int 90))) demo))
      = Returned (SignedUrl results "i7_a5.jpg" 60).
Proof.
  exact (@applyOp_stateless stateless "i7" (RotateOp (Number (int 90))) demo
           (RevisionRecord.mk "a5" "i7" None 1 (RotateOp (Number (int 90))) "i7_a5.jpg" 50)
           (snd (applyOp stateless "i7" (RotateOp (Number (int 90))) demo))
           eq_refl eq_refl).
Defined.
End StatelessFacts.

(* ------------------------------------------------------------------ *)
(** ** The history of an image and the revision tree                  *)
(* ------------------------------------------------------------------ *)

Module HistoryFacts.
Import JS Op Svc Scenario ScenarioMore SvcFacts SvcVocab ApplyOpFacts StorageFacts.
Import CloudStorage PostgresClient.
Local Open Scope string_scope.

Lemma order_asc_snoc rows r :
  order_asc (rows ++ [r]) = insert_asc r (order_asc rows).
Proof. unfold order_asc. rewrite fold_left_app. reflexivity. Qed.

Lemma In_insert_asc x r sorted :
  In x (insert_asc r sorted) -> x = r \/ In x sorted.
Proof.
  induction sorted as [|y rest IH]; cbn [insert_asc].
  - intros [<- | []]. auto.
  - destruct (RevisionRecord.created_at r <? RevisionRecord.created_at y)%Z.
    + intros [<- | H]; auto.
    + intros [<- | H]; [right; left; reflexivity|].
      apply IH in H as [H | H]; [auto | right; right; exact H].
Qed.

Lemma In_fold_insert_asc x rows acc :
  In x (fold_left (fun sorted r => insert_asc r sorted) rows acc) ->
  In x acc \/ In x rows.
Proof.
  revert acc. induction rows as [|y rest IH]; intros acc; cbn [fold_left].
  - auto.
  - intros H. apply IH in H as [H | H].
    + apply In_insert_asc in H as [-> | H]; [right; left; reflexivity | auto].
    + right; right; exact H.
Qed.

Lemma In_order_asc x rows : In x (order_asc rows) -> In x rows.
Proof.
  intros H. apply In_fold_insert_asc in H as [[] | H]. exact H.
Qed.

Lemma insert_asc_last r sorted :
  (forall x, In x sorted ->
     (RevisionRecord.created_at x <= RevisionRecord.created_at r)%Z) ->
  insert_asc r sorted = (sorted ++ [r])%list.
Proof.
  induction sorted as [|y rest IH]; intros H; cbn [insert_asc app].
  - reflexivity.
  - destruct (Z.ltb_spec (RevisionRecord.created_at r)
                (RevisionRecord.created_at y)) as [Hlt | _].
    + specialize (H y (or_introl eq_refl)). lia.
    + rewrite IH; [reflexivity|]. intros x Hx. apply H. right. exact Hx.
Qed.

(** After a successful [applyOp] that comes later than the revisions of the
    image, the history of the image is the history before with the new
    revision at its end, and the history of every other image is as
    before. *)
Theorem applyOp_extends_history env imageId op w r w' :
  SKIP_DB_CHECK env = false ->
  later_than_revisions env imageId w ->
  applyOp env imageId op w = (Ok r, w') ->
  (exists old,
     fst (RevisionService.getHistory imageId w) = Ok old /\
     fst (RevisionService.getHistory imageId w') = Ok (old ++ [r])%list) /\
  forall other, other <> imageId ->
    fst (RevisionService.getHistory other w')
    = fst (RevisionService.getHistory other w).
Proof.
  intros Hdb Hlater H.
  apply applyOp_ok in H as [_ H]; [|exact Hdb].
  apply applyOpLocked_ok in H
    as (image & src & out & w1 & _ & _ & _ & _ & Hr & _ & _ & Hrows & _).
  assert (Hid : RevisionRecord.image_id r = imageId)
    by (rewrite Hr; reflexivity).
  assert (Hat : RevisionRecord.created_at r = NOW env)
    by (rewrite Hr; reflexivity).
  unfold RevisionService.getHistory, getRevisionHistory. cbn [fst].
  rewrite Hrows. split.
  - eexists. split; [reflexivity|]. f_equal.
    rewrite filter_app. cbn [filter]. unfold of_image at 2.
    rewrite Hid, String.eqb_refl, order_asc_snoc.
    apply insert_asc_last. intros x Hx.
    apply In_order_asc, filter_In in Hx as [Hx Ho].
    apply String.eqb_eq in Ho.
    specialize (Hlater x Hx Ho). lia.
  - intros other Hne. rewrite filter_app. cbn [filter]. unfold of_image at 2.
    rewrite Hid.
    destruct (String.eqb_spec imageId other) as [E|_];
      [congruence|]. rewrite app_nil_r. reflexivity.
Qed.

(** A third edit of the image that has two. *)
Lemma applyOp_extends_history_witness :
  (exists old,
     fst (RevisionService.getHistory i1 edited) = Ok old /\
     fst (RevisionService.getHistory i1
            (snd (applyOp cloud i1 (RotateOp (Number (int 180))) edited)))
     = Ok (old ++ [rev3])%list) /\
  forall other, other <> i1 ->
    fst (RevisionService.getHistory other
           (snd (applyOp cloud i1 (RotateOp (Number (int 180))) edited)))
    = fst (RevisionService.getHistory other edited).
Proof.
  exact (@applyOp_extends_history cloud i1 (RotateOp (Number (int 180))) edited rev3
           (snd (applyOp cloud i1 (RotateOp (Number (int 180))) edited))
           eq_refl edited_earlier eq_refl).
Defined.

(** [applyOp] through the database keeps the revision tree well formed:
    if every [parent_id] names a row of the same image before the call, so
    it does after it, whether the call succeeds or fails. *)
Theorem applyOp_keeps_parents_linked env imageId op w res w' :
  SKIP_DB_CHECK env = false ->
  parents_linked w ->
  applyOp env imageId op w = (res, w') ->
  parents_linked w'.
Proof.
  intros Hdb Hw H. destruct res as [r|e].
  - apply applyOp_ok in H as [_ H]; [|exact Hdb].
    apply applyOpLocked_ok in H
      as (image & src & out & w1 & _ & _ & _ & _ & Hr & _ & _ & Hrows & _).
    intros x Hx pid Hp. rewrite Hrows in Hx |- *.
    apply in_app_or in Hx as [Hx | [<- | []]].
    + destruct (Hw x Hx pid Hp) as (p & Hin & Hid & Him).
      exists p. split; [apply in_or_app; left; exact Hin | auto].
    + rewrite Hr in Hp. cbn [RevisionRecord.parent_id] in Hp.
      apply or_null_inv in Hp.
      destruct (latest_row imageId (revisions w)) as [p|] eqn:El;
        [|discriminate].
      injection Hp as Hp. exists p. split.
      * apply in_or_app. left. apply (latest_row_in imageId _ El).
      * split; [exact Hp|].
        rewrite (latest_row_image imageId _ El), Hr. reflexivity.
  - assert (Hroll : forall w0, parents_linked (rollback w w0)).
    { intros w0 x Hx pid Hp. cbn in Hx.
      destruct (Hw x Hx pid Hp) as (p & Hin & Hid & Him).
      exists p. cbn. auto. }
    destruct (validate op) eqn:Hv.
    + rewrite (@applyOp_locked env imageId op w Hdb Hv) in H.
      destruct (is_uuid imageId).
      * destruct (applyOpLocked env imageId op w) as [[r0|e0] w0];
          [discriminate|].
        injection H as _ <-. apply Hroll.
      * injection H as _ <-. apply Hroll.
    + unfold applyOp, throw in H. rewrite Hdb, Hv in H.
      injection H as _ <-. exact Hw.
Qed.

Lemma edited_linked : parents_linked edited.
Proof.
  intros r [<- | [<- | []]] pid; cbn; intros [= <-].
  exists rev1. cbn. auto.
Qed.

(** A third edit of the image that has two. *)
Lemma applyOp_keeps_parents_linked_witness :
  parents_linked edited /\
  parents_linked (snd (applyOp cloud i1 (RotateOp (Number (int 180))) edited)).
Proof.
  split; [exact edited_linked|].
  exact (@applyOp_keeps_parents_linked cloud i1 (RotateOp (Number (int 180))) edited
           (Ok rev3) (snd (applyOp cloud i1 (RotateOp (Number (int 180))) edited))
           eq_refl edited_linked eq_refl).
Defined.

End HistoryFacts.

(* ------------------------------------------------------------------ *)
(** ** Deleting objects and rows                                      *)
(* ------------------------------------------------------------------ *)

Module DeleteFacts.
Import JS Op Svc WorldOps Scenario ScenarioMore SvcFacts SvcVocab.
Import CloudStorage PostgresClient.
Local Open Scope string_scope.

Lemma find_none_all (A : Type) (f : A -> bool) l :
  (forall x, In x l -> f x = false) -> find f l = None.
Proof.
  induction l as [|a l IH]; intros H; cbn [find]; [reflexivity|].
  rewrite (H a (or_introl eq_refl)). apply IH. intros x Hx. apply H.
  right. exact Hx.
Qed.

Lemma lookup_none {V} b path (store : list (BucketType * string * V)) :
  (forall e, In e store -> at_key b path e = false) ->
  lookup b path store = None.
Proof.
  intros H. unfold lookup. rewrite find_none_all; [reflexivity | exact H].
Qed.

Lemma BucketType_eqb_eq a b : BucketType_eqb a b = true -> a = b.
Proof. destruct a, b; cbn; congruence. Qed.

Lemma at_key_inv {V} b path (e : BucketType * string * V) :
  at_key b path e = true -> fst (fst e) = b /\ snd (fst e) = path.
Proof.
  unfold at_key. intros H. apply andb_prop in H as [Hb Hp].
  split; [apply BucketType_eqb_eq, Hb | apply String.eqb_eq, Hp].
Qed.

Lemma lookup_filter_out {V} b path (store : list (BucketType * string * V)) :
  lookup b path (filter (fun e => negb (at_key b path e)) store) = None.
Proof.
  apply lookup_none. intros e He. apply filter_In in He as [_ He].
  apply negb_true_iff, He.
Qed.

Lemma find_filter_other (A : Type) (f keep : A -> bool) l :
  (forall x, In x l -> f x = true -> keep x = true) ->
  find f (filter keep l) = find f l.
Proof.
  induction l as [|a l IH]; intros H; cbn [filter find]; [reflexivity|].
  assert (IH' : find f (filter keep l) = find f l)
    by (apply IH; intros x Hx; apply H; right; exact Hx).
  destruct (f a) eqn:Ef.
  - rewrite (H a (or_introl eq_refl) Ef). cbn [find]. rewrite Ef.
    reflexivity.
  - destruct (keep a); [cbn [find]; rewrite Ef|]; exact IH'.
Qed.

(** [CloudStorage.delete] removes the object of the given key and no
    other: [exists] is false for it afterwards, and answers as before for
    every other key. *)
Theorem delete_then_exists bucketType path w :
  fst (exists_ bucketType path (snd (CloudStorage.delete bucketType path w)))
  = Ok false /\
  forall b p,
    (b, p) <> (bucketType, path) ->
    fst (exists_ b p (snd (CloudStorage.delete bucketType path w)))
    = fst (exists_ b p w).
Proof.
  unfold exists_, CloudStorage.delete. cbn [fst snd set_gcs gcs]. split.
  - rewrite lookup_filter_out. reflexivity.
  - intros b p Hne. unfold lookup. rewrite find_filter_other; [reflexivity|].
    intros e _ He. apply at_key_inv in He as [Hb Hp].
    apply negb_true_iff.
    destruct (at_key bucketType path e) eqn:E; [|reflexivity].
    apply at_key_inv in E as [Hb' Hp']. exfalso. apply Hne. congruence.
Qed.

Lemma set_null_id gone r :
  RevisionRecord.id (set_null gone r) = RevisionRecord.id r /\
  RevisionRecord.image_id (set_null gone r) = RevisionRecord.image_id r.
Proof.
  unfold set_null. destruct (RevisionRecord.parent_id r) as [p|]; [|auto].
  destruct (existsb (String.eqb p) gone); auto.
Qed.

Lemma set_null_parent gone r pid :
  RevisionRecord.parent_id (set_null gone r) = Some pid ->
  RevisionRecord.parent_id r = Some pid /\
  existsb (String.eqb pid) gone = false.
Proof.
  unfold set_null. destruct (RevisionRecord.parent_id r) as [p|] eqn:E.
  - destruct (existsb (String.eqb p) gone) eqn:Eg; cbn; [discriminate|].
    rewrite E. intros [= <-]. auto.
  - rewrite E. discriminate.
Qed.

Lemma no_image_left imageId imgs :
  find (fun i => ImageRecord.id i =? imageId)
    (filter (fun i => negb (ImageRecord.id i =? imageId)) imgs) = None.
Proof.
  apply find_none_all. intros x Hx. apply filter_In in Hx as [_ Hx].
  apply negb_true_iff, Hx.
Qed.

Lemma no_rows_left imageId gone rows r :
  In r (map (set_null gone)
          (filter (fun r => negb (of_image imageId r)) rows)) ->
  RevisionRecord.image_id r <> imageId.
Proof.
  intros Hr Hi. apply in_map_iff in Hr as (r0 & <- & Hr).
  apply filter_In in Hr as [_ Hn]. apply negb_true_iff in Hn.
  destruct (set_null_id gone r0) as [_ Him]. rewrite Him in Hi.
  unfold of_image in Hn. rewrite Hi, String.eqb_refl in Hn. discriminate.
Qed.

Lemma deleteImage_found imageId w image :
  find (fun i => ImageRecord.id i =? imageId) (images w) = Some image ->
  deleteImage imageId w
  = (Ok tt,
     set_tables w
       (filter (fun i => negb (ImageRecord.id i =? imageId)) (images w))
       (map (set_null
               (map RevisionRecord.id
                  (filter (of_image imageId) (revisions w))))
          (filter (fun r => negb (of_image imageId r)) (revisions w)))).
Proof.
  intros Hf. unfold deleteImage.
  assert (Hex : existsb (fun i => ImageRecord.id i =? imageId) (images w)
                = true).
  { apply existsb_exists. exists image. apply find_some in Hf. exact Hf. }
  rewrite Hex. reflexivity.
Qed.

Lemma other_rows_kept imageId other gone rows :
  other <> imageId ->
  map RevisionRecord.id
    (filter (of_image other)
       (map (set_null gone)
          (filter (fun r => negb (of_image imageId r)) rows)))
  = map RevisionRecord.id (filter (of_image other) rows).
Proof.
  intros Hne. induction rows as [|a l IH]; [reflexivity|].
  cbn [filter].
  destruct (set_null_id gone a) as [Hid Him].
  destruct (of_image imageId a) eqn:Ea; cbn [negb map filter].
  - assert (Eo : of_image other a = false).
    { unfold of_image in Ea |- *. apply String.eqb_eq in Ea.
      apply String.eqb_neq. congruence. }
    rewrite Eo. exact IH.
  - assert (Eo : of_image other (set_null gone a) = of_image other a)
      by (unfold of_image; rewrite Him; reflexivity).
    rewrite Eo. destruct (of_image other a); [|exact IH].
    cbn [map]. rewrite Hid, IH. reflexivity.
Qed.

(** [deleteImage] leaves no row of the image, in [images] or in
    [revisions], keeps the rows of the other images, and keeps the
    revision tree well formed: where every [parent_id] named a row before,
    it does so afterwards ([ON DELETE SET NULL] clears those that named a
    deleted row). *)
Theorem deleteImage_cascades imageId w image w' :
  find (fun i => ImageRecord.id i =? imageId) (images w) = Some image ->
  deleteImage imageId w = (Ok tt, w') ->
  find (fun i => ImageRecord.id i =? imageId) (images w') = None /\
  (forall r, In r (revisions w') -> RevisionRecord.image_id r <> imageId) /\
  (forall other, other <> imageId ->
     find (fun i => ImageRecord.id i =? other) (images w')
     = find (fun i => ImageRecord.id i =? other) (images w) /\
     map RevisionRecord.id (filter (of_image other) (revisions w'))
     = map RevisionRecord.id (filter (of_image other) (revisions w))) /\
  ((forall r pid, In r (revisions w) ->
      RevisionRecord.parent_id r = Some pid ->
      exists p, In p (revisions w) /\ RevisionRecord.id p = pid) ->
   forall r pid, In r (revisions w') ->
      RevisionRecord.parent_id r = Some pid ->
      exists p, In p (revisions w') /\ RevisionRecord.id p = pid).
Proof.
  intros Hf H. rewrite (deleteImage_found imageId w Hf) in H.
  injection H as <-. cbn [set_tables images revisions].
  set (gone := map RevisionRecord.id
                 (filter (of_image imageId) (revisions w))).
  split; [|split; [|split]].
  - apply no_image_left.
  - intros r. apply no_rows_left.
  - intros other Hne. split.
    + apply find_filter_other. intros x _ Hx. apply String.eqb_eq in Hx.
      apply negb_true_iff.
      destruct (String.eqb_spec (ImageRecord.id x) imageId); congruence.
    + apply other_rows_kept. exact Hne.
  - intros Hw r pid Hr Hp. apply in_map_iff in Hr as (r0 & <- & Hr).
    apply filter_In in Hr as [Hr _].
    apply set_null_parent in Hp as [Hp Hg].
    destruct (Hw r0 pid Hr Hp) as (p & Hin & Hid).
    exists (set_null gone p). split.
    + apply in_map, filter_In. split; [exact Hin|].
      apply negb_true_iff. destruct (of_image imageId p) eqn:Eo;
        [|reflexivity].
      exfalso. assert (Hin' : In pid gone).
      { rewrite <- Hid. apply in_map, filter_In. auto. }
      assert (Ht : existsb (String.eqb pid) gone = true).
      { apply existsb_exists. exists pid. split; [exact Hin'|].
        apply String.eqb_refl. }
      congruence.
    + rewrite <- Hid. apply set_null_id.
Qed.

(** The first of two images is deleted. *)
Lemma deleteImage_cascades_witness :
  find (fun i => ImageRecord.id i =? i1)
    (images (snd (deleteImage i1 shared))) = None /\
  (forall r, In r (revisions (snd (deleteImage i1 shared))) ->
     RevisionRecord.image_id r <> i1) /\
  (forall other, other <> i1 ->
     find (fun i => ImageRecord.id i =? other)
       (images (snd (deleteImage i1 shared)))
     = find (fun i => ImageRecord.id i =? other) (images shared) /\
     map RevisionRecord.id
       (filter (of_image other) (revisions (snd (deleteImage i1 shared))))
     = map RevisionRecord.id (filter (of_image other) (revisions shared))) /\
  ((forall r pid, In r (revisions shared) ->
      RevisionRecord.parent_id r = Some pid ->
      exists p, In p (revisions shared) /\ RevisionRecord.id p = pid) ->
   forall r pid, In r (revisions (snd (deleteImage i1 shared))) ->
      RevisionRecord.parent_id r = Some pid ->
      exists p, In p (revisions (snd (deleteImage i1 shared))) /\
                RevisionRecord.id p = pid).
Proof.
  exact (@deleteImage_cascades i1 shared png
           (snd (deleteImage i1 shared)) eq_refl eq_refl).
Defined.

End DeleteFacts.

(* ------------------------------------------------------------------ *)
(** ** ImageService: delete and download URLs                         *)
(* ------------------------------------------------------------------ *)

Module ImageFacts.
Import JS Op Svc WorldOps Scenario ScenarioMore SvcFacts SvcVocab.
Import CloudStorage PostgresClient DeleteFacts.
Local Open Scope string_scope.

Lemma results_kept b path file (e : BucketType * string * bytes) :
  b <> results ->
  at_key results file e = true -> negb (at_key b path e) = true.
Proof.
  intros Hb He. apply at_key_inv in He as [He _]. apply negb_true_iff.
  destruct (at_key b path e) eqn:E; [|reflexivity].
  apply at_key_inv in E as [E _]. congruence.
Qed.

(** What the storage part of [delete] leaves in the buckets. *)
Lemma swept_buckets imageId (image : ImageRecord.t)
    (g : list (BucketType * string * Object)) :
  let g' :=
    filter (fun e => negb (at_key raw (ImageRecord.original_path image) e))
      (filter (fun e => negb (at_key thumb (imageId ++ ".webp") e))
         (filter (fun e => negb (in_results_with_prefix imageId e)) g)) in
  (forall path, String.prefix imageId path = true ->
     lookup results path g' = None) /\
  lookup thumb (imageId ++ ".webp") g' = None /\
  lookup raw (ImageRecord.original_path image) g' = None.
Proof.
  cbv zeta. split; [|split].
  - intros path Hp. apply lookup_none. intros e He.
    apply filter_In in He as [He _]. apply filter_In in He as [He _].
    apply filter_In in He as [_ He]. apply negb_true_iff in He.
    destruct (at_key results path e) eqn:E; [|reflexivity].
    apply at_key_inv in E as [Eb Ep].
    unfold in_results_with_prefix in He. rewrite Eb, Ep, Hp in He.
    discriminate.
  - apply lookup_none. intros e He.
    apply filter_In in He as [He _]. apply filter_In in He as [_ He].
    apply negb_true_iff, He.
  - apply lookup_filter_out.
Qed.

(** In cloud mode a successful [delete] leaves nothing of the image: no
    row in [images] or [revisions], no object of the results bucket whose
    name starts with the image id, no thumbnail, no original and no
    thumbnail key in Redis. *)
Theorem delete_leaves_nothing env imageId w w' :
  USE_LOCAL_STORAGE env = false ->
  ImageService.delete env imageId w = (Ok tt, w') ->
  exists image,
    find (fun i => ImageRecord.id i =? imageId) (images w) = Some image /\
    find (fun i => ImageRecord.id i =? imageId) (images w') = None /\
    (forall r, In r (revisions w') -> RevisionRecord.image_id r <> imageId) /\
    (forall path, String.prefix imageId path = true ->
       lookup results path (gcs w') = None) /\
    lookup thumb (imageId ++ ".webp") (gcs w') = None /\
    lookup raw (ImageRecord.original_path image) (gcs w') = None /\
    ~ In ("thumb:" ++ imageId) (redis w').
Proof.
  intros Hl. unfold ImageService.delete, bind, getImage, throw.
  destruct (find (fun i => ImageRecord.id i =? imageId) (images w))
    as [image|] eqn:Hf; [|discriminate].
  rewrite Hl. unfold deleteAllForImage, CloudStorage.delete,
    invalidateThumbnail.
  cbn [set_gcs gcs images revisions local_storage redis statelessPathCache].
  destruct (redis_up env); [|discriminate].
  match goal with
  | |- deleteImage imageId ?w0 = _ -> _ =>
      rewrite (@deleteImage_found imageId w0 image Hf)
  end.
  intros [= <-]. exists image.
  cbn [set_tables set_gcs gcs images revisions redis].
  destruct (swept_buckets imageId image (gcs w)) as (Hres & Hth & Hraw).
  split; [reflexivity|]. split; [apply no_image_left|].
  split; [intros r; apply no_rows_left|].
  split; [exact Hres|]. split; [exact Hth|]. split; [exact Hraw|].
  intros Hin. apply filter_In in Hin as [_ Hin].
  rewrite String.eqb_refl in Hin. discriminate.
Qed.

(** The first of two images is deleted; the results of the second,
    whose id starts with the id of the first, go with it. *)
Lemma delete_leaves_nothing_witness :
  exists image,
    find (fun i => ImageRecord.id i =? i1) (images shared) = Some image /\
    find (fun i => ImageRecord.id i =? i1)
      (images (snd (ImageService.delete cloud i1 shared))) = None /\
    (forall r,
       In r (revisions (snd (ImageService.delete cloud i1 shared))) ->
       RevisionRecord.image_id r <> i1) /\
    (forall path, String.prefix i1 path = true ->
       lookup results path
         (gcs (snd (ImageService.delete cloud i1 shared))) = None) /\
    lookup thumb (i1 ++ ".webp")
      (gcs (snd (ImageService.delete cloud i1 shared))) = None /\
    lookup raw (ImageRecord.original_path image)
      (gcs (snd (ImageService.delete cloud i1 shared))) = None /\
    ~ In ("thumb:" ++ i1)
        (redis (snd (ImageService.delete cloud i1 shared))).
Proof.
  exact (@delete_leaves_nothing cloud i1 shared
           (snd (ImageService.delete cloud i1 shared)) eq_refl eq_refl).
Defined.

(** [delete] is not atomic: when Redis does not answer, it fails with the
    cache error after the files of the image were removed from storage,
    and with every row of the image still in the database.  (In local mode
    the thumbnail is the file [<imageId>.webp] of its directory for an id
    without a slash.) *)
Theorem delete_fails_after_storage env imageId w image :
  redis_up env = false ->
  (USE_LOCAL_STORAGE env = true -> has_slash imageId = false) ->
  find (fun i => ImageRecord.id i =? imageId) (images w) = Some image ->
  exists w',
    ImageService.delete env imageId w = (Err CacheError, w') /\
    images w' = images w /\ revisions w' = revisions w /\
    redis w' = redis w /\
    if USE_LOCAL_STORAGE env then
      lookup raw (basename (ImageRecord.original_path image))
        (local_storage w') = None /\
      lookup thumb (imageId ++ ".webp") (local_storage w') = None
    else
      lookup raw (ImageRecord.original_path image) (gcs w') = None /\
      lookup thumb (imageId ++ ".webp") (gcs w') = None /\
      forall path, String.prefix imageId path = true ->
        lookup results path (gcs w') = None.
Proof.
  intros Hr _ Hf. unfold ImageService.delete, bind, getImage, throw.
  rewrite Hf. destruct (USE_LOCAL_STORAGE env).
  - unfold ImageService.unlink, invalidateThumbnail. rewrite Hr.
    eexists. split; [reflexivity|].
    cbn [set_local_storage images revisions redis local_storage].
    repeat split.
    + apply lookup_none. intros e He.
      apply filter_In in He as [He _]. apply filter_In in He as [_ He].
      apply negb_true_iff, He.
    + apply lookup_filter_out.
  - unfold deleteAllForImage, CloudStorage.delete, invalidateThumbnail.
    rewrite Hr. eexists. split; [reflexivity|].
    cbn [set_gcs images revisions redis gcs].
    destruct (swept_buckets imageId image (gcs w)) as (Hres & Hth & Hraw).
    repeat split; assumption.
Qed.

(** The same deletion with Redis down. *)
Lemma delete_fails_after_storage_witness :
  exists w',
    ImageService.delete (with_redis cloud false) i1 shared
    = (Err CacheError, w') /\
    images w' = images shared /\ revisions w' = revisions shared /\
    redis w' = redis shared /\
    if USE_LOCAL_STORAGE (with_redis cloud false) then
      lookup raw (basename (ImageRecord.original_path png))
        (local_storage w') = None /\
      lookup thumb (i1 ++ ".webp") (local_storage w') = None
    else
      lookup raw (ImageRecord.original_path png) (gcs w') = None /\
      lookup thumb (i1 ++ ".webp") (gcs w') = None /\
      forall path, String.prefix i1 path = true ->
        lookup results path (gcs w') = None.
Proof.
  exact (@delete_fails_after_storage (with_redis cloud false) i1 shared png
           eq_refl (fun _ => eq_refl) eq_refl).
Defined.

(** In local mode [delete] of an image whose id holds no slash never
    removes a file of the results directory, and never touches the buckets:
    the result files of the revisions whose rows it deletes stay on the
    disk. *)
Theorem delete_local_keeps_results env imageId w res w' :
  USE_LOCAL_STORAGE env = true ->
  has_slash imageId = false ->
  ImageService.delete env imageId w = (res, w') ->
  gcs w' = gcs w /\
  forall file,
    lookup results file (local_storage w')
    = lookup results file (local_storage w).
Proof.
  intros Hl _. unfold ImageService.delete, bind, getImage, throw.
  destruct (find (fun i => ImageRecord.id i =? imageId) (images w))
    as [image|] eqn:Hf; [|intros [= _ <-]; auto].
  rewrite Hl. unfold ImageService.unlink, invalidateThumbnail.
  assert (Hk : forall file,
    lookup results file
      (filter (fun e => negb (at_key thumb (imageId ++ ".webp") e))
         (filter
            (fun e => negb (at_key raw
                              (basename (ImageRecord.original_path image)) e))
            (local_storage w)))
    = lookup results file (local_storage w)).
  { intros file. unfold lookup.
    rewrite !find_filter_other; [reflexivity| |].
    - intros e _. apply results_kept. discriminate.
    - intros e _. apply results_kept. discriminate. }
  cbn [set_local_storage images revisions redis local_storage gcs
       statelessPathCache].
  destruct (redis_up env).
  - match goal with
    | |- deleteImage imageId ?w0 = _ -> _ =>
        rewrite (@deleteImage_found imageId w0 image Hf)
    end.
    intros [= _ <-]. cbn [set_tables gcs local_storage]. auto.
  - intros [= _ <-]. cbn [gcs local_storage]. auto.
Qed.

(** The image on the local disk with one revision. *)
Lemma delete_local_keeps_results_witness :
  gcs (snd (ImageService.delete local i1 on_disk)) = gcs on_disk /\
  forall file,
    lookup results file
      (local_storage (snd (ImageService.delete local i1 on_disk)))
    = lookup results file (local_storage on_disk).
Proof.
  exact (@delete_local_keeps_results local i1 on_disk (Ok tt)
           (snd (ImageService.delete local i1 on_disk))
           eq_refl eq_refl eq_refl).
Defined.

(** [ImageService.getDownloadUrl] answers for a revision only if the row
    of that revision belongs to the image asked for; the URL then signs
    the revision's result in the results bucket, the URL without a
    revision signs the original in the raw bucket, and the MIME type is
    that of the image row in both cases. *)
Theorem getDownloadUrl_owned env imageId revisionId w url mimeType :
  ImageService.getDownloadUrl env imageId revisionId w
  = Returned (url, mimeType) ->
  exists image,
    find (fun i => ImageRecord.id i =? imageId) (images w) = Some image /\
    mimeType = ImageRecord.mime_type image /\
    match ImageService.given_id revisionId with
    | Some rid =>
        exists r, In r (revisions w) /\ RevisionRecord.id r = rid /\
          RevisionRecord.image_id r = imageId /\
          (USE_LOCAL_STORAGE env = false ->
           url = SignedUrl results (RevisionRecord.storage_path r) 60)
    | None =>
        USE_LOCAL_STORAGE env = false ->
        url = SignedUrl raw (ImageRecord.original_path image) 60
    end.
Proof.
  unfold ImageService.getDownloadUrl.
  destruct (find (fun i => ImageRecord.id i =? imageId) (images w))
    as [image|] eqn:Hf; [|discriminate].
  intros H. exists image. split; [reflexivity|].
  destruct (ImageService.given_id revisionId) as [rid|].
  - destruct (find (fun r => RevisionRecord.id r =? rid) (revisions w))
      as [r|] eqn:Hr; [|discriminate].
    destruct (String.eqb_spec (RevisionRecord.image_id r) imageId)
      as [Hi|Hi]; cbn [negb] in H; [|discriminate].
    apply find_some in Hr as [Hin Hid]. apply String.eqb_eq in Hid.
    destruct (USE_LOCAL_STORAGE env); injection H as <- <-.
    + split; [reflexivity|]. exists r. repeat split; auto. discriminate.
    + split; [reflexivity|]. exists r. repeat split; auto.
  - destruct (USE_LOCAL_STORAGE env); injection H as <- <-.
    + split; [reflexivity|]. discriminate.
    + split; [reflexivity|]. reflexivity.
Qed.

(** The second revision of the edited image. *)
Lemma getDownloadUrl_owned_witness :
  exists image,
    find (fun i => ImageRecord.id i =? i1) (images edited) = Some image /\
    "image/png" = ImageRecord.mime_type image /\
    match ImageService.given_id (Some "r2") with
    | Some rid =>
        exists r, In r (revisions edited) /\ RevisionRecord.id r = rid /\
          RevisionRecord.image_id r = i1 /\
          (USE_LOCAL_STORAGE cloud = false ->
           SignedUrl results (i1 ++ "_a2.png") 60
           = SignedUrl results (RevisionRecord.storage_path r) 60)
    | None =>
        USE_LOCAL_STORAGE cloud = false ->
        SignedUrl results (i1 ++ "_a2.png") 60
        = SignedUrl raw (ImageRecord.original_path image) 60
    end.
Proof.
  exact (@getDownloadUrl_owned cloud i1 (Some "r2") edited
           (SignedUrl results (i1 ++ "_a2.png") 60) "image/png" eq_refl).
Defined.

End ImageFacts.
